(** * market-data-pipeline: the transform-and-upsert core and the quality runner

    A shallow embedding of [database/import_papers.py] (record normalisation,
    the two de-duplication passes, the three merge-on-conflict writes and the
    per-paper handler) and of the result bookkeeping of
    [database/test_papers_table.py].

    Conventions.
    - A raw record is a Python value as [json.load] produces it: [pyval].
      A [string] is a sequence of code points below 256; a float is
      represented by the rational it denotes.
    - A Python expression that may raise is an [option]: [None] is "an
      exception was raised".  Where the kind of exception matters (only
      [PostgresError] is caught by the writers) a [result] carries it.
    - A normalised row is the Python [dict] the code builds: an association
      list from column name to value.  The tuple handed to the store is the
      list of its values in column order. *)

From Stdlib Require Import ZArith QArith String Ascii List Bool Lia Sorted.
From stdpp Require Import base option list gmap strings pretty.

Open Scope string_scope.
Set Warnings "-register-all".

(* ------------------------------------------------------------------ *)
(** ** Python values *)

Inductive pyval : Type :=
| PNone
| PBool (b : bool)
| PInt (n : Z)
| PFloat (q : Q)
| PStr (s : string)
| PList (l : list pyval)
| PDict (d : list (string * pyval)).

(** A Python dict with string keys (keys are distinct in a well-formed dict;
    a lookup takes the first binding). *)
Definition pydict := list (string * pyval).

Fixpoint dict_get (d : pydict) (k : string) : option pyval :=
  match d with
  | [] => None
  | (k', v) :: d' => if String.eqb k' k then Some v else dict_get d' k
  end.

(** [bool(v)]. *)
Definition truthy (v : pyval) : bool :=
  match v with
  | PNone => false
  | PBool b => b
  | PInt n => negb (Z.eqb n 0)
  | PFloat q => negb (Qeq_bool q 0)
  | PStr s => negb (String.eqb s "")
  | PList l => match l with [] => false | _ => true end
  | PDict d => match d with [] => false | _ => true end
  end.

(** [a or b]. *)
Definition py_or (a b : pyval) : pyval := if truthy a then a else b.

(** [v.get(k)]: only a dict has the method. *)
Definition py_get (v : pyval) (k : string) : option pyval :=
  match v with
  | PDict d => Some (default PNone (dict_get d k))
  | _ => None
  end.

(** [v.get(k, dflt)]. *)
Definition py_get_or (v : pyval) (k : string) (dflt : pyval) : option pyval :=
  match v with
  | PDict d => Some (default dflt (dict_get d k))
  | _ => None
  end.

Definition char_str (c : ascii) : pyval := PStr (String c "").

(** [iter(v)], as a [for] loop or a comprehension sees it. *)
Definition py_iter (v : pyval) : option (list pyval) :=
  match v with
  | PList l => Some l
  | PDict d => Some (map (fun kv => PStr (fst kv)) d)
  | PStr s => Some (map char_str (list_ascii_of_string s))
  | _ => None
  end.

(** [v[0]] on a JSON value (a dict has no integer key). *)
Definition py_first (v : pyval) : option pyval :=
  match v with
  | PList (x :: _) => Some x
  | PStr (String c _) => Some (char_str c)
  | _ => None
  end.

(** [len(v)]. *)
Definition py_len (v : pyval) : option nat :=
  match v with
  | PList l => Some (length l)
  | PDict d => Some (length d)
  | PStr s => Some (String.length s)
  | _ => None
  end.

Definition is_dict (v : pyval) : bool :=
  match v with PDict _ => true | _ => false end.

Definition is_str (v : pyval) (s : string) : bool :=
  match v with PStr s' => String.eqb s' s | _ => false end.

(* ------------------------------------------------------------------ *)
(** ** String methods *)

(** [needle in s]. *)
Fixpoint contains (needle s : string) : bool :=
  String.prefix needle s ||
  match s with
  | EmptyString => false
  | String _ s' => contains needle s'
  end.

(** [s.split(sep)[-1]] for a non-empty [sep]: the scan restarts the current
    piece at every match found from left to right. *)
Fixpoint split_last_go (sep : string) (skip : nat) (acc s : string) : string :=
  match s with
  | EmptyString => acc
  | String c s' =>
      match skip with
      | S n => split_last_go sep n acc s'
      | O =>
          if String.prefix sep s
          then split_last_go sep (String.length sep - 1) "" s'
          else split_last_go sep 0 (acc +:+ String c "") s'
      end
  end.

Definition split_last (sep s : string) : string := split_last_go sep 0 "" s.

(** [s.replace(old, "")] for a non-empty [old]. *)
Fixpoint remove_all_go (old : string) (skip : nat) (s : string) : string :=
  match s with
  | EmptyString => ""
  | String c s' =>
      match skip with
      | S n => remove_all_go old n s'
      | O =>
          if String.prefix old s
          then remove_all_go old (String.length old - 1) s'
          else String c (remove_all_go old 0 s')
      end
  end.

Definition remove_all (old s : string) : string := remove_all_go old 0 s.

(** [str.lower()] on code points below 256: A-Z and the Latin-1 capitals
    (0xC0-0xDE but 0xD7) move up by 32. *)
Definition lower_char (c : ascii) : ascii :=
  let n := nat_of_ascii c in
  if (Nat.leb 65 n && Nat.leb n 90)
     || (Nat.leb 192 n && Nat.leb n 222 && negb (Nat.eqb n 215))
  then ascii_of_nat (n + 32) else c.

Fixpoint lower (s : string) : string :=
  match s with
  | EmptyString => ""
  | String c s' => String (lower_char c) (lower s')
  end.

(** [needle in v] for a string needle: substring test on a string, element
    test on a list, key test on a dict, [TypeError] otherwise. *)
Definition py_str_in (needle : string) (v : pyval) : option bool :=
  match v with
  | PStr s => Some (contains needle s)
  | PList l => Some (existsb (fun x => is_str x needle) l)
  | PDict d => Some (existsb (fun kv => String.eqb (fst kv) needle) d)
  | _ => None
  end.

(* ------------------------------------------------------------------ *)
(** ** Hashing and ordering *)

(** The identity of a hashable value as a dict key or set member:
    [True == 1 == 1.0] are one key, a list or a dict is unhashable. *)
Inductive hkey : Type :=
| KNone
| KNum (q : Q)
| KStr (s : string).

Definition py_num (v : pyval) : option Q :=
  match v with
  | PBool b => Some (if b then 1 else 0)%Q
  | PInt n => Some (inject_Z n)
  | PFloat q => Some q
  | _ => None
  end.

Definition py_hash (v : pyval) : option hkey :=
  match v with
  | PNone => Some KNone
  | PStr s => Some (KStr s)
  | PList _ | PDict _ => None
  | _ => KNum ∘ Qred <$> py_num v
  end.

(** [a == b] on JSON values: numbers by value ([True == 1 == 1.0]), lists
    element by element, dicts key by key. *)
Fixpoint py_eq (a b : pyval) {struct a} : bool :=
  match a, b with
  | PNone, PNone => true
  | PStr s, PStr t => String.eqb s t
  | PList l, PList m =>
      (fix all2 (l m : list pyval) : bool :=
         match l, m with
         | [], [] => true
         | x :: l', y :: m' => py_eq x y && all2 l' m'
         | _, _ => false
         end) l m
  | PDict d, PDict e =>
      Nat.eqb (length d) (length e)
      && (fix all_in (d : list (string * pyval)) : bool :=
            match d with
            | [] => true
            | (k, v) :: d' =>
                match dict_get e k with
                | Some w => py_eq v w
                | None => false
                end && all_in d'
            end) d
  | _, _ =>
      match py_num a, py_num b with
      | Some x, Some y => Qeq_bool x y
      | _, _ => false
      end
  end.

(** [a < b]: numbers with numbers, strings with strings (by code point),
    lists with lists (the first pair of elements that are not [==] decides,
    a proper prefix is smaller); any other pair is a [TypeError]. *)
Fixpoint py_lt (a b : pyval) {struct a} : option bool :=
  match a, b with
  | PStr s, PStr t => Some (String.ltb s t)
  | PList l, PList m =>
      (fix lex (l m : list pyval) : option bool :=
         match l, m with
         | [], [] => Some false
         | [], _ :: _ => Some true
         | _ :: _, [] => Some false
         | x :: l', y :: m' => if py_eq x y then lex l' m' else py_lt x y
         end) l m
  | _, _ =>
      match py_num a, py_num b with
      | Some x, Some y => Some (negb (Qle_bool y x))
      | _, _ => None
      end
  end.

(** No two keys of the list raise when they are compared. *)
Fixpoint comparable (keys : list pyval) : bool :=
  match keys with
  | [] => true
  | k :: keys' =>
      forallb (fun k' => match py_lt k k', py_lt k' k with
                         | Some _, Some _ => true
                         | _, _ => false
                         end) keys'
      && comparable keys'
  end.

(** Stable insertion by key, ascending; only [<] is used. *)
Fixpoint insert_by (x : pyval * pyval) (l : list (pyval * pyval))
  : option (list (pyval * pyval)) :=
  match l with
  | [] => Some [x]
  | y :: l' =>
      lt ← py_lt (fst y) (fst x);
      if (lt : bool) then cons y <$> insert_by x l' else Some (x :: y :: l')
  end.

Fixpoint sort_by (l : list (pyval * pyval)) : option (list (pyval * pyval)) :=
  match l with
  | [] => Some []
  | x :: l' => sort_by l' ≫= insert_by x
  end.

(** The stable descending sort of already keyed elements: the reverse of
    the stable ascending sort of the reversed list. *)
Definition stable_desc (keyed : list (pyval * pyval)) : option (list pyval) :=
  (fun l => map snd (rev l)) <$> sort_by (rev keyed).

(** [sorted(xs, key=..., reverse=True)] on already keyed elements.  The
    sort compares keys with [<] only.  When no two keys raise, the result is
    the stable descending sort whatever pairs the sort compares; when two
    keys cannot be compared the sort raises [TypeError], because no other
    key lies between them and a sort has to compare neighbours. *)
Definition sorted_desc (keyed : list (pyval * pyval)) : option (list pyval) :=
  if comparable (map fst keyed) then stable_desc keyed else None.

(** [[f(x) for x in xs]] where [f] may raise. *)
Definition for_each {A B} (f : A → option B) (xs : list A) : option (list B) :=
  mapM f xs.

#[global] Instance Q_eq_dec : EqDecision Q.
Proof. solve_decision. Defined.

#[global] Instance hkey_eq_dec : EqDecision hkey.
Proof. solve_decision. Defined.

(** [s.add(k)] on a set kept in insertion order. *)
Definition set_add (k : hkey) (s : list hkey) : list hkey :=
  if decide (k ∈ s) then s else s ++ [k].

(** [d[k] = v] on a dict kept in insertion order: an existing key keeps its
    place and takes the new value. *)
Fixpoint dict_set {V} (k : hkey) (v : V) (d : list (hkey * V)) : list (hkey * V) :=
  match d with
  | [] => [(k, v)]
  | (k', v') :: d' =>
      if decide (k = k') then (k', v) :: d' else (k', v') :: dict_set k v d'
  end.

(** A loop whose body may raise. *)
Fixpoint fold_opt {A S} (f : S → A → option S) (s : S) (xs : list A) : option S :=
  match xs with
  | [] => Some s
  | x :: xs' => f s x ≫= fun s' => fold_opt f s' xs'
  end.

(** [next((x for x in xs if cond(x)), None)]. *)
Fixpoint py_next (cond : pyval → option bool) (xs : list pyval) : option pyval :=
  match xs with
  | [] => Some PNone
  | x :: xs' => c ← cond x; if (c : bool) then Some x else py_next cond xs'
  end.

(** [[f(x) for x in xs if cond(x)]]. *)
Fixpoint comprehension (cond : pyval → option bool) (f : pyval → option pyval)
    (xs : list pyval) : option (list pyval) :=
  match xs with
  | [] => Some []
  | x :: xs' =>
      c ← cond x;
      if (c : bool)
      then y ← f x; cons y <$> comprehension cond f xs'
      else comprehension cond f xs'
  end.

(** [v.lower()]: only a string has the method. *)
Definition py_lower (v : pyval) : option string :=
  match v with PStr s => Some (lower s) | _ => None end.

(** [xs if xs else None] for a list built by the code. *)
Definition list_or_none (xs : list pyval) : pyval :=
  match xs with [] => PNone | _ => PList xs end.

(* ------------------------------------------------------------------ *)
(** ** The store *)

(** A tuple of column values as handed to [execute_values].  The store
    keeps the values as they are sent: the conversion of a value to the type
    of its column is not modelled, and the statements about what a column
    holds are made for values of the column's type. *)
Definition tuple := list pyval.

(** Each stored row carries the logical time of its last write (the
    [ingested_at] / [updated_at] / [created_at] column set to
    [CURRENT_TIMESTAMP]). *)
Record db : Type := mkdb {
  db_authors : gmap string (tuple * nat);
  db_papers : gmap string (tuple * nat);
  db_paper_authors : gmap (string * string) (tuple * nat);
  db_clock : nat
}.

Definition empty_db : db := mkdb ∅ ∅ ∅ 0.

Inductive table_name := Authors | Papers | PaperAuthors.

(** What lies outside the source files.
    - [py_str]: Python's [str()] on an arbitrary value.
    - [unadaptable]: [execute_values] raises an exception that is not a
      [psycopg2.Error] while it composes the statement, before anything is
      sent ([ValueError] for a string with a NUL character).
    - [rejects]: the statement raises a [psycopg2.Error] (a constraint of
      [schema.sql], a value of a type the column or the driver does not
      take, connectivity).
    - [commit_fails], [rollback_fails]: [conn.commit()], [conn.rollback()]
      raise a [psycopg2.Error] (the connection is lost). *)
Record Env : Type := mkEnv {
  py_str : pyval → string;
  unadaptable : list tuple → bool;
  rejects : table_name → db → list tuple → bool;
  commit_fails : table_name → db → list tuple → bool;
  rollback_fails : table_name → db → list tuple → bool
}.

(** How the [DO UPDATE SET] clause treats a column. *)
Inductive policy := Key | Overwrite | Coalesce.

(** [INSERT INTO authors (...) ... ON CONFLICT (author_id) DO UPDATE SET ...] *)
Definition authors_columns : list (string * policy) :=
  [ ("author_id", Key);
    ("display_name", Coalesce);
    ("orcid", Coalesce);
    ("primary_institution", Coalesce);
    ("primary_country", Coalesce) ].

(** [INSERT INTO papers (...) ... ON CONFLICT (paper_id) DO UPDATE SET ...] *)
Definition papers_columns : list (string * policy) :=
  [ ("paper_id", Key);
    ("doi", Coalesce);
    ("title", Overwrite);
    ("publication_year", Coalesce);
    ("publication_date", Coalesce);
    ("paper_type", Coalesce);
    ("language", Coalesce);
    ("journal_name", Coalesce);
    ("publisher", Coalesce);
    ("journal_issn", Coalesce);
    ("is_core_journal", Coalesce);
    ("is_open_access", Coalesce);
    ("oa_status", Coalesce);
    ("pdf_url", Coalesce);
    ("landing_page_url", Coalesce);
    ("license", Coalesce);
    ("author_count", Overwrite);
    ("first_author_name", Coalesce);
    ("corresponding_author_name", Coalesce);
    ("institution_count", Overwrite);
    ("country_count", Overwrite);
    ("first_institution", Coalesce);
    ("first_country", Coalesce);
    ("cited_by_count", Overwrite);
    ("referenced_works_count", Overwrite);
    ("fwci", Coalesce);
    ("citation_percentile", Coalesce);
    ("primary_topic", Coalesce);
    ("top_concept_1", Coalesce);
    ("top_concept_2", Coalesce);
    ("top_concept_3", Coalesce);
    ("keywords", Coalesce);
    ("is_retracted", Overwrite);
    ("is_paratext", Overwrite);
    ("has_abstract", Overwrite);
    ("ai_relevance_score", Coalesce);
    ("has_ai_field", Coalesce);
    ("created_date", Coalesce);
    ("updated_date", Overwrite) ].

(** [INSERT INTO paper_authors (...) ... ON CONFLICT (paper_id, author_id)
    DO UPDATE SET ...] *)
Definition paper_authors_columns : list (string * policy) :=
  [ ("paper_id", Key);
    ("author_id", Key);
    ("author_position", Overwrite);
    ("author_sequence", Overwrite);
    ("is_corresponding", Overwrite);
    ("institution_names", Coalesce);
    ("institution_ids", Coalesce);
    ("countries", Coalesce);
    ("raw_affiliation_strings", Coalesce) ].

(** One assignment of the [SET] clause: [EXCLUDED.c],
    [COALESCE(EXCLUDED.c, t.c)], or the conflict key left as it is. *)
Definition sql_set (p : policy) (excluded stored : pyval) : pyval :=
  match p with
  | Key => stored
  | Overwrite => excluded
  | Coalesce => match excluded with PNone => stored | _ => excluded end
  end.

(** The [SET] clause on a conflicting row, column by column in the order of
    the [INSERT] list (a column the stored row lacks reads as NULL). *)
Fixpoint on_conflict_update (pol : list policy) (excluded stored : tuple) : tuple :=
  match pol, excluded with
  | p :: pol', e :: ex =>
      sql_set p e (hd PNone stored) :: on_conflict_update pol' ex (tl stored)
  | _, _ => []
  end.

(** The value of a named column in a tuple. *)
Fixpoint column (cols : list (string * policy)) (c : string) (t : tuple) : pyval :=
  match cols, t with
  | (c', _) :: cols', v :: t' => if String.eqb c' c then v else column cols' c t'
  | _, _ => PNone
  end.

(** A text key column holds a string. *)
Definition sql_text (v : pyval) : option string :=
  match v with PStr s => Some s | _ => None end.

Definition key1 (t : tuple) : option string :=
  match t with v :: _ => sql_text v | _ => None end.

Definition key2 (t : tuple) : option (string * string) :=
  match t with
  | v :: w :: _ => a ← sql_text v; b ← sql_text w; Some (a, b)
  | _ => None
  end.

Section Table.
Context `{Countable K}.
Variable pol : list policy.

(** One row of the statement: inserted when the key is new
    ([xmax = 0]), merged into the stored row otherwise. *)
Definition upsert_one (now : nat) (t : gmap K (tuple * nat)) (k : K) (v : tuple)
  : gmap K (tuple * nat) * bool :=
  match t !! k with
  | None => (<[k := (v, now)]> t, true)
  | Some (old, _) => (<[k := (on_conflict_update pol v old, now)]> t, false)
  end.

Fixpoint upsert_rows (now : nat) (t : gmap K (tuple * nat)) (rows : list (K * tuple))
  : gmap K (tuple * nat) * list bool :=
  match rows with
  | [] => (t, [])
  | (k, v) :: rest =>
      let '(t1, inserted) := upsert_one now t k v in
      let '(t2, flags) := upsert_rows now t1 rest in
      (t2, inserted :: flags)
  end.

Definition with_keys (key_of : tuple → option K) (values : list tuple)
  : option (list (K * tuple)) :=
  mapM (fun v => k ← key_of v; Some (k, v)) values.
End Table.

(** [execute_values(..., page_size=100)] sends one statement per 100 rows;
    the [cursor.fetchall()] that follows sees the rows returned by the last
    statement only. *)
Definition page_size : nat := 100.

Definition last_page {A} (l : list A) : list A :=
  drop (page_size * ((length l - 1) / page_size)) l.

Definition policies (cols : list (string * policy)) : list policy := map snd cols.

(** The statement against each table.  [None] is a [PostgresError]: a key
    that is not text, or a batch the store rejects.  (The ids of OpenAlex
    records are strings; what the store makes of another key is not
    modelled, and the statements about stored keys are for string ids.) *)
Definition execute_authors (E : Env) (d : db) (values : list tuple)
  : option (gmap string (tuple * nat) * list bool) :=
  rows ← with_keys key1 values;
  if rejects E Authors d values then None
  else
    let '(t, flags) := upsert_rows (policies authors_columns) (db_clock d) (db_authors d) rows in
    Some (t, last_page flags).

Definition execute_papers (E : Env) (d : db) (values : list tuple)
  : option (gmap string (tuple * nat) * list bool) :=
  rows ← with_keys key1 values;
  if rejects E Papers d values then None
  else
    let '(t, flags) := upsert_rows (policies papers_columns) (db_clock d) (db_papers d) rows in
    Some (t, last_page flags).

Definition execute_paper_authors (E : Env) (d : db) (values : list tuple)
  : option (gmap (string * string) (tuple * nat) * list bool) :=
  rows ← with_keys key2 values;
  if rejects E PaperAuthors d values then None
  else
    let '(t, flags) :=
      upsert_rows (policies paper_authors_columns) (db_clock d) (db_paper_authors d) rows in
    Some (t, last_page flags).

(** [conn.commit()] and [conn.rollback()]: time passes either way. *)
Definition tick (d : db) : db :=
  mkdb (db_authors d) (db_papers d) (db_paper_authors d) (S (db_clock d)).

(* ------------------------------------------------------------------ *)
(** ** Record normaliser *)

(** A normalised row: the dict the transform builds. *)
Definition pyrow := list (string * pyval).

(** [row[k]]; [None] is a [KeyError]. *)
Definition row_get (r : pyrow) (k : string) : option pyval := dict_get r k.

(** [extract_id_from_url]: a falsy url gives [None]; a url containing a slash
    is split (only a string can be), any other is returned as it is. *)
Definition extract_id_from_url (url : pyval) : option pyval :=
  if truthy url then
    has_slash ← py_str_in "/" url;
    if (has_slash : bool) then
      match url with
      | PStr s => Some (PStr (split_last "/" s))
      | _ => None
      end
    else Some url
  else Some PNone.

(** [safe_get(data, *keys)] with the default [None]. *)
Fixpoint safe_get (data : pyval) (keys : list string) : pyval :=
  match keys with
  | [] => data
  | k :: ks =>
      match data with
      | PDict d =>
          match default PNone (dict_get d k) with
          | PNone => PNone
          | v => safe_get v ks
          end
      | _ => PNone
      end
  end.

(** The state of the loop that counts institutions and countries. *)
Record affil : Type := mkaffil {
  all_institutions : list hkey;
  all_countries : list hkey;
  first_institution : pyval;
  first_country : pyval
}.

Definition scan_institution (st : affil) (inst : pyval) : option affil :=
  inst_name ← py_get inst "display_name";
  if truthy inst_name then
    k ← py_hash inst_name;
    Some (mkaffil (set_add k (all_institutions st)) (all_countries st)
            (if truthy (first_institution st) then first_institution st else inst_name)
            (first_country st))
  else Some st.

Definition scan_country (st : affil) (country : pyval) : option affil :=
  if truthy country then
    k ← py_hash country;
    Some (mkaffil (all_institutions st) (set_add k (all_countries st))
            (first_institution st)
            (if truthy (first_country st) then first_country st else country))
  else Some st.

Definition scan_authorship (st : affil) (authorship : pyval) : option affil :=
  i ← py_get authorship "institutions";
  c ← py_get authorship "countries";
  institutions ← py_iter (py_or i (PList []));
  countries ← py_iter (py_or c (PList []));
  st1 ← fold_opt scan_institution st institutions;
  fold_opt scan_country st1 countries.

Definition ai_keywords : list string :=
  [ "artificial intelligence"; "machine learning"; "deep learning";
    "neural network"; "ai"; "ml"; "dl" ].

Definition keyword_lower (E : Env) (k : pyval) : option string :=
  if is_dict k then py_get_or k "display_name" (PStr "") ≫= py_lower
  else Some (lower (py_str E k)).

Definition keyword_name (E : Env) (k : pyval) : option pyval :=
  if is_dict k then py_get k "display_name" else Some (PStr (py_str E k)).

(** [xs[i].get("display_name") if len(xs) > i else None]. *)
Definition nth_display_name (xs : list pyval) (i : nat) : option pyval :=
  match xs !! i with
  | Some x => py_get x "display_name"
  | None => Some PNone
  end.

Definition name_of (found : pyval) : pyval :=
  if truthy found then safe_get found ["author"; "display_name"] else PNone.

(** The body of [transform_paper_data] inside its [try]: the outer [None] is
    an exception, the inner one is [return None]. *)
Definition transform_paper_body (E : Env) (paper : pyval) : option (option pyrow) :=
  id_url ← py_get paper "id";
  paper_id ← extract_id_from_url id_url;
  if negb (truthy paper_id) then Some None else
  (* DOI, resolver prefix removed *)
  doi0 ← py_get_or paper "doi" (PStr "");
  doi ← (if truthy doi0 then
           match doi0 with
           | PStr s =>
               Some (if String.prefix "https://doi.org/" s
                     then PStr (remove_all "https://doi.org/" s) else doi0)
           | _ => None
           end
         else Some doi0);
  (* primary location, open access *)
  pl ← py_get paper "primary_location";
  let primary_loc := py_or pl (PDict []) in
  src ← py_get primary_loc "source";
  let source := py_or src (PDict []) in
  oa ← py_get paper "open_access";
  let oa_data := py_or oa (PDict []) in
  (* topics, concepts, keywords *)
  tp ← py_get paper "topics";
  let topics := py_or tp (PList []) in
  cs ← py_get paper "concepts";
  concepts ← py_iter (py_or cs (PList []));
  kw ← py_get paper "keywords";
  let keywords_v := py_or kw (PList []) in
  keywords ← py_iter keywords_v;
  keyed ← for_each (fun x => s ← py_get_or x "score" (PInt 0); Some (s, x)) concepts;
  sorted ← sorted_desc keyed;
  let top_concepts := take 3 sorted in
  (* authorships *)
  au ← py_get paper "authorships";
  let authorships_v := py_or au (PList []) in
  authorships ← py_iter authorships_v;
  first_author ←
    py_next (fun a => p ← py_get a "author_position"; Some (is_str p "first")) authorships;
  let first_author_name := name_of first_author in
  corresponding_author ←
    py_next (fun a => truthy <$> py_get a "is_corresponding") authorships;
  let corresponding_author_name := name_of corresponding_author in
  agg ← fold_opt scan_authorship (mkaffil [] [] PNone PNone) authorships;
  (* abstract, relevance *)
  abstract ← py_get paper "abstract_inverted_index";
  let has_abstract := truthy abstract in
  title ← py_get paper "title";
  title_lower ← py_lower (py_or title (PStr ""));
  concepts_lower ←
    for_each (fun c => py_get_or c "display_name" (PStr "") ≫= py_lower) concepts;
  keywords_lower ← for_each (keyword_lower E) keywords;
  let has_ai_field :=
    existsb (fun ai_kw =>
               contains ai_kw title_lower
               || existsb (contains ai_kw) concepts_lower
               || existsb (contains ai_kw) keywords_lower) ai_keywords in
  let ai_relevance_score := if has_ai_field then PFloat (1 # 2) else PFloat 0 in
  (* the row *)
  display_name ← py_get paper "display_name";
  publication_year ← py_get paper "publication_year";
  publication_date ← py_get paper "publication_date";
  paper_type ← py_get paper "type";
  language ← py_get paper "language";
  journal_name ← py_get source "display_name";
  publisher ← py_get source "host_organization_name";
  journal_issn ← py_get source "issn_l";
  is_core_journal ← py_get source "is_core";
  is_open_access ← py_get oa_data "is_oa";
  oa_status ← py_get oa_data "oa_status";
  pdf_url ← py_get primary_loc "pdf_url";
  oa_url ← py_get oa_data "oa_url";
  landing_page_url ← py_get primary_loc "landing_page_url";
  license ← py_get primary_loc "license";
  author_count ← py_len authorships_v;
  cited_by_count ← py_get_or paper "cited_by_count" (PInt 0);
  referenced_works_count ← py_get_or paper "referenced_works_count" (PInt 0);
  primary_topic ←
    (if truthy topics then py_first topics ≫= fun t => py_get t "display_name"
     else Some PNone);
  top_concept_1 ← nth_display_name top_concepts 0;
  top_concept_2 ← nth_display_name top_concepts 1;
  top_concept_3 ← nth_display_name top_concepts 2;
  keyword_names ←
    (if truthy keywords_v then PList <$> for_each (keyword_name E) keywords
     else Some PNone);
  is_retracted ← py_get_or paper "is_retracted" (PBool false);
  is_paratext ← py_get_or paper "is_paratext" (PBool false);
  created_date ← py_get paper "created_date";
  updated_date ← py_get paper "updated_date";
  Some (Some
    [ ("paper_id", paper_id);
      ("doi", py_or doi PNone);
      ("title", py_or title display_name);
      ("publication_year", publication_year);
      ("publication_date", publication_date);
      ("paper_type", paper_type);
      ("language", language);
      ("journal_name", journal_name);
      ("publisher", publisher);
      ("journal_issn", journal_issn);
      ("is_core_journal", is_core_journal);
      ("is_open_access", is_open_access);
      ("oa_status", oa_status);
      ("pdf_url", py_or pdf_url oa_url);
      ("landing_page_url", landing_page_url);
      ("license", license);
      ("author_count", PInt (Z.of_nat author_count));
      ("first_author_name", first_author_name);
      ("corresponding_author_name", corresponding_author_name);
      ("institution_count", PInt (Z.of_nat (length (all_institutions agg))));
      ("country_count", PInt (Z.of_nat (length (all_countries agg))));
      ("first_institution", first_institution agg);
      ("first_country", first_country agg);
      ("cited_by_count", cited_by_count);
      ("referenced_works_count", referenced_works_count);
      ("fwci", PNone);
      ("citation_percentile", PNone);
      ("primary_topic", primary_topic);
      ("top_concept_1", top_concept_1);
      ("top_concept_2", top_concept_2);
      ("top_concept_3", top_concept_3);
      ("keywords", keyword_names);
      ("is_retracted", is_retracted);
      ("is_paratext", is_paratext);
      ("has_abstract", PBool has_abstract);
      ("ai_relevance_score", ai_relevance_score);
      ("has_ai_field", PBool has_ai_field);
      ("created_date", created_date);
      ("updated_date", updated_date) ]).

(** [transform_paper_data]: [except Exception] turns any exception into
    [None]. *)
Definition transform_paper_data (E : Env) (paper : pyval) : option pyrow :=
  match transform_paper_body E paper with
  | Some r => r
  | None => None
  end.

(** The body of [transform_author_data]. *)
Definition transform_author_body (authorship : pyval) : option (option pyrow) :=
  a ← py_get authorship "author";
  let author := py_or a (PDict []) in
  id_url ← py_get author "id";
  author_id ← extract_id_from_url id_url;
  if negb (truthy author_id) then Some None else
  orcid0 ← py_get_or author "orcid" (PStr "");
  orcid ← (if truthy orcid0 then
             found ← py_str_in "orcid.org/" orcid0;
             if (found : bool) then
               match orcid0 with
               | PStr s => Some (PStr (split_last "orcid.org/" s))
               | _ => None
               end
             else Some orcid0
           else Some orcid0);
  i ← py_get authorship "institutions";
  let institutions := py_or i (PList []) in
  c ← py_get authorship "countries";
  let countries := py_or c (PList []) in
  primary_institution ←
    (if truthy institutions
     then py_first institutions ≫= fun inst => py_get inst "display_name"
     else Some PNone);
  primary_country ←
    (if truthy countries then py_first countries else Some PNone);
  display_name ← py_get_or author "display_name" (PStr "Unknown Author");
  Some (Some
    [ ("author_id", author_id);
      ("display_name", display_name);
      ("orcid", py_or orcid PNone);
      ("primary_institution", primary_institution);
      ("primary_country", primary_country) ]).

Definition transform_author_data (authorship : pyval) : option pyrow :=
  match transform_author_body authorship with
  | Some r => r
  | None => None
  end.

(** The body of [transform_paper_author_data]. *)
Definition transform_paper_author_body (paper_id : pyval) (authorship : pyval)
    (sequence : nat) : option (option pyrow) :=
  a ← py_get authorship "author";
  let author := py_or a (PDict []) in
  id_url ← py_get author "id";
  author_id ← extract_id_from_url id_url;
  if negb (truthy author_id) then Some None else
  i ← py_get authorship "institutions";
  institutions ← py_iter (py_or i (PList []));
  institution_names ←
    comprehension (fun inst => truthy <$> py_get inst "display_name")
                  (fun inst => py_get inst "display_name") institutions;
  institution_ids ←
    comprehension (fun inst => truthy <$> py_get inst "id")
                  (fun inst => py_get inst "id" ≫= extract_id_from_url) institutions;
  c ← py_get authorship "countries";
  let countries := py_or c (PList []) in
  r ← py_get authorship "raw_affiliation_strings";
  let raw_affiliations := py_or r (PList []) in
  author_position ← py_get authorship "author_position";
  is_corresponding ← py_get_or authorship "is_corresponding" (PBool false);
  Some (Some
    [ ("paper_id", paper_id);
      ("author_id", author_id);
      ("author_position", author_position);
      ("author_sequence", PInt (Z.of_nat sequence));
      ("is_corresponding", is_corresponding);
      ("institution_names", list_or_none institution_names);
      ("institution_ids", list_or_none institution_ids);
      ("countries", py_or countries PNone);
      ("raw_affiliation_strings", py_or raw_affiliations PNone) ]).

Definition transform_paper_author_data (paper_id : pyval) (authorship : pyval)
    (sequence : nat) : option pyrow :=
  match transform_paper_author_body paper_id authorship sequence with
  | Some r => r
  | None => None
  end.

(* ------------------------------------------------------------------ *)
(** ** De-duplication *)

(** [{a["author_id"]: a for a in authors_data}]: a missing key or an
    unhashable id raises. *)
Definition author_key (a : pyrow) : option hkey :=
  row_get a "author_id" ≫= py_hash.

Definition unique_authors (authors_data : list pyrow) : option (list (hkey * pyrow)) :=
  fold_opt (fun d a => k ← author_key a; Some (dict_set k a d)) [] authors_data.

(** [list(unique_authors.values())]. *)
Definition dedup_authors (authors_data : list pyrow) : option (list pyrow) :=
  map snd <$> unique_authors authors_data.

(** The key [(pa["paper_id"], pa["author_id"])] as a set member. *)
Definition paper_author_key (pa : pyrow) : option (hkey * hkey) :=
  p ← row_get pa "paper_id";
  a ← row_get pa "author_id";
  kp ← py_hash p;
  ka ← py_hash a;
  Some (kp, ka).

(** The first-seen pass of [upsert_paper_authors]: the state is
    [(seen, unique_data, duplicates_removed)]. *)
Definition dedup_step (st : list (hkey * hkey) * list pyrow * nat) (pa : pyrow)
  : option (list (hkey * hkey) * list pyrow * nat) :=
  let '(seen, unique_data, duplicates_removed) := st in
  key ← paper_author_key pa;
  if decide (key ∈ seen)
  then Some (seen, unique_data, S duplicates_removed)
  else Some ((seen ++ [key])%list, (unique_data ++ [pa])%list, duplicates_removed).

Definition dedup_paper_authors (paper_authors_data : list pyrow)
  : option (list pyrow * nat) :=
  '(_, unique_data, duplicates_removed) ← fold_opt dedup_step ([], [], 0) paper_authors_data;
  Some (unique_data, duplicates_removed).

(* ------------------------------------------------------------------ *)
(** ** Upsert engine *)

Record ImportStats : Type := mkstats {
  papers_inserted : nat;
  papers_updated : nat;
  papers_failed : nat;
  authors_inserted : nat;
  authors_updated : nat;
  authors_failed : nat;
  paper_authors_inserted : nat;
  paper_authors_updated : nat;
  paper_authors_failed : nat;
  total_papers_processed : nat
}.

Definition new_stats : ImportStats := mkstats 0 0 0 0 0 0 0 0 0 0.

Definition count_inserted (flags : list bool) : nat := length (filter (fun b => b = true) flags).
Definition count_updated (flags : list bool) : nat := length (filter (fun b => b = false) flags).

Definition add_papers (s : ImportStats) (ins upd failed : nat) : ImportStats :=
  mkstats (papers_inserted s + ins) (papers_updated s + upd) (papers_failed s + failed)
    (authors_inserted s) (authors_updated s) (authors_failed s)
    (paper_authors_inserted s) (paper_authors_updated s) (paper_authors_failed s)
    (total_papers_processed s).

Definition add_authors (s : ImportStats) (ins upd failed : nat) : ImportStats :=
  mkstats (papers_inserted s) (papers_updated s) (papers_failed s)
    (authors_inserted s + ins) (authors_updated s + upd) (authors_failed s + failed)
    (paper_authors_inserted s) (paper_authors_updated s) (paper_authors_failed s)
    (total_papers_processed s).

Definition add_paper_authors (s : ImportStats) (ins upd failed : nat) : ImportStats :=
  mkstats (papers_inserted s) (papers_updated s) (papers_failed s)
    (authors_inserted s) (authors_updated s) (authors_failed s)
    (paper_authors_inserted s + ins) (paper_authors_updated s + upd)
    (paper_authors_failed s + failed)
    (total_papers_processed s).

Definition add_processed (s : ImportStats) : ImportStats :=
  mkstats (papers_inserted s) (papers_updated s) (papers_failed s)
    (authors_inserted s) (authors_updated s) (authors_failed s)
    (paper_authors_inserted s) (paper_authors_updated s) (paper_authors_failed s)
    (total_papers_processed s + 1).

Inductive exn := PostgresError | PyException.

Inductive result (A : Type) : Type :=
| Ok (a : A)
| Raise (e : exn).
Arguments Ok {A} a.
Arguments Raise {A} e.

(** [(r[c1], r[c2], ...)] in column order; a missing key is a [KeyError]. *)
Definition values_of (cols : list (string * policy)) (r : pyrow) : option tuple :=
  mapM (fun c => row_get r (fst c)) cols.

Definition set_authors (d : db) (t : gmap string (tuple * nat)) : db :=
  mkdb t (db_papers d) (db_paper_authors d) (db_clock d).

Definition set_papers (d : db) (t : gmap string (tuple * nat)) : db :=
  mkdb (db_authors d) t (db_paper_authors d) (db_clock d).

Definition set_paper_authors (d : db) (t : gmap (string * string) (tuple * nat)) : db :=
  mkdb (db_authors d) (db_papers d) t (db_clock d).

(** The [try] block that the three writers share, once the tuples are
    built.  [execute_values] composes the statement (an exception that is not
    a [PostgresError] leaves the block: no rollback, no counter; the model
    takes it to be raised before the first page is sent) and sends it;
    [fetchall] and the loop over its rows raise the inserted and updated
    counters; then [commit].  A [PostgresError] of the statement or of the
    commit is caught: [rollback] (which raises in turn when the connection is
    lost), [failed += n], and the exception is raised again.  [execute] is
    the statement against the table, [None] when it raises. *)
Definition in_transaction {T} (E : Env) (name : table_name) (d : db) (s : ImportStats)
    (values : list tuple) (n : nat) (execute : option (T * list bool))
    (set : db → T → db) (add : ImportStats → nat → nat → nat → ImportStats)
  : result unit * db * ImportStats :=
  if unadaptable E values then (Raise PyException, d, s)
  else
    let except (s0 : ImportStats) :=
      if rollback_fails E name d values then (Raise PostgresError, tick d, s0)
      else (Raise PostgresError, tick d, add s0 0 0 n) in
    match execute with
    | None => except s
    | Some (t, results) =>
        let s1 := add s (count_inserted results) (count_updated results) 0 in
        if commit_fails E name d values then except s1
        else (Ok (), tick (set d t), s1)
    end.

(** [upsert_authors]: last-wins de-duplication, then one transaction. *)
Definition upsert_authors (E : Env) (authors_data : list pyrow) (d : db) (s : ImportStats)
  : result unit * db * ImportStats :=
  match authors_data with
  | [] => (Ok (), d, s)
  | _ =>
      match dedup_authors authors_data ≫= mapM (values_of authors_columns) with
      | None => (Raise PyException, d, s)
      | Some values =>
          in_transaction E Authors d s values (length values)
            (execute_authors E d values) set_authors add_authors
      end
  end.

(** [upsert_papers]: one transaction, no de-duplication. *)
Definition upsert_papers (E : Env) (papers_data : list pyrow) (d : db) (s : ImportStats)
  : result unit * db * ImportStats :=
  match papers_data with
  | [] => (Ok (), d, s)
  | _ =>
      match mapM (values_of papers_columns) papers_data with
      | None => (Raise PyException, d, s)
      | Some values =>
          in_transaction E Papers d s values (length papers_data)
            (execute_papers E d values) set_papers add_papers
      end
  end.

(** [upsert_paper_authors]: first-wins de-duplication, then one transaction. *)
Definition upsert_paper_authors (E : Env) (paper_authors_data : list pyrow) (d : db)
    (s : ImportStats) : result unit * db * ImportStats :=
  match paper_authors_data with
  | [] => (Ok (), d, s)
  | _ =>
      match dedup_paper_authors paper_authors_data with
      | None => (Raise PyException, d, s)
      | Some ([], _) => (Ok (), d, s)
      | Some (unique_data, _) =>
          match mapM (values_of paper_authors_columns) unique_data with
          | None => (Raise PyException, d, s)
          | Some values =>
              in_transaction E PaperAuthors d s values (length unique_data)
                (execute_paper_authors E d values) set_paper_authors add_paper_authors
          end
      end
  end.

(* ------------------------------------------------------------------ *)
(** ** The per-paper handler and the load loop *)

(** How [process_paper] ended.  The function returns [success o]; the kind
    of failure is kept so that statements can tell a failed write from a
    record that never reached the store. *)
Inductive outcome :=
| Processed
| NotNormalized
| Crashed (e : exn).

Definition success (o : outcome) : bool :=
  match o with Processed => true | _ => false end.

#[global] Instance exn_eq_dec : EqDecision exn.
Proof. solve_decision. Defined.

#[global] Instance outcome_eq_dec : EqDecision outcome.
Proof. solve_decision. Defined.

(** [title[:50]] needs a sequence. *)
Definition sliceable (v : pyval) : bool :=
  match v with PStr _ | PList _ => true | _ => false end.

(** The loop over [enumerate(authorships, start=idx)]. *)
Fixpoint transform_authorships (paper_id : pyval) (idx : nat) (authorships : list pyval)
  : list pyrow * list pyrow :=
  match authorships with
  | [] => ([], [])
  | authorship :: rest =>
      let '(authors_data, paper_authors_data) :=
        transform_authorships paper_id (S idx) rest in
      (match transform_author_data authorship with
       | Some author_data => author_data :: authors_data
       | None => authors_data
       end,
       match transform_paper_author_data paper_id authorship idx with
       | Some paper_author_data => paper_author_data :: paper_authors_data
       | None => paper_authors_data
       end)
  end.

(** What [process_paper] computes between the normalisation and the first
    write: the id, the debug line that slices the title, the two lists. *)
Definition prepare (paper : pyval) (paper_data : pyrow)
  : option (list pyrow * list pyrow) :=
  paper_id ← row_get paper_data "paper_id";
  title ← row_get paper_data "title";
  if sliceable title then
    au ← py_get paper "authorships";
    authorships ← py_iter (py_or au (PList []));
    Some (transform_authorships paper_id 1 authorships)
  else None.

(** [except Exception]: count the paper as failed, return [False]. *)
Definition failed (o : outcome) (d : db) (s : ImportStats) : outcome * db * ImportStats :=
  (o, d, add_papers s 0 0 1).

Definition process_paper (E : Env) (paper : pyval) (d : db) (s : ImportStats)
  : outcome * db * ImportStats :=
  match transform_paper_data E paper with
  | None => failed NotNormalized d s
  | Some paper_data =>
      match prepare paper paper_data with
      | None => failed (Crashed PyException) d s
      | Some (authors_data, paper_authors_data) =>
          (* 1. authors *)
          let '(r1, d1, s1) :=
            match authors_data with
            | [] => (Ok (), d, s)
            | _ => upsert_authors E authors_data d s
            end in
          match r1 with
          | Raise e => failed (Crashed e) d1 s1
          | Ok _ =>
              (* 2. the paper *)
              let '(r2, d2, s2) := upsert_papers E [paper_data] d1 s1 in
              match r2 with
              | Raise e => failed (Crashed e) d2 s2
              | Ok _ =>
                  (* 3. the authorships *)
                  let '(r3, d3, s3) :=
                    match paper_authors_data with
                    | [] => (Ok (), d2, s2)
                    | _ => upsert_paper_authors E paper_authors_data d2 s2
                    end in
                  match r3 with
                  | Raise e => failed (Crashed e) d3 s3
                  | Ok _ => (Processed, d3, add_processed s3)
                  end
              end
          end
      end
  end.

(** The load as a function of the records: [process_paper] on each of them,
    whatever happened to the one before.  The loop of [main] is [main_loop]
    below; it does the same as long as its warning about a failed record
    does not raise. *)
Fixpoint load (E : Env) (papers : list pyval) (d : db) (s : ImportStats)
  : list outcome * db * ImportStats :=
  match papers with
  | [] => ([], d, s)
  | paper :: rest =>
      let '(o, d1, s1) := process_paper E paper d s in
      let '(os, d2, s2) := load E rest d1 s1 in
      (o :: os, d2, s2)
  end.

(** The warning of [main] about a failed record:
    [extract_id_from_url(paper.get("id", "unknown"))], outside any [try] of
    the loop. *)
Definition warn_failed (paper : pyval) : option unit :=
  id ← py_get_or paper "id" (PStr "unknown");
  _ ← extract_id_from_url id;
  Some ().

(** The loop of [main]: [process_paper] on each record and, when it
    returns [False], the warning, whose exception leaves the loop. *)
Fixpoint main_loop (E : Env) (papers : list pyval) (d : db) (s : ImportStats)
  : result unit * list outcome * db * ImportStats :=
  match papers with
  | [] => (Ok (), [], d, s)
  | paper :: rest =>
      let '(o, d1, s1) := process_paper E paper d s in
      match (if success o then Some () else warn_failed paper) with
      | Some _ =>
          let '(r, os, d2, s2) := main_loop E rest d1 s1 in
          (r, o :: os, d2, s2)
      | None => (Raise PyException, [o], d1, s1)
      end
  end.

(** No write was refused during a run. *)
Definition no_write_error (os : list outcome) : Prop :=
  Crashed PostgresError ∉ os.

#[global] Instance no_write_error_dec os : Decision (no_write_error os).
Proof. unfold no_write_error. apply _. Defined.

(** The rows of a table without their time stamps. *)
Definition rows `{Countable K} (t : gmap K (tuple * nat)) : gmap K tuple := fst <$> t.

(* ------------------------------------------------------------------ *)
(** ** Vocabulary of the statements *)

(** The last and the first element of a batch with a given key. *)
Definition last_with {A K} `{EqDecision K} (key : A → option K) (k : K) (l : list A)
  : option A :=
  last (filter (fun a => key a = Some k) l).

Definition first_with {A K} `{EqDecision K} (key : A → option K) (k : K) (l : list A)
  : option A :=
  head (filter (fun a => key a = Some k) l).

(** The policy the [SET] clause gives a column. *)
Fixpoint policy_of (cols : list (string * policy)) (c : string) : option policy :=
  match cols with
  | [] => None
  | (c', p) :: cols' => if String.eqb c' c then Some p else policy_of cols' c
  end.

(** The id of a normalised row as the store keys it. *)
Definition stored_id (id_column : string) (r : pyrow) : option string :=
  row_get r id_column ≫= sql_text.

Definition stored_pair (r : pyrow) : option (string * string) :=
  p ← stored_id "paper_id" r; a ← stored_id "author_id" r; Some (p, a).

(** The descriptive columns: name, institution, country, topic, concepts,
    keywords, license, DOI. *)
Definition descriptive_author_columns : list string :=
  [ "display_name"; "primary_institution"; "primary_country" ].

Definition descriptive_paper_columns : list string :=
  [ "doi"; "license"; "primary_topic"; "top_concept_1"; "top_concept_2";
    "top_concept_3"; "keywords"; "first_institution"; "first_country";
    "first_author_name"; "corresponding_author_name"; "journal_name" ].

Definition descriptive_link_columns : list string :=
  [ "institution_names"; "institution_ids"; "countries" ].

(** The counts of a paper, and its boolean columns: the three flags that
    the [SET] clause overwrites and the three that it coalesces. *)
Definition paper_count_columns : list string :=
  [ "cited_by_count"; "referenced_works_count"; "author_count";
    "institution_count"; "country_count" ].

Definition overwritten_flag_columns : list string :=
  [ "is_retracted"; "is_paratext"; "has_abstract" ].

Definition coalesced_flag_columns : list string :=
  [ "is_core_journal"; "is_open_access"; "has_ai_field" ].

(** The counts and the overwritten flags. *)
Definition monotonic_paper_columns : list string :=
  [ "cited_by_count"; "referenced_works_count"; "author_count";
    "institution_count"; "country_count";
    "is_retracted"; "is_paratext"; "has_abstract" ].

(** Modelled from the spec ([schema.sql] is not among the sources): the
    counts are integers and the flags booleans.  A value of the column's
    type, or null, is held by the column as it is sent; a value of another
    type is converted or refused by the store, which the model of the store
    leaves out. *)
Definition holds_as_sent (c : string) (v : pyval) : Prop :=
  match v with
  | PNone => True
  | PInt _ => c ∈ paper_count_columns
  | PBool _ => c ∈ overwritten_flag_columns ∨ c ∈ coalesced_flag_columns
  | _ => False
  end.

(** The effect of a batch on the rows of a table, time stamps aside. *)
Definition merge_rows `{Countable K} (pol : list policy) (m : gmap K tuple)
    (batch : list (K * tuple)) : gmap K tuple :=
  foldl (fun m kv =>
           <[fst kv := match m !! fst kv with
                       | None => snd kv
                       | Some old => on_conflict_update pol (snd kv) old
                       end]> m) m batch.

(** A column is either given a value or left as it is. *)
Definition assignment (p : policy) (e : pyval) : option pyval :=
  match p with
  | Key => None
  | Overwrite => Some e
  | Coalesce => match e with PNone => None | _ => Some e end
  end.

Fixpoint assignments (pol : list policy) (excluded : tuple) : list (option pyval) :=
  match pol, excluded with
  | p :: pol', e :: ex => assignment p e :: assignments pol' ex
  | _, _ => []
  end.

Fixpoint assign (asg : list (option pyval)) (stored : tuple) : tuple :=
  match asg with
  | [] => []
  | o :: asg' => default (hd PNone stored) o :: assign asg' (tl stored)
  end.

(** [then_ a2 a1]: first [a1], then [a2]. *)
Fixpoint then_ (a2 a1 : list (option pyval)) : list (option pyval) :=
  match a2 with
  | [] => []
  | o :: a2' => from_option Some (hd None a1) o :: then_ a2' (tl a1)
  end.

(** What a batch does to the row stored under [k], one batch row at a time. *)
Definition step `{EqDecision K} (pol : list policy) (k : K) (o : option tuple)
    (kv : K * tuple) : option tuple :=
  if decide (fst kv = k)
  then Some match o with
            | None => snd kv
            | Some old => on_conflict_update pol (snd kv) old
            end
  else o.

Definition step_row `{EqDecision K} (pol : list policy) (k : K) (x : tuple)
    (kv : K * tuple) : tuple :=
  if decide (fst kv = k) then on_conflict_update pol (snd kv) x else x.

(** A normalised row and the keyed tuple the store receives for it. *)
Definition feeds {K} (cols : list (string * policy)) (idkey : pyrow → option K)
    (r : pyrow) (kv : K * tuple) : Prop :=
  values_of cols r = Some (snd kv) ∧ idkey r = Some (fst kv).

(** [d.get(k)] on a dict kept as a list. *)
Fixpoint alist_find {V} (k : hkey) (d : list (hkey * V)) : option V :=
  match d with
  | [] => None
  | (k', v) :: d' => if decide (k = k') then Some v else alist_find k d'
  end.

(** Every value of the dict sits under its own key. *)
Definition keyed_by {V} (key : V → option hkey) (d : list (hkey * V)) : Prop :=
  Forall (fun kv => key (snd kv) = Some (fst kv)) d.

(** The authorship sub-records present on a raw record. *)
Definition authorship_records (d : pydict) : list pyval :=
  match dict_get d "authorships" with
  | Some (PList l) => l
  | _ => []
  end.

(** The identifier the normaliser extracts from a record ([None] when the
    extraction raises). *)
Definition extracted_id (paper : pyval) : option pyval :=
  py_get paper "id" ≫= extract_id_from_url.





(** The three counters of inserted rows. *)
Definition inserted (s : ImportStats) : nat * nat * nat :=
  (authors_inserted s, papers_inserted s, paper_authors_inserted s).

(** Every key of a batch is stored already. *)
Definition all_stored `{Countable K} (t : gmap K (tuple * nat)) (batch : list (K * tuple))
  : Prop :=
  Forall (fun kv => is_Some (t !! fst kv)) batch.

(** Every tuple of a batch has the arity of the table. *)
Definition well_sized {K} (cols : list (string * policy)) (batch : list (K * tuple))
  : Prop :=
  Forall (fun kv => length (snd kv) = length (policies cols)) batch.

(** A run that did to the three tables what three lists of keyed tuples
    say, and inserted nothing when all their keys were stored before. *)
Definition follows_plan (ba bp : list (string * tuple))
    (bpa : list (string * string * tuple)) (d d' : db) (s s' : ImportStats) : Prop :=
  rows (db_authors d') = merge_rows (policies authors_columns) (rows (db_authors d)) ba
  ∧ rows (db_papers d') = merge_rows (policies papers_columns) (rows (db_papers d)) bp
  ∧ rows (db_paper_authors d')
    = merge_rows (policies paper_authors_columns) (rows (db_paper_authors d)) bpa
  ∧ (all_stored (db_authors d) ba → all_stored (db_papers d) bp →
     all_stored (db_paper_authors d) bpa → inserted s' = inserted s).

(** The three writers by the table they write; the batch a writer sends
    (the rows its de-duplication leaves, and their tuples); the flags that
    [fetchall] returns for it ([None] when the statement raises); the
    counters of the entity. *)
Definition writer (name : table_name)
  : Env → list pyrow → db → ImportStats → result unit * db * ImportStats :=
  match name with
  | Authors => upsert_authors
  | Papers => upsert_papers
  | PaperAuthors => upsert_paper_authors
  end.

Definition sent (name : table_name) (data : list pyrow)
  : option (list pyrow * list tuple) :=
  match name with
  | Authors =>
      u ← dedup_authors data; v ← mapM (values_of authors_columns) u; Some (u, v)
  | Papers => v ← mapM (values_of papers_columns) data; Some (data, v)
  | PaperAuthors =>
      st ← dedup_paper_authors data;
      v ← mapM (values_of paper_authors_columns) (fst st); Some (fst st, v)
  end.

Definition fetched (E : Env) (name : table_name) (d : db) (values : list tuple)
  : option (list bool) :=
  match name with
  | Authors => snd <$> execute_authors E d values
  | Papers => snd <$> execute_papers E d values
  | PaperAuthors => snd <$> execute_paper_authors E d values
  end.

Definition add_entity (name : table_name)
  : ImportStats → nat → nat → nat → ImportStats :=
  match name with
  | Authors => add_authors
  | Papers => add_papers
  | PaperAuthors => add_paper_authors
  end.

Definition failed_entity (name : table_name) (s : ImportStats) : nat :=
  match name with
  | Authors => authors_failed s
  | Papers => papers_failed s
  | PaperAuthors => paper_authors_failed s
  end.

(** The three tables of two stores hold the same rows, time stamps
    included. *)
Definition same_tables (d d' : db) : Prop :=
  db_authors d' = db_authors d ∧ db_papers d' = db_papers d
  ∧ db_paper_authors d' = db_paper_authors d.

(* ------------------------------------------------------------------ *)
(** ** Concrete environments *)

(** [str()] on strings, integers, booleans and [None]; the text of other
    values is not needed where this instance is used. *)
Definition str_plain (v : pyval) : string :=
  match v with
  | PStr s => s
  | PNone => "None"
  | PBool true => "True"
  | PBool false => "False"
  | PInt n => pretty n
  | _ => ""
  end.

(** A session in which nothing fails: every batch with text keys is
    accepted. *)
Definition permissive : Env :=
  mkEnv str_plain (fun _ => false) (fun _ _ _ => false)
    (fun _ _ _ => false) (fun _ _ _ => false).

(** The DOI column of a stored paper. *)
Definition doi_of (t : tuple) : pyval := column papers_columns "doi" t.

(** Modelled from the spec: [database/schema.sql] is not among the source
    files; the store schema has "a uniqueness constraint on Paper.DOI when
    non-null".  [doi_taken t k doi]: a row of [t] with another id than [k]
    holds [doi]. *)
Definition doi_taken (t : gmap string (tuple * nat)) (k : string) (doi : pyval) : bool :=
  match doi with
  | PStr s =>
      existsb (fun kv => negb (String.eqb (fst kv) k) && is_str (doi_of (fst (snd kv))) s)
              (map_to_list t)
  | _ => false
  end.

(** Modelled from the spec: the uniqueness constraint on Paper.DOI of the
    missing [schema.sql], checked row by row as the statement proceeds: a row
    is refused when the DOI it would hold after the merge is taken. *)
Fixpoint doi_conflict (now : nat) (t : gmap string (tuple * nat))
    (batch : list (string * tuple)) : bool :=
  match batch with
  | [] => false
  | (k, v) :: rest =>
      let '(t1, _) := upsert_one (policies papers_columns) now t k v in
      doi_taken t k (doi_of (default [] (fst <$> t1 !! k))) || doi_conflict now t1 rest
  end.

(** Modelled from the spec: a store whose only constraint is the
    uniqueness of Paper.DOI (the schema file is missing from the sources). *)
Definition unique_doi : Env :=
  mkEnv str_plain (fun _ => false)
    (fun name d values =>
       match name with
       | Papers =>
           match with_keys key1 values with
           | Some batch => doi_conflict (db_clock d) (db_papers d) batch
           | None => false
           end
       | _ => false
       end)
    (fun _ _ _ => false) (fun _ _ _ => false).

(** Modelled from psycopg2: a string that contains a NUL character cannot be
    adapted ([ValueError: A string literal cannot contain NUL (0x00)
    characters]); a list is adapted element by element. *)
Fixpoint has_nul (v : pyval) : bool :=
  match v with
  | PStr s => existsb (Ascii.eqb "000"%char) (list_ascii_of_string s)
  | PList l => existsb has_nul l
  | _ => false
  end.

(** A store without constraints behind a driver that refuses NUL
    characters. *)
Definition nul_averse : Env :=
  mkEnv str_plain (existsb (existsb has_nul)) (fun _ _ _ => false)
    (fun _ _ _ => false) (fun _ _ _ => false).

(* ------------------------------------------------------------------ *)
(** ** Sample records *)

Definition author_A1 (institution : string) (position : string) : pyval :=
  PDict [ ("author", PDict [("id", PStr "https://openalex.org/A1");
                            ("display_name", PStr "Ann")]);
          ("author_position", PStr position);
          ("institutions", PList [PDict [("display_name", PStr institution)]]) ].

(** One author listed twice, and a sub-record without an author id. *)
Definition listed_twice : pyval :=
  PDict [ ("id", PStr "https://openalex.org/W1");
          ("title", PStr "A study");
          ("authorships",
           PList [ author_A1 "X" "first"; author_A1 "Y" "last";
                   PDict [("author", PDict [])] ]) ].


(** A record with a negative citation count. *)
Definition negative_cited : pyval :=
  PDict [ ("id", PStr "https://openalex.org/W1");
          ("title", PStr "A study");
          ("cited_by_count", PInt (-5)) ].

(** A record that has only an id, a title and a DOI. *)
Definition paper_with_doi (id title doi : string) : pyval :=
  PDict [ ("id", PStr id); ("title", PStr title); ("doi", PStr doi) ].

(** Three papers; W1 and W3 change their DOI within the batch. *)
Definition doi_shuffle : list pyval :=
  [ paper_with_doi "W1" "one" "d";
    paper_with_doi "W3" "three" "z";
    paper_with_doi "W2" "two" "d";
    paper_with_doi "W1" "one" "e";
    paper_with_doi "W3" "three" "d" ].

(** A record with two authors; the name of the second holds a NUL
    character. *)
Definition nul_named : pyval :=
  PDict [ ("id", PStr "https://openalex.org/W1");
          ("title", PStr "A study");
          ("authorships",
           PList [ PDict [("author", PDict [("id", PStr "https://openalex.org/A1");
                                            ("display_name", PStr "Ann")])];
                   PDict [("author",
                           PDict [("id", PStr "https://openalex.org/A2");
                                  ("display_name", PStr (String "000"%char "Bob"))])] ]) ].

(** The author rows of [nul_named]. *)
Definition nul_authors : list pyrow :=
  fst (transform_authorships (PStr "W1") 1 (authorship_records
    match nul_named with PDict d => d | _ => [] end)).

(** A store that refuses every batch. *)
Definition rejecting : Env :=
  mkEnv str_plain (fun _ => false) (fun _ _ _ => true)
    (fun _ _ _ => false) (fun _ _ _ => false).

(** The row of [negative_cited], and its write into an empty store. *)
Definition demo_row : pyrow :=
  default [] (transform_paper_data permissive negative_cited).

Definition demo_upsert : result unit * db * ImportStats :=
  upsert_papers permissive [demo_row] empty_db new_stats.

(** What [process_paper] makes of [negative_cited] on an empty store. *)
Definition demo_processed : outcome * db * ImportStats :=
  process_paper permissive negative_cited empty_db new_stats.

(** The paper of [negative_cited] when it was open access and not yet
    cited, the store after its load, and the write of [demo_row] over it. *)
Definition open_access_paper : pyval :=
  PDict [ ("id", PStr "https://openalex.org/W1");
          ("title", PStr "A study");
          ("open_access", PDict [("is_oa", PBool true)]) ].

Definition open_store : db :=
  snd (fst (load permissive [open_access_paper] empty_db new_stats)).

Definition reingested : result unit * db * ImportStats :=
  upsert_papers permissive [demo_row] open_store new_stats.

(** The load of both records, one after the other. *)
Definition open_run : list outcome * db * ImportStats :=
  load permissive [open_access_paper; negative_cited] empty_db new_stats.

(** The value that a stored paper holds in a column. *)
Definition stored_column (d : db) (k c : string) : option pyval :=
  (fun stored => column papers_columns c (fst stored)) <$> db_papers d !! k.

(** Two runs of the load on [listed_twice]. *)
Definition demo_run1 : list outcome * db * ImportStats :=
  load permissive [listed_twice] empty_db new_stats.

Definition demo_run2 : list outcome * db * ImportStats :=
  load permissive [listed_twice] (snd (fst demo_run1)) new_stats.

(** The author rows and the authorship rows of [listed_twice]. *)
Definition demo_rows : list pyrow * list pyrow :=
  transform_authorships (PStr "W1") 1 (authorship_records
    match listed_twice with PDict d => d | _ => [] end).

(** An author row that brings no institution, written over the store that
    the first run left. *)
Definition demo_author_null : pyrow :=
  [ ("author_id", PStr "A1"); ("display_name", PStr "Ann"); ("orcid", PNone);
    ("primary_institution", PNone); ("primary_country", PNone) ].

Definition demo_author_upsert : result unit * db * ImportStats :=
  upsert_authors permissive [demo_author_null] (snd (fst demo_run1)) new_stats.

Definition demo_stored_author : tuple * nat :=
  default ([], 0) (db_authors (snd (fst demo_run1)) !! "A1").

(** The surviving author rows, and the one at their head. *)
Definition demo_unique : list pyrow := default [] (dedup_authors (fst demo_rows)).

Definition demo_survivor : pyrow := default [] (head demo_unique).

(** The surviving authorship rows with the count of removed ones. *)
Definition demo_links : list pyrow * nat :=
  default ([], 0) (dedup_paper_authors (snd demo_rows)).

Definition demo_link : pyrow := default [] (head (fst demo_links)).

(** The row of [listed_twice] and the tuple of [demo_row]. *)
Definition demo_listed_row : pyrow :=
  default [] (transform_paper_data permissive listed_twice).

Definition demo_values : list tuple :=
  default [] (mapM (values_of papers_columns) [demo_row]).

(** A record that has an id and nothing else. *)
Definition bare_record : pydict := [ ("id", PStr "https://openalex.org/W9") ].

(** The two runs on [doi_shuffle] against a store with unique DOIs. *)
Definition shuffle_run1 : list outcome * db * ImportStats :=
  load unique_doi doi_shuffle empty_db new_stats.

Definition shuffle_run2 : list outcome * db * ImportStats :=
  load unique_doi doi_shuffle (snd (fst shuffle_run1)) new_stats.

Definition stored_doi (d : db) (k : string) : option pyval :=
  (fun stored => doi_of (fst stored)) <$> db_papers d !! k.

(* ------------------------------------------------------------------ *)
(** ** Quality validator: the bookkeeping of [TestRunner] *)

Module Quality.

(** [TestResult]; a fresh one has [passed = False], [failure_count = 0],
    no samples, no error and [execution_time = 0.0]. *)
Record TestResult : Type := mkresult {
  test_name : string;
  category : string;
  description : string;
  passed : bool;
  failure_count : Z;
  sample_records : list pyrow;
  error_message : option string;
  execution_time : Q
}.

Definition fresh (name cat desc : string) : TestResult :=
  mkresult name cat desc false 0 [] None 0.

(** What "passed" means for a result the runner produced. *)
Definition sound (r : TestResult) : Prop :=
  passed r = true ↔ error_message r = None ∧ failure_count r = 0%Z.

(** What one query gave: the seconds it took and either the message of the
    exception or the failure count with its sample rows. *)
Definition answer : Type := Q * (string + Z * list pyrow).

(** The [try]/[except] of [_run_test_category] around one query. *)
Definition record_answer (r : TestResult) (a : answer) : TestResult :=
  match snd a with
  | inr (count, samples) =>
      mkresult (test_name r) (category r) (description r)
        (Z.eqb count 0) count samples (error_message r) (fst a)
  | inl msg =>
      mkresult (test_name r) (category r) (description r)
        false (failure_count r) (sample_records r) (Some msg) (execution_time r)
  end.

(** [str.strip()] leaves nothing. *)
Definition is_space (c : ascii) : bool :=
  let n := nat_of_ascii c in
  (Nat.leb 9 n && Nat.leb n 13) || (Nat.leb 28 n && Nat.leb n 32)
  || Nat.eqb n 133 || Nat.eqb n 160.

Definition blank (s : string) : bool := forallb is_space (list_ascii_of_string s).

Section Runner.
(** The connection: [_apply_config_to_query] and [_execute_test_query] on
    one query, timed; the connection may change state (a failed statement
    aborts the transaction). *)
Variable conn : Type.
Variable run_query : conn → string → conn * answer.
(** [config.get("continue_on_failure", True)] *)
Variable continue_on_failure : bool.

(** The name and description of the [i]-th query of a category. *)
Definition describe (cat : string) (test_info : list (string * string)) (i : nat)
  : string * string :=
  match test_info !! i with
  | Some info => info
  | None => (cat +:+ "_test_" +:+ pretty (i + 1), "Test " +:+ pretty (i + 1) +:+ " in " +:+ cat)
  end.

(** The loop of [_run_test_category] from index [i] on. *)
Fixpoint run_queries (cat : string) (test_info : list (string * string)) (c : conn)
    (i : nat) (queries : list string) : conn * list TestResult :=
  match queries with
  | [] => (c, [])
  | query :: rest =>
      if blank query then run_queries cat test_info c (S i) rest
      else
        let '(name, desc) := describe cat test_info i in
        let '(c1, a) := run_query c query in
        let result := record_answer (fresh name cat desc) a in
        if negb (passed result) && negb continue_on_failure
        then (c1, [result])
        else
          let '(c2, results) := run_queries cat test_info c1 (S i) rest in
          (c2, result :: results)
  end.

Definition run_test_category (c : conn) (cat : string)
    (file : list string * list (string * string)) : conn * list TestResult :=
  run_queries cat (snd file) c 0 (fst file).

(** The loop of [run_all_tests] over the categories, each with the queries
    and the test information read from its file. *)
Fixpoint run_categories (c : conn)
    (cats : list (string * (list string * list (string * string)))) : list TestResult :=
  match cats with
  | [] => []
  | (cat, file) :: rest =>
      let '(c1, results) := run_test_category c cat file in
      (results ++ run_categories c1 rest)%list
  end.

(** One check in the report. *)
Record entry : Type := mkentry {
  e_status : string;
  e_name : string;
  e_description : string;
  e_issues : Z;
  e_time : Q;
  e_error : option string;
  e_samples : list pyrow
}.

Definition entry_of (r : TestResult) : entry :=
  mkentry (if passed r then "PASS" else "FAIL") (test_name r) (description r)
    (failure_count r) (execution_time r) (error_message r)
    (if negb (passed r) then take 5 (sample_records r) else []).

(** [categories[result.category].append(result)], keys in first-seen order. *)
Fixpoint group_add (r : TestResult) (groups : list (string * list TestResult))
  : list (string * list TestResult) :=
  match groups with
  | [] => [(category r, [r])]
  | (cat, rs) :: groups' =>
      if String.eqb cat (category r) then (cat, (rs ++ [r])%list) :: groups'
      else (cat, rs) :: group_add r groups'
  end.

Definition group_by_category (results : list TestResult)
  : list (string * list TestResult) :=
  fold_left (fun groups r => group_add r groups) results [].

Definition count_passed (results : list TestResult) : nat :=
  length (filter (fun r => passed r = true) results).

Definition sum_failures (results : list TestResult) : Z :=
  foldr Z.add 0%Z (map failure_count results).

Record section : Type := mksection {
  s_category : string;
  s_passed : nat;
  s_total : nat;
  s_issues : Z;
  s_entries : list entry
}.

Record report : Type := mkreport {
  total_tests : nat;
  passed_tests : nat;
  failed_tests : nat;
  total_failures : Z;
  sections : list section;
  overall_pass : bool
}.

(** [_generate_report], as data rather than text. *)
Definition generate_report (results : list TestResult) : report :=
  let total := length results in
  let ok := count_passed results in
  mkreport total ok (total - ok) (sum_failures results)
    (map (fun g => mksection (fst g) (count_passed (snd g)) (length (snd g))
                     (sum_failures (snd g)) (map entry_of (snd g)))
         (group_by_category results))
    (Nat.eqb (total - ok) 0).

(** [run_all_tests]: without a connection the [except] returns [False]
    before any report; otherwise every category runs, the report is
    generated and the result is [all(result.passed ...)].  The second
    component is [self.results], the third the report. *)
Definition run_all_tests (connect : option conn)
    (cats : list (string * (list string * list (string * string))))
  : bool * list TestResult * option report :=
  match connect with
  | None => (false, [], None)
  | Some c =>
      let results := run_categories c cats in
      (forallb passed results, results, Some (generate_report results))
  end.

End Runner.

(** A connection on which every query raises. *)
Definition broken_query (c : unit) (query : string) : unit * answer :=
  (c, (0%Q, inl "relation papers does not exist")).

Definition one_check : list (string * (list string * list (string * string))) :=
  [ ("Data Validity",
     (["SELECT COUNT(*) FROM papers WHERE cited_by_count < 0"], [])) ].

End Quality.

(* ------------------------------------------------------------------ *)
(** ** Vocabulary of the further properties *)

(** A set of names and the first name seen: both empty, or both not. *)
Definition affiliated (names : list hkey) (first : pyval) : Prop :=
  (names = [] ∧ first = PNone) ∨ (names ≠ [] ∧ truthy first = true).

(** A table after one statement over the tuples of [rows]. *)
Definition written `{Countable K} (cols : list (string * policy))
    (idkey : pyrow → option K) (rows : list pyrow) (t t' : gmap K (tuple * nat)) : Prop :=
  ∃ batch now,
    Forall2 (feeds cols idkey) rows batch
    ∧ t' = fst (upsert_rows (policies cols) now t batch).

(** Every stored authorship belongs to a stored paper. *)
Definition links_have_papers (d : db) : Prop :=
  ∀ p a, is_Some (db_paper_authors d !! (p, a)) → is_Some (db_papers d !! p).

(** The paper row that the first run on [listed_twice] left. *)
Definition demo_stored_paper : tuple * nat :=
  default ([], 0) (db_papers (snd (fst demo_run1)) !! "W1").

(** The records of a run that were processed, and those that were not. *)
Definition count_processed (os : list outcome) : nat :=
  length (filter (fun o => o = Processed) os).

Definition count_failed (os : list outcome) : nat :=
  length (filter (fun o => o ≠ Processed) os).

(** [load_json_file]: [None] when the file is missing or is not JSON
    ([file = None]) and when the document is not an array. *)
Definition load_json_file (file : option pyval) : option (list pyval) :=
  match file with
  | Some (PList data) => Some data
  | _ => None
  end.

(** [main]: the exit code, the store and the statistics.  [connects] says
    that [DatabaseConfig()] and [get_connection()] succeed. *)
Definition main (E : Env) (connects : bool) (file : option pyval) (d : db)
  : nat * db * ImportStats :=
  if connects then
    match load_json_file file with
    | None => (1, d, new_stats)
    | Some papers =>
        let '(r, _, d', s) := main_loop E papers d new_stats in
        match r with
        | Raise _ => (1, d', s)
        | Ok _ => (if Nat.ltb 0 (papers_failed s) then 1 else 0, d', s)
        end
    end
  else (1, d, new_stats).

(** The number of rows of the last page of a batch of [n] rows. *)
Definition last_page_size (n : nat) : nat := n - page_size * ((n - 1) / page_size).

(** The groups of a report hold, each under its own category and once,
    the results of that category in the order of the run. *)
Definition grouped (results : list Quality.TestResult)
    (groups : list (string * list Quality.TestResult)) : Prop :=
  NoDup (map fst groups)
  ∧ Forall (fun g => snd g = filter (fun r => Quality.category r = fst g) results
                     ∧ snd g ≠ []) groups
  ∧ Forall (fun r => Quality.category r ∈ map fst groups) results.

(** The queries of a file that the loop does not skip. *)
Definition checks (queries : list string) : list string :=
  filter (fun q => Quality.blank q = false) queries.

(* ------------------------------------------------------------------ *)
(** ** The files of checks *)

(** [s.replace(old, new)] for a non-empty [old]: every match found from
    left to right is replaced and the scan goes on after it. *)
Fixpoint str_replace_go (old new : string) (skip : nat) (s : string) : string :=
  match s with
  | EmptyString => ""
  | String c s' =>
      match skip with
      | S n => str_replace_go old new n s'
      | O =>
          if String.prefix old s
          then new +:+ str_replace_go old new (String.length old - 1) s'
          else String c (str_replace_go old new 0 s')
      end
  end.

Definition str_replace (old new s : string) : string := str_replace_go old new 0 s.

(** [_apply_config_to_query]; [threshold] and [window] are the texts of
    [config.get("suspicious_citation_threshold", 100000)] and of
    [config.get("retracted_update_window_days", 30)]. *)
Definition apply_config_to_query (threshold window : string) (query : string) : string :=
  str_replace "INTERVAL '30 days'" ("INTERVAL '" +:+ window +:+ " days'")
    (str_replace "100000" threshold query).

(** [s.strip()]: white space removed at both ends. *)
Fixpoint lstrip (s : string) : string :=
  match s with
  | EmptyString => ""
  | String c s' => if Quality.is_space c then lstrip s' else s
  end.

Fixpoint rstrip (s : string) : string :=
  match s with
  | EmptyString => ""
  | String c s' =>
      match rstrip s' with
      | EmptyString => if Quality.is_space c then "" else String c ""
      | r => String c r
      end
  end.

Definition strip (s : string) : string := rstrip (lstrip s).

(** The line feed. *)
Definition LF : ascii := ascii_of_nat 10.

(** [content.split("\n")]. *)
Fixpoint split_lines (content : string) : list string :=
  match content with
  | EmptyString => [""]
  | String c s' =>
      match split_lines s' with
      | line :: lines =>
          if Ascii.eqb c LF then "" :: line :: lines else String c line :: lines
      | [] => []
      end
  end.

(** ["\n".join(lines)]. *)
Fixpoint join_lines (lines : list string) : string :=
  match lines with
  | [] => ""
  | [line] => line
  | line :: rest => line +:+ String LF (join_lines rest)
  end.

(** The state of the loop of [_load_sql_file]. *)
Record sql_scan : Type := mkscan {
  scan_queries : list string;
  current_query : list string;
  in_test_section : bool
}.

Definition nonempty {A} (l : list A) : bool :=
  match l with [] => false | _ => true end.

(** The end of a test: the text is kept when it is not empty and holds a
    [SELECT]. *)
Definition save_query (current_query queries : list string) : list string :=
  let query_text := strip (join_lines current_query) in
  if negb (String.eqb query_text "") && contains "SELECT" query_text
  then (queries ++ [query_text])%list else queries.

Definition section_rule : string :=
  "-- ============================================================================".

Definition scan_line (st : sql_scan) (line : string) : sql_scan :=
  let line_stripped := strip line in
  (* start of a new test section *)
  let st1 :=
    if String.prefix "-- Test " line_stripped
    then mkscan (if nonempty (current_query st) && in_test_section st
                 then save_query (current_query st) (scan_queries st)
                 else scan_queries st)
                [] true
    else st in
  (* the line belongs to the current test *)
  let st2 :=
    if in_test_section st1
    then mkscan (scan_queries st1) (current_query st1 ++ [line])%list true
    else st1 in
  (* end of the test section *)
  if String.prefix section_rule line_stripped
     && nonempty (current_query st2) && in_test_section st2
  then mkscan (save_query (current_query st2) (scan_queries st2)) [] false
  else st2.

(** [_load_sql_file]; [content = None]: the file cannot be read. *)
Definition load_sql_file (content : option string) : list string :=
  match content with
  | None => []
  | Some text =>
      let st := foldl scan_line (mkscan [] [] false) (split_lines text) in
      if nonempty (current_query st) && in_test_section st
      then save_query (current_query st) (scan_queries st)
      else scan_queries st
  end.

(** One step of the loop of [_parse_test_info]: the tests found and the
    test being read, with its name and description. *)
Definition parse_line (st : list (string * string) * option (string * string))
    (line : string) : list (string * string) * option (string * string) :=
  let '(test_info, current_test) := st in
  let line := strip line in
  if String.prefix "-- Test " line then
    (match current_test with
     | Some t => (test_info ++ [t])%list
     | None => test_info
     end,
     Some (strip (remove_all ":" (remove_all "-- Test " line)), ""))
  else
    match current_test with
    | Some (name, description) =>
        if String.prefix "--" line && String.eqb description "" then
          let desc := strip (remove_all "--" line) in
          if negb (String.eqb desc "") && negb (String.prefix "=" desc)
          then (test_info, Some (name, desc))
          else st
        else st
    | None => st
    end.

(** [_parse_test_info]. *)
Definition parse_test_info (content : option string) : list (string * string) :=
  match content with
  | None => []
  | Some text =>
      let '(test_info, current_test) := foldl parse_line ([], None) (split_lines text) in
      match current_test with
      | Some t => (test_info ++ [t])%list
      | None => test_info
      end
  end.

(** A line that opens a test section. *)
Definition test_header (line : string) : bool := String.prefix "-- Test " (strip line).

(** What the loader keeps: a text that is not blank and holds a [SELECT]. *)
Definition is_check (query : string) : Prop :=
  Quality.blank query = false ∧ contains "SELECT" query = true.

(** A file of three test sections, the second of which has no query yet. *)
Definition demo_sql : string :=
  "-- Test 1.1: Negative counts" +:+ String LF
  ("-- Papers with a negative citation count" +:+ String LF
  ("SELECT COUNT(*) FROM papers WHERE cited_by_count < 0;" +:+ String LF
  (section_rule +:+ String LF
  ("-- Test 1.2: Not written yet" +:+ String LF
  ("-- Test 1.3: Missing titles" +:+ String LF
   "SELECT COUNT(*) FROM papers WHERE title IS NULL;"))))).

(** The run of its checks on a connection where every query raises, with
    and without [continue_on_failure], and the second result of the
    former. *)
Definition demo_checks : list Quality.TestResult :=
  snd (Quality.run_test_category unit Quality.broken_query true tt "Data Validity"
         (load_sql_file (Some demo_sql), parse_test_info (Some demo_sql))).

Definition demo_stopped : list Quality.TestResult :=
  snd (Quality.run_test_category unit Quality.broken_query false tt "Data Validity"
         (load_sql_file (Some demo_sql), parse_test_info (Some demo_sql))).

Definition demo_second : Quality.TestResult :=
  default (Quality.fresh "" "" "") (demo_checks !! 1%nat).

(* ------------------------------------------------------------------ *)
(** ** Concepts and DOI of a record *)









(** The resolver prefix of a DOI. *)
Definition doi_resolver : string := "https://doi.org/".

(** A record with three scored concepts. *)
Definition ranked_concepts : pyval :=
  PDict [ ("id", PStr "https://openalex.org/W5");
          ("title", PStr "A survey");
          ("doi", PStr "https://doi.org/10.1000/xyz");
          ("concepts",
           PList [ PDict [("display_name", PStr "Biology"); ("score", PFloat (2 # 10))];
                   PDict [("display_name", PStr "Physics"); ("score", PFloat (9 # 10))];
                   PDict [("display_name", PStr "Geology"); ("score", PFloat (5 # 10))] ]) ].

Definition demo_ranked_row : pyrow :=
  default [] (transform_paper_data permissive ranked_concepts).



(* ------------------------------------------------------------------ *)
(** ** The execution of one check *)

(** [len(s.split(sep)) - 1] for a non-empty [sep]: the matches found from
    left to right, none overlapping another. *)
Fixpoint occurrences_go (sep : string) (skip : nat) (s : string) : nat :=
  match s with
  | EmptyString => 0
  | String c s' =>
      match skip with
      | S n => occurrences_go sep n s'
      | O =>
          if String.prefix sep s
          then S (occurrences_go sep (String.length sep - 1) s')
          else occurrences_go sep 0 s'
      end
  end.

Definition occurrences (sep s : string) : nat := occurrences_go sep 0 s.

(** [i = s.find(needle)] as the pair [(s[:i], s[i:])]; [None] is [-1]. *)
Fixpoint break_at (needle s : string) : option (string * string) :=
  if String.prefix needle s then Some ("", s)
  else
    match s with
    | EmptyString => None
    | String c s' => (fun ab => (String c (fst ab), snd ab)) <$> break_at needle s'
    end.

(** [s[:-1] if s.endswith(";") else s]. *)
Fixpoint chop_semicolon (s : string) : string :=
  match s with
  | EmptyString => ""
  | String c s' =>
      match s' with
      | EmptyString => if Ascii.eqb c ";" then "" else s
      | _ => String c (chop_semicolon s')
      end
  end.

(** The count query and the sample query of a test with two [SELECT]s:
    the text from the first [SELECT] to the second, and the text from the
    second on.  [None]: the query is executed as it is. *)
Definition split_query (query : string) : option (string * string) :=
  if Nat.ltb (S (occurrences "SELECT" query)) 3 then None
  else
    first ← break_at "SELECT" query;
    match snd first with
    | EmptyString => None
    | String c after =>
        second ← break_at "SELECT" after;
        Some (chop_semicolon (strip (String c (fst second))),
              chop_semicolon (strip (snd second)))
    end.




Section Cursor.
(** The cursor: a statement either raises or gives its columns and rows;
    the connection may change state. *)
Variable conn : Type.
Variable execute : conn → string → conn * option (list string * list (list pyval)).
(** [config.get("max_sample_records", 10)] *)
Variable max_sample_records : nat.

End Cursor.





(** A check whose count query has a sub-select. *)
Definition nested_check : string :=
  "SELECT COUNT(*) FROM (SELECT doi FROM papers GROUP BY doi HAVING COUNT(*) > 1) d;".

(* ================================================================== *)
(** * Facts about the model *)

(** ** The [SET] clause, column by column *)

Lemma sql_set_assignment p e s : sql_set p e s = default s (assignment p e).
Proof. destruct p; simpl; try reflexivity. destruct e; reflexivity. Qed.

Lemma on_conflict_update_assign pol v old :
  on_conflict_update pol v old = assign (assignments pol v) old.
Proof.
  revert v old. induction pol as [|p pol IH]; intros [|e v] old; simpl; try reflexivity.
  rewrite sql_set_assignment, IH. reflexivity.
Qed.

Lemma assignments_length pol v :
  length v = length pol → length (assignments pol v) = length pol.
Proof.
  revert v. induction pol as [|p pol IH]; intros [|e v]; simpl; intros Hl;
    try reflexivity; try discriminate.
  f_equal. apply IH. lia.
Qed.

Lemma assign_idem asg x : assign asg (assign asg x) = assign asg x.
Proof.
  revert x. induction asg as [|o asg IH]; intros x; simpl; [reflexivity|].
  rewrite IH. destruct o; reflexivity.
Qed.

Lemma assign_then a2 a1 x :
  length a2 = length a1 → assign a2 (assign a1 x) = assign (then_ a2 a1) x.
Proof.
  revert a1 x. induction a2 as [|o a2 IH]; intros [|o1 a1] x; simpl; intros Hl;
    try reflexivity; try discriminate.
  rewrite IH by lia. destruct o; reflexivity.
Qed.

Lemma then_length a2 a1 : length (then_ a2 a1) = length a2.
Proof.
  revert a1. induction a2 as [|o a2 IH]; intros a1; simpl; [reflexivity|].
  rewrite IH. reflexivity.
Qed.

Lemma on_conflict_update_self pol v :
  length v = length pol → on_conflict_update pol v v = v.
Proof.
  revert v. induction pol as [|p pol IH]; intros [|e v]; simpl; intros Hl;
    try reflexivity; try discriminate.
  rewrite IH by lia. destruct p; simpl; try reflexivity. destruct e; reflexivity.
Qed.

Lemma on_conflict_update_length pol v old :
  length v = length pol → length (on_conflict_update pol v old) = length pol.
Proof.
  revert v old. induction pol as [|p pol IH]; intros [|e v] old; simpl; intros Hl;
    try reflexivity; try discriminate.
  rewrite IH by lia. reflexivity.
Qed.

(** Reading a column of a merged row. *)
Lemma column_on_conflict_update cols c p v old :
  policy_of cols c = Some p →
  length v = length cols →
  column cols c (on_conflict_update (policies cols) v old)
  = sql_set p (column cols c v) (column cols c old).
Proof.
  revert v old. induction cols as [|[c' p'] cols IH]; intros v old Hp Hl; [discriminate|].
  destruct v as [|e v]; [discriminate|]. simpl in *.
  destruct (String.eqb c' c) eqn:Hc.
  - injection Hp as ->. destruct old; reflexivity.
  - rewrite IH by (auto; lia). destruct old; simpl; [|reflexivity].
    f_equal. clear. destruct cols as [|[? ?] ?]; reflexivity.
Qed.

Lemma column_values_of cols c p (r : pyrow) v :
  values_of cols r = Some v →
  policy_of cols c = Some p →
  row_get r c = Some (column cols c v).
Proof.
  unfold values_of. intros HF%mapM_Some_1. revert c p.
  induction HF as [|[c' p'] e cols v He HF IH]; intros c p Hp; [discriminate|].
  simpl in *. destruct (String.eqb c' c) eqn:Hc.
  - apply String.eqb_eq in Hc. subst. exact He.
  - eauto.
Qed.

Lemma values_of_length cols (r : pyrow) v :
  values_of cols r = Some v → length v = length cols.
Proof.
  unfold values_of. intros HF%mapM_Some_1.
  symmetry. eapply Forall2_length. exact HF.
Qed.

(** ** One table *)

Section TableFacts.
Context `{Countable K}.
Variable pol : list policy.

Lemma merge_rows_lookup (m : gmap K tuple) batch k :
  merge_rows pol m batch !! k = foldl (step pol k) (m !! k) batch.
Proof.
  unfold merge_rows. revert m. induction batch as [|[k' v] batch IH]; intros m; simpl.
  - reflexivity.
  - rewrite IH. f_equal. unfold step; simpl. destruct (decide (k' = k)) as [->|Hne].
    + rewrite lookup_insert_eq. reflexivity.
    + rewrite lookup_insert_ne by exact Hne. reflexivity.
Qed.

Lemma upsert_one_rows now (t : gmap K (tuple * nat)) k v :
  rows (fst (upsert_one pol now t k v)) = merge_rows pol (rows t) [(k, v)].
Proof.
  unfold merge_rows, rows, upsert_one; simpl. rewrite lookup_fmap.
  destruct (t !! k) as [[old n]|]; simpl; rewrite fmap_insert; reflexivity.
Qed.

Lemma upsert_rows_rows now (t : gmap K (tuple * nat)) batch :
  rows (fst (upsert_rows pol now t batch)) = merge_rows pol (rows t) batch.
Proof.
  revert t. induction batch as [|[k v] batch IH]; intros t; simpl; [reflexivity|].
  pose proof (upsert_one_rows now t k v) as H1.
  destruct (upsert_one pol now t k v) as [t1 ins].
  specialize (IH t1). destruct (upsert_rows pol now t1 batch) as [t2 flags].
  simpl in *. rewrite IH, H1. reflexivity.
Qed.

Lemma upsert_rows_flags_length now (t : gmap K (tuple * nat)) batch :
  length (snd (upsert_rows pol now t batch)) = length batch.
Proof.
  revert t. induction batch as [|[k v] batch IH]; intros t; simpl; [reflexivity|].
  destruct (upsert_one pol now t k v) as [t1 ins].
  specialize (IH t1). destruct (upsert_rows pol now t1 batch). simpl in *. lia.
Qed.

(** A stored key stays stored. *)
Lemma merge_rows_keeps (m : gmap K tuple) batch k :
  is_Some (m !! k) → is_Some (merge_rows pol m batch !! k).
Proof.
  rewrite merge_rows_lookup. generalize (m !! k). clear m.
  induction batch as [|kv batch IH]; intros o Ho; simpl; [exact Ho|].
  apply IH. unfold step. destruct (decide _); [eauto|exact Ho].
Qed.

(** Every key of the batch is stored afterwards. *)
Lemma merge_rows_stores (m : gmap K tuple) batch k v :
  (k, v) ∈ batch → is_Some (merge_rows pol m batch !! k).
Proof.
  revert m. induction batch as [|kv batch IH]; intros m Hin.
  - inversion Hin.
  - apply elem_of_cons in Hin as [<-|Hin].
    + unfold merge_rows; simpl. apply merge_rows_keeps.
      rewrite lookup_insert_eq. eauto.
    + unfold merge_rows; simpl. apply IH. exact Hin.
Qed.

(** Rows whose keys are all stored are all classified as updates. *)
Lemma upsert_rows_all_updates now (t : gmap K (tuple * nat)) batch :
  Forall (fun kv => is_Some (t !! fst kv)) batch →
  Forall (fun b => b = false) (snd (upsert_rows pol now t batch)).
Proof.
  revert t. induction batch as [|[k v] batch IH]; intros t HF; simpl; [constructor|].
  apply Forall_cons in HF as [[[old n] Hk] HF]. simpl in Hk.
  unfold upsert_one. rewrite Hk.
  specialize (IH (<[k:=(on_conflict_update pol v old, now)]> t)).
  destruct (upsert_rows pol now _ batch) as [t2 flags]. simpl in *.
  constructor; [reflexivity|]. apply IH.
  eapply Forall_impl; [exact HF|]. intros [k' v'] [x Hx]. simpl in *.
  destruct (decide (k = k')) as [->|Hne].
  - rewrite lookup_insert_eq. eauto.
  - rewrite lookup_insert_ne by exact Hne. eauto.
Qed.

Lemma foldl_step_Some (k : K) x batch :
  foldl (step pol k) (Some x) batch = Some (foldl (step_row pol k) x batch).
Proof.
  revert x. induction batch as [|kv batch IH]; intros x; simpl; [reflexivity|].
  unfold step at 2, step_row at 2. destruct (decide _); apply IH.
Qed.

Lemma foldl_step_None (k : K) batch :
  Forall (fun kv => length (snd kv) = length pol) batch →
  foldl (step pol k) None batch = None
  ∨ ∃ v, foldl (step pol k) None batch = Some (foldl (step_row pol k) v batch).
Proof.
  induction 1 as [|kv batch Hl HF IH]; simpl; [left; reflexivity|].
  unfold step at 2 4, step_row at 2. destruct (decide _).
  - right. exists (snd kv). rewrite foldl_step_Some.
    rewrite on_conflict_update_self by exact Hl. reflexivity.
  - destruct IH as [IH|[v IH]]; [left; exact IH|right; exists v; exact IH].
Qed.

(** The rows of a batch that hit [k] act on the stored row as one list of
    column assignments, or not at all. *)
Lemma foldl_step_row_assign (k : K) batch :
  Forall (fun kv => length (snd kv) = length pol) batch →
  (∀ x, foldl (step_row pol k) x batch = x)
  ∨ ∃ asg, length asg = length pol ∧ ∀ x, foldl (step_row pol k) x batch = assign asg x.
Proof.
  induction 1 as [|kv batch Hl HF IH]; simpl; [left; reflexivity|].
  unfold step_row at 2 4. destruct (decide _); [|exact IH].
  right. destruct IH as [IH|(asg & Hlen & IH)].
  - exists (assignments pol (snd kv)). split; [apply assignments_length, Hl|].
    intros x. rewrite IH. apply on_conflict_update_assign.
  - exists (then_ asg (assignments pol (snd kv))). split.
    + rewrite then_length. exact Hlen.
    + intros x. rewrite IH, on_conflict_update_assign. apply assign_then.
      rewrite assignments_length by exact Hl. exact Hlen.
Qed.

Lemma foldl_step_row_idem (k : K) batch x :
  Forall (fun kv => length (snd kv) = length pol) batch →
  foldl (step_row pol k) (foldl (step_row pol k) x batch) batch = foldl (step_row pol k) x batch.
Proof.
  intros HF. destruct (foldl_step_row_assign k batch HF) as [Hid|(asg & _ & Ha)].
  - rewrite !Hid. reflexivity.
  - rewrite !Ha. apply assign_idem.
Qed.

(** Applying a batch a second time changes no row. *)
Lemma merge_rows_idem (m : gmap K tuple) batch :
  Forall (fun kv => length (snd kv) = length pol) batch →
  merge_rows pol (merge_rows pol m batch) batch = merge_rows pol m batch.
Proof.
  intros HF. apply map_eq. intros k. rewrite !merge_rows_lookup.
  destruct (m !! k) as [x|].
  - rewrite !foldl_step_Some. f_equal. apply foldl_step_row_idem, HF.
  - destruct (foldl_step_None k batch HF) as [Hn|[v Hv]].
    + rewrite Hn. simpl. exact Hn.
    + rewrite !Hv, foldl_step_Some. f_equal. apply foldl_step_row_idem, HF.
Qed.

Lemma merge_rows_app (m : gmap K tuple) b1 b2 :
  merge_rows pol m (b1 ++ b2) = merge_rows pol (merge_rows pol m b1) b2.
Proof. unfold merge_rows. apply foldl_app. Qed.

End TableFacts.

(** ** Columns of a table after a batch *)

Lemma last_with_cons {A K} `{EqDecision K} (key : A → option K) k x l :
  last_with key k (x :: l)
  = match last_with key k l with
    | Some y => Some y
    | None => if decide (key x = Some k) then Some x else None
    end.
Proof.
  unfold last_with. rewrite filter_cons. destruct (decide (key x = Some k)).
  - rewrite last_cons. reflexivity.
  - destruct (last _); reflexivity.
Qed.

Lemma last_with_elem {A K} `{EqDecision K} (key : A → option K) k l x :
  last_with key k l = Some x → x ∈ l ∧ key x = Some k.
Proof.
  unfold last_with. intros Hl. apply last_Some_elem_of in Hl.
  apply list_elem_of_filter in Hl. tauto.
Qed.

Section Columns.
Context `{Countable K}.
Variable cols : list (string * policy).
Variable idkey : pyrow → option K.
Local Abbreviation pol := (policies cols).

Lemma feeds_length r (kv : K * tuple) :
  feeds cols idkey r kv → length (snd kv) = length (policies cols).
Proof.
  intros [Hv _]. apply values_of_length in Hv. unfold policies.
  rewrite length_map. exact Hv.
Qed.

Lemma feeds_lengths rows (batch : list (K * tuple)) :
  Forall2 (feeds cols idkey) rows batch →
  Forall (fun kv => length (snd kv) = length (policies cols)) batch.
Proof.
  induction 1; constructor; eauto using feeds_length.
Qed.

Lemma fold_untouched rows (batch : list (K * tuple)) k :
  Forall2 (feeds cols idkey) rows batch →
  last_with idkey k rows = None →
  ∀ o, foldl (step pol k) o batch = o.
Proof.
  induction 1 as [|r kv rows batch [_ Hk] HF IH]; intros Hl o; simpl; [reflexivity|].
  rewrite last_with_cons in Hl. destruct (last_with idkey k rows); [discriminate|].
  destruct (decide (idkey r = Some k)) as [|Hne]; [discriminate|].
  rewrite IH by reflexivity. unfold step. destruct (decide _) as [Heq|]; [|reflexivity].
  exfalso. apply Hne. rewrite Hk, Heq. reflexivity.
Qed.

(** An overwritten column holds the value of the last row of the batch
    for that key. *)
Lemma overwrite_fold rows (batch : list (K * tuple)) k p :
  Forall2 (feeds cols idkey) rows batch →
  last_with idkey k rows = Some p →
  ∀ o, ∃ y, foldl (step pol k) o batch = Some y
          ∧ ∀ c, policy_of cols c = Some Overwrite →
                 row_get p c = Some (column cols c y).
Proof.
  induction 1 as [|r kv rows batch Hf HF IH]; intros Hl o; simpl.
  - discriminate.
  - rewrite last_with_cons in Hl.
    destruct (last_with idkey k rows) as [y'|] eqn:Hrest.
    + injection Hl as ->. apply IH. reflexivity.
    + destruct (decide (idkey r = Some k)) as [Hk|]; [|discriminate].
      injection Hl as ->. rewrite (fold_untouched rows batch k HF Hrest).
      destruct Hf as [Hv Hid]. unfold step. rewrite decide_True by congruence.
      eexists; split; [reflexivity|]. intros c Hc.
      destruct o as [old|].
      * rewrite (column_on_conflict_update cols c Overwrite)
          by eauto using values_of_length.
        simpl. eapply column_values_of; eauto.
      * eapply column_values_of; eauto.
Qed.

(** A coalesced column keeps its value unless some row of the batch for
    that key brings a non-null one. *)
Lemma coalesce_fold rows (batch : list (K * tuple)) k c :
  Forall2 (feeds cols idkey) rows batch →
  policy_of cols c = Some Coalesce →
  ∀ old,
    (column cols c (foldl (step_row pol k) old batch) = column cols c old
     ∨ ∃ r v, r ∈ rows ∧ idkey r = Some k ∧ row_get r c = Some v ∧ v ≠ PNone
              ∧ column cols c (foldl (step_row pol k) old batch) = v).
Proof.
  intros HF Hc. induction HF as [|r kv rows batch [Hv Hid] HF IH]; intros old; simpl.
  - left. reflexivity.
  - destruct (IH (step_row pol k old kv)) as [Hkeep|(r' & v & Hin & ? & ? & ? & ?)].
    + rewrite Hkeep. unfold step_row. destruct (decide _) as [Heq|]; [|left; reflexivity].
      rewrite (column_on_conflict_update cols c Coalesce)
        by eauto using values_of_length.
      pose proof (column_values_of cols c Coalesce r _ Hv Hc) as Hr.
      simpl. destruct (column cols c (snd kv)) eqn:Hcol;
        try (left; reflexivity);
        right; exists r; eexists; (split; [left|]);
        (split; [congruence|]); (split; [exact Hr|]);
        (split; [discriminate|reflexivity]).
    + right. exists r', v. split; [right; exact Hin|]. tauto.
Qed.

Lemma coalesce_fold_null rows (batch : list (K * tuple)) k c :
  Forall2 (feeds cols idkey) rows batch →
  policy_of cols c = Some Coalesce →
  (∀ r, r ∈ rows → idkey r = Some k → row_get r c = Some PNone) →
  ∀ old, column cols c (foldl (step_row pol k) old batch) = column cols c old.
Proof.
  intros HF Hc Hnull old.
  destruct (coalesce_fold rows batch k c HF Hc old) as [Hk|(r & v & Hin & Hid & Hr & Hv & _)].
  - exact Hk.
  - rewrite (Hnull r Hin Hid) in Hr. congruence.
Qed.

End Columns.

(** ** The author pass: last record wins *)

Lemma dict_set_find {V} k k' (v : V) d :
  alist_find k (dict_set k' v d) = if decide (k = k') then Some v else alist_find k d.
Proof.
  induction d as [|[k0 v0] d IH]; simpl.
  - reflexivity.
  - destruct (decide (k' = k0)) as [->|Hne]; simpl.
    + destruct (decide (k = k0)); reflexivity.
    + rewrite IH. destruct (decide (k = k0)) as [->|]; [|reflexivity].
      rewrite decide_False by congruence. reflexivity.
Qed.

Lemma dict_set_keys {V} k (v : V) d :
  map fst (dict_set k v d)
  = if decide (k ∈ map fst d) then map fst d else (map fst d ++ [k])%list.
Proof.
  induction d as [|[k0 v0] d IH].
  - rewrite decide_False by (simpl; intros Hin; inversion Hin). reflexivity.
  - cbn [dict_set]. destruct (decide (k = k0)) as [->|Hne].
    + rewrite decide_True by (simpl; left). reflexivity.
    + cbn [map fst]. cbn [map fst] in IH. rewrite IH.
      destruct (decide (k ∈ map fst d)) as [Hin|Hnin].
      * rewrite decide_True by (right; exact Hin). reflexivity.
      * rewrite decide_False; [reflexivity|].
        intros Hin. apply elem_of_cons in Hin as [?|?]; congruence.
Qed.

Lemma dict_set_NoDup {V} k (v : V) d :
  NoDup (map fst d) → NoDup (map fst (dict_set k v d)).
Proof.
  intros Hnd. rewrite dict_set_keys. destruct (decide _) as [|Hnin]; [exact Hnd|].
  apply NoDup_app. split; [exact Hnd|]. split.
  - intros x Hx Hx'. apply list_elem_of_singleton in Hx'. subst. contradiction.
  - apply NoDup_singleton.
Qed.

Lemma dict_set_keyed_by {V} (key : V → option hkey) k v d :
  key v = Some k → keyed_by key d → keyed_by key (dict_set k v d).
Proof.
  intros Hk. unfold keyed_by. induction 1 as [|[k0 v0] d H0 HF IH]; simpl.
  - constructor; [exact Hk|constructor].
  - destruct (decide (k = k0)) as [->|].
    + constructor; [exact Hk|exact HF].
    + constructor; [exact H0|exact IH].
Qed.

Lemma unique_authors_spec l :
  ∀ d d',
    fold_opt (fun d a => k ← author_key a; Some (dict_set k a d)) d l = Some d' →
    NoDup (map fst d) → keyed_by author_key d →
    NoDup (map fst d') ∧ keyed_by author_key d'
    ∧ ∀ k, alist_find k d'
           = match last_with author_key k l with
             | Some a => Some a
             | None => alist_find k d
             end.
Proof.
  induction l as [|a l IH]; intros d d' Hf Hnd Hkb; simpl in Hf.
  - injection Hf as <-. auto.
  - destruct (author_key a) as [ka|] eqn:Hka; [|discriminate]. simpl in Hf.
    apply IH in Hf as (Hnd' & Hkb' & Hfind);
      [|apply dict_set_NoDup, Hnd|apply dict_set_keyed_by; assumption].
    split; [exact Hnd'|]. split; [exact Hkb'|].
    intros k. rewrite Hfind, last_with_cons, dict_set_find.
    destruct (last_with author_key k l); [reflexivity|].
    destruct (decide (k = ka)) as [->|Hne].
    + rewrite decide_True by exact Hka. reflexivity.
    + rewrite decide_False by congruence. reflexivity.
Qed.

Lemma keyed_filter_absent (d : list (hkey * pyrow)) k :
  keyed_by author_key d → k ∉ map fst d →
  filter (fun a => author_key a = Some k) (map snd d) = [].
Proof.
  induction 1 as [|[k0 a0] d H0 HF IH]; simpl; intros Hnin; [reflexivity|].
  rewrite filter_cons. simpl in H0.
  rewrite decide_False.
  - apply IH. intros Hin. apply Hnin. right. exact Hin.
  - rewrite H0. intros [= ->]. apply Hnin. left.
Qed.

Lemma keyed_filter_found (d : list (hkey * pyrow)) k a :
  keyed_by author_key d → NoDup (map fst d) → alist_find k d = Some a →
  filter (fun a => author_key a = Some k) (map snd d) = [a].
Proof.
  induction 1 as [|[k0 a0] d H0 HF IH]; simpl; intros Hnd Hfind; [discriminate|].
  apply NoDup_cons in Hnd as [Hnin Hnd]. simpl in H0. rewrite filter_cons.
  destruct (decide (k = k0)) as [->|Hne].
  - injection Hfind as ->. rewrite decide_True by exact H0.
    rewrite keyed_filter_absent by assumption. reflexivity.
  - rewrite decide_False by (rewrite H0; congruence). apply IH; assumption.
Qed.

Lemma alist_find_elem {V} k (d : list (hkey * V)) v :
  alist_find k d = Some v → v ∈ map snd d.
Proof.
  induction d as [|[k0 v0] d IH]; simpl; [discriminate|].
  destruct (decide (k = k0)).
  - intros [= ->]. left.
  - intros Hf. right. apply IH, Hf.
Qed.

Lemma keyed_elem_find (d : list (hkey * pyrow)) a :
  keyed_by author_key d → NoDup (map fst d) → a ∈ map snd d →
  ∃ k, author_key a = Some k ∧ alist_find k d = Some a.
Proof.
  induction 1 as [|[k0 a0] d H0 HF IH]; simpl; intros Hnd Hin; [inversion Hin|].
  apply NoDup_cons in Hnd as [Hnin Hnd]. simpl in H0.
  apply elem_of_cons in Hin as [->|Hin].
  - exists k0. rewrite decide_True by reflexivity. auto.
  - destruct (IH Hnd Hin) as (k & Hk & Hfind). exists k. split; [exact Hk|].
    rewrite decide_False; [exact Hfind|].
    intros ->. apply Hnin. clear -Hfind.
    induction d as [|[k1 v1] d IH]; simpl in *; [discriminate|].
    destruct (decide (k0 = k1)) as [->|]; [left|right; auto].
Qed.

Lemma fold_opt_total {A S} (f : S → A → option S) l :
  (∀ s, Forall (fun x => is_Some (f s x)) l) → ∀ s, is_Some (fold_opt f s l).
Proof.
  induction l as [|x l IH]; intros Hall s; simpl; [eauto|].
  pose proof (Hall s) as Hs. apply Forall_cons in Hs as [[s' Hs'] _].
  rewrite Hs'. simpl. apply IH.
  intros s0. specialize (Hall s0). apply Forall_cons in Hall. tauto.
Qed.

Lemma last_with_app_hit {A K} `{EqDecision K} (key : A → option K) k l1 x l2 :
  key x = Some k → Forall (fun y => key y ≠ Some k) l2 →
  last_with key k (l1 ++ x :: l2) = Some x.
Proof.
  intros Hx Hl2. induction l1 as [|y l1 IH]; simpl.
  - rewrite last_with_cons.
    assert (last_with key k l2 = None) as ->.
    { clear -Hl2. induction Hl2 as [|y l2 Hy _ IH]; [reflexivity|].
      rewrite last_with_cons, IH, decide_False by exact Hy. reflexivity. }
    rewrite decide_True by exact Hx. reflexivity.
  - rewrite last_with_cons, IH. reflexivity.
Qed.

Lemma transform_authorships_authors paper_id idx authorships :
  fst (transform_authorships paper_id idx authorships)
  = omap transform_author_data authorships.
Proof.
  revert idx. induction authorships as [|a l IH]; intros idx; simpl; [reflexivity|].
  specialize (IH (S idx)). destruct (transform_authorships paper_id (S idx) l).
  simpl in *. rewrite IH. destruct (transform_author_data a); reflexivity.
Qed.

Lemma last_with_exists {A K} `{EqDecision K} (key : A → option K) k l a :
  a ∈ l → key a = Some k → is_Some (last_with key k l).
Proof.
  intros Hin Hk. unfold last_with.
  assert (a ∈ filter (fun a => key a = Some k) l) as Hf
    by (apply list_elem_of_filter; auto).
  destruct (filter _ l) as [|x f] eqn:Hfl; [inversion Hf|].
  rewrite last_cons. destruct (last f); eauto.
Qed.

Lemma dedup_authors_inv l unique :
  dedup_authors l = Some unique →
  ∃ d, unique = map snd d ∧ NoDup (map fst d) ∧ keyed_by author_key d
       ∧ ∀ k, alist_find k d = last_with author_key k l.
Proof.
  unfold dedup_authors, unique_authors. intros Hd.
  apply fmap_Some in Hd as (d & Hf & ->).
  apply unique_authors_spec in Hf as (Hnd & Hkb & Hfind);
    [|constructor|constructor].
  exists d. repeat split; try assumption.
  intros k. rewrite Hfind. destruct (last_with author_key k l); reflexivity.
Qed.

Lemma dedup_authors_subset l unique a :
  dedup_authors l = Some unique → a ∈ unique → a ∈ l.
Proof.
  intros Hd Hin. apply dedup_authors_inv in Hd as (d & -> & Hnd & Hkb & Hfind).
  destruct (keyed_elem_find d a Hkb Hnd Hin) as (k & _ & Hf).
  rewrite Hfind in Hf. apply last_with_elem in Hf. tauto.
Qed.

(** ** Claim C4 *)

(** C4 — author de-duplication is "last record wins".  If every row carries
    a hashable author id the pass returns; whenever it returns, each author
    id of the batch survives in exactly one row, that row is the last row of
    the batch with the id (so every attribute is the last-seen one), and no
    other row survives.  In particular, when two authorship sub-records of a
    paper carry the same author id and no later sub-record does, the
    surviving row is the one normalised from the later sub-record, and its
    institution is that sub-record's. *)
Theorem author_dedup_last_wins (authors_data : list pyrow) :
  (Forall (fun a => is_Some (author_key a)) authors_data →
   is_Some (dedup_authors authors_data))
  ∧ ∀ unique, dedup_authors authors_data = Some unique →
      (∀ a k, a ∈ authors_data → author_key a = Some k →
         ∃ r, filter (fun x => author_key x = Some k) unique = [r]
              ∧ last_with author_key k authors_data = Some r)
      ∧ (∀ r, r ∈ unique →
           ∃ k, author_key r = Some k
                ∧ last_with author_key k authors_data = Some r)
      ∧ (∀ paper_id pre a1 mid a2 post r1 r2 k,
           authors_data
           = fst (transform_authorships paper_id 1 (pre ++ a1 :: mid ++ a2 :: post)) →
           transform_author_data a1 = Some r1 →
           transform_author_data a2 = Some r2 →
           author_key r1 = Some k → author_key r2 = Some k →
           Forall (fun b => ∀ rb, transform_author_data b = Some rb →
                                  author_key rb ≠ Some k) post →
           filter (fun x => author_key x = Some k) unique = [r2]
           ∧ ∀ r, r ∈ unique → author_key r = Some k →
                  row_get r "primary_institution" = row_get r2 "primary_institution").
Proof.
  split.
  - intros Hall. unfold dedup_authors, unique_authors.
    apply fmap_is_Some, fold_opt_total. intros d.
    eapply Forall_impl; [exact Hall|]. intros a [k Hk]. simpl. rewrite Hk. simpl. eauto.
  - intros unique Hd.
    destruct (dedup_authors_inv _ _ Hd) as (d & -> & Hnd & Hkb & Hfind).
    assert (Hone : ∀ k r, last_with author_key k authors_data = Some r →
                          filter (fun x => author_key x = Some k) (map snd d) = [r]).
    { intros k r Hl. apply keyed_filter_found; try assumption. rewrite Hfind. exact Hl. }
    split; [|split].
    + intros a k Hin Hk.
      destruct (last_with_exists author_key k authors_data a Hin Hk) as [r Hr].
      exists r. split; [apply Hone, Hr|exact Hr].
    + intros r Hin. destruct (keyed_elem_find d r Hkb Hnd Hin) as (k & Hk & Hf).
      exists k. split; [exact Hk|]. rewrite <- Hfind. exact Hf.
    + intros paper_id pre a1 mid a2 post r1 r2 k Heq H1 H2 Hk1 Hk2 Hpost.
      assert (Hlast : last_with author_key k authors_data = Some r2).
      { rewrite Heq, transform_authorships_authors.
        rewrite omap_app. simpl. rewrite H1, omap_app. simpl. rewrite H2.
        set (m := omap transform_author_data mid).
        set (q := omap transform_author_data post).
        replace (omap transform_author_data pre ++ r1 :: m ++ r2 :: q)%list
          with ((omap transform_author_data pre ++ r1 :: m) ++ r2 :: q)%list
          by (rewrite <- app_assoc; reflexivity).
        subst q. apply last_with_app_hit; [exact Hk2|].
        apply Forall_forall. intros rb Hin.
        apply list_elem_of_omap in Hin as (b & Hb & Hrb).
        rewrite Forall_forall in Hpost. eapply Hpost; eauto. }
      pose proof (Hone k r2 Hlast) as Hflt. split; [exact Hflt|].
      intros r Hin Hk.
      assert (r ∈ filter (fun x => author_key x = Some k) (map snd d)) as Hr
        by (apply list_elem_of_filter; auto).
      rewrite Hflt in Hr. apply list_elem_of_singleton in Hr. subst. reflexivity.
Qed.

(** ** From normalised rows to keyed tuples *)

Lemma keyed_feeds {K} cols (idkey : pyrow → option K) key_of rows values batch :
  (∀ r v, values_of cols r = Some v → key_of v = idkey r) →
  mapM (values_of cols) rows = Some values →
  with_keys key_of values = Some batch →
  Forall2 (feeds cols idkey) rows batch.
Proof.
  intros Hkey Hv%mapM_Some_1 Hb%mapM_Some_1. revert batch Hb.
  induction Hv as [|r v rows values Hr Hv IH]; intros batch Hb; inversion Hb; subst.
  - constructor.
  - constructor; [|apply IH; assumption].
    match goal with Hy : (_ ≫= _) = Some ?y |- _ =>
      apply bind_Some in Hy as (k & Hk & [= <-]) end.
    split; simpl; [exact Hr|]. rewrite <- (Hkey r v Hr). exact Hk.
Qed.

Lemma key1_authors r v :
  values_of authors_columns r = Some v → key1 v = stored_id "author_id" r.
Proof.
  unfold values_of. intros Hv%mapM_Some_1. unfold authors_columns in Hv.
  inversion Hv as [|? ? ? ? Hid _]; subst. unfold stored_id. simpl in *.
  rewrite Hid. reflexivity.
Qed.

Lemma key1_papers r v :
  values_of papers_columns r = Some v → key1 v = stored_id "paper_id" r.
Proof.
  unfold values_of. intros Hv%mapM_Some_1. unfold papers_columns in Hv.
  inversion Hv as [|? ? ? ? Hid _]; subst. unfold stored_id. simpl in *.
  rewrite Hid. reflexivity.
Qed.

Lemma key2_paper_authors r v :
  values_of paper_authors_columns r = Some v → key2 v = stored_pair r.
Proof.
  unfold values_of. intros Hv%mapM_Some_1. unfold paper_authors_columns in Hv.
  inversion Hv as [|? ? ? ? Hp Hv']; subst.
  inversion Hv' as [|? ? ? ? Ha _]; subst.
  unfold stored_pair, stored_id. simpl in *. rewrite Hp, Ha. reflexivity.
Qed.

(** How the shared [try] block can end. *)
Lemma in_transaction_cases {T} E name d s values n (execute : option (T * list bool))
    set add res d' s' :
  in_transaction E name d s values n execute set add = (res, d', s') →
  (res = Raise PyException ∧ d' = d ∧ s' = s ∧ unadaptable E values = true)
  ∨ (res = Raise PostgresError ∧ d' = tick d ∧ unadaptable E values = false
     ∧ ∃ s0, ((execute = None ∧ s0 = s)
              ∨ (∃ t results, execute = Some (t, results)
                              ∧ commit_fails E name d values = true
                              ∧ s0 = add s (count_inserted results)
                                       (count_updated results) 0))
             ∧ s' = if rollback_fails E name d values then s0 else add s0 0 0 n)
  ∨ (res = Ok () ∧ unadaptable E values = false
     ∧ commit_fails E name d values = false
     ∧ ∃ t results, execute = Some (t, results) ∧ d' = tick (set d t)
                    ∧ s' = add s (count_inserted results) (count_updated results) 0).
Proof.
  unfold in_transaction. destruct (unadaptable E values).
  { intros [= <- <- <-]. left. auto. }
  destruct execute as [[t results]|].
  - destruct (commit_fails E name d values).
    + intros Hr. right; left.
      assert (res = Raise PostgresError ∧ d' = tick d) as [-> ->]
        by (destruct (rollback_fails E name d values); injection Hr as <- <- <-; auto).
      split; [reflexivity|]. split; [reflexivity|]. split; [reflexivity|].
      eexists. split; [right; eauto|].
      destruct (rollback_fails E name d values); injection Hr as <-; reflexivity.
    + intros [= <- <- <-]. right; right. eauto 10.
  - intros Hr. right; left.
    assert (res = Raise PostgresError ∧ d' = tick d) as [-> ->]
      by (destruct (rollback_fails E name d values); injection Hr as <- <- <-; auto).
    split; [reflexivity|]. split; [reflexivity|]. split; [reflexivity|].
    exists s. split; [left; auto|].
    destruct (rollback_fails E name d values); injection Hr as <-; reflexivity.
Qed.

Ltac unchanged :=
  split; [reflexivity|split; [reflexivity|]]; left;
  split; [reflexivity|try discriminate; intros _; eauto 7].

Ltac transaction_ends H t results Hex :=
  apply in_transaction_cases in H
    as [(-> & -> & -> & _)|[(-> & -> & _)|(-> & _ & _ & t & results & Hex & -> & ->)]];
  [unchanged|unchanged|].

(** What a call of each writer did to its table: nothing, or the batch. *)
Lemma upsert_authors_inv E l d s res d' s' :
  upsert_authors E l d s = (res, d', s') →
  db_papers d' = db_papers d ∧ db_paper_authors d' = db_paper_authors d
  ∧ ((db_authors d' = db_authors d ∧ (res = Ok () → l = [] ∧ d' = d ∧ s' = s))
     ∨ (res = Ok ()
        ∧ ∃ u batch t flags,
            dedup_authors l = Some u
            ∧ Forall2 (feeds authors_columns (stored_id "author_id")) u batch
            ∧ upsert_rows (policies authors_columns) (db_clock d) (db_authors d) batch
              = (t, flags)
            ∧ d' = tick (set_authors d t)
            ∧ s' = add_authors s (count_inserted (last_page flags))
                     (count_updated (last_page flags)) 0)).
Proof.
  unfold upsert_authors. destruct l as [|a l].
  { intros [= <- <- <-]. unchanged. }
  destruct (dedup_authors (a :: l)) as [u|] eqn:Hd; simpl.
  2:{ intros [= <- <- <-]. unchanged. }
  destruct (mapM (values_of authors_columns) u) as [values|] eqn:Hv.
  2:{ intros [= <- <- <-]. unchanged. }
  intros Ht. transaction_ends Ht t results Hex.
  unfold execute_authors in Hex.
  destruct (with_keys key1 values) as [batch|] eqn:Hb; simpl in Hex; [|discriminate].
  destruct (rejects E Authors d values); [discriminate|].
  destruct (upsert_rows _ _ _ batch) as [t' flags] eqn:Hu.
  injection Hex as <- <-. split; [reflexivity|split; [reflexivity|]]. right.
  split; [reflexivity|].
  exists u, batch, t', flags. repeat split; try assumption.
  eapply keyed_feeds; eauto using key1_authors.
Qed.

Lemma upsert_papers_inv E l d s res d' s' :
  upsert_papers E l d s = (res, d', s') →
  db_authors d' = db_authors d ∧ db_paper_authors d' = db_paper_authors d
  ∧ ((db_papers d' = db_papers d ∧ (res = Ok () → l = [] ∧ d' = d ∧ s' = s))
     ∨ (res = Ok ()
        ∧ ∃ batch t flags,
            Forall2 (feeds papers_columns (stored_id "paper_id")) l batch
            ∧ upsert_rows (policies papers_columns) (db_clock d) (db_papers d) batch
              = (t, flags)
            ∧ d' = tick (set_papers d t)
            ∧ s' = add_papers s (count_inserted (last_page flags))
                     (count_updated (last_page flags)) 0)).
Proof.
  unfold upsert_papers. destruct l as [|a l].
  { intros [= <- <- <-]. unchanged. }
  destruct (mapM (values_of papers_columns) (a :: l)) as [values|] eqn:Hv.
  2:{ intros [= <- <- <-]. unchanged. }
  intros Ht. transaction_ends Ht t results Hex.
  unfold execute_papers in Hex.
  destruct (with_keys key1 values) as [batch|] eqn:Hb; simpl in Hex; [|discriminate].
  destruct (rejects E Papers d values); [discriminate|].
  destruct (upsert_rows _ _ _ batch) as [t' flags] eqn:Hu.
  injection Hex as <- <-. split; [reflexivity|split; [reflexivity|]]. right.
  split; [reflexivity|].
  exists batch, t', flags. repeat split; try assumption.
  eapply keyed_feeds; eauto using key1_papers.
Qed.

Lemma upsert_paper_authors_inv E l d s res d' s' :
  upsert_paper_authors E l d s = (res, d', s') →
  db_authors d' = db_authors d ∧ db_papers d' = db_papers d
  ∧ ((db_paper_authors d' = db_paper_authors d
      ∧ (res = Ok () → d' = d ∧ s' = s
                       ∧ (l = [] ∨ ∃ n, dedup_paper_authors l = Some ([], n))))
     ∨ (res = Ok ()
        ∧ ∃ u n batch t flags,
            dedup_paper_authors l = Some (u, n)
            ∧ Forall2 (feeds paper_authors_columns stored_pair) u batch
            ∧ upsert_rows (policies paper_authors_columns) (db_clock d)
                (db_paper_authors d) batch = (t, flags)
            ∧ d' = tick (set_paper_authors d t)
            ∧ s' = add_paper_authors s (count_inserted (last_page flags))
                     (count_updated (last_page flags)) 0)).
Proof.
  unfold upsert_paper_authors. destruct l as [|a l].
  { intros [= <- <- <-]. unchanged. }
  destruct (dedup_paper_authors (a :: l)) as [[u n]|] eqn:Hd.
  2:{ intros [= <- <- <-]. unchanged. }
  destruct u as [|r u].
  { intros [= <- <- <-]. unchanged. }
  destruct (mapM (values_of paper_authors_columns) (r :: u)) as [values|] eqn:Hv.
  2:{ intros [= <- <- <-]. unchanged. }
  intros Ht. transaction_ends Ht t results Hex.
  unfold execute_paper_authors in Hex.
  destruct (with_keys key2 values) as [batch|] eqn:Hb; simpl in Hex; [|discriminate].
  destruct (rejects E PaperAuthors d values); [discriminate|].
  destruct (upsert_rows _ _ _ batch) as [t' flags] eqn:Hu.
  injection Hex as <- <-. split; [reflexivity|split; [reflexivity|]]. right.
  split; [reflexivity|].
  exists (r :: u), n, batch, t', flags. repeat split; try assumption.
  eapply keyed_feeds; eauto using key2_paper_authors.
Qed.

(** The row stored under a key after a batch, given the row before. *)
Lemma upsert_rows_lookup_Some `{Countable K} pol now (t : gmap K (tuple * nat)) batch k old n :
  t !! k = Some (old, n) →
  ∃ n', fst (upsert_rows pol now t batch) !! k
        = Some (foldl (step_row pol k) old batch, n').
Proof.
  intros Hk. pose proof (upsert_rows_rows pol now t batch) as Hr.
  apply (f_equal (fun m => m !! k)) in Hr.
  rewrite merge_rows_lookup in Hr. unfold rows in Hr. rewrite !lookup_fmap, Hk in Hr.
  simpl in Hr. rewrite foldl_step_Some in Hr.
  destruct (fst (upsert_rows pol now t batch) !! k) as [[new n']|]; [|discriminate].
  simpl in Hr. injection Hr as ->. eauto.
Qed.

Lemma upsert_rows_lookup `{Countable K} pol now (t : gmap K (tuple * nat)) batch k :
  fst <$> (fst (upsert_rows pol now t batch) !! k)
  = foldl (step pol k) (fst <$> t !! k) batch.
Proof.
  pose proof (upsert_rows_rows pol now t batch) as Hr.
  apply (f_equal (fun m => m !! k)) in Hr.
  rewrite merge_rows_lookup in Hr. unfold rows in Hr. rewrite !lookup_fmap in Hr.
  exact Hr.
Qed.

Lemma coalesce_after `{Countable K} cols (idkey : pyrow → option K)
    (t t' : gmap K (tuple * nat)) rows batch now flags k old n c :
  Forall2 (feeds cols idkey) rows batch →
  upsert_rows (policies cols) now t batch = (t', flags) →
  t !! k = Some (old, n) →
  policy_of cols c = Some Coalesce →
  ∃ new n', t' !! k = Some (new, n')
    ∧ (column cols c new = column cols c old
       ∨ ∃ r v, r ∈ rows ∧ idkey r = Some k ∧ row_get r c = Some v ∧ v ≠ PNone
                ∧ column cols c new = v).
Proof.
  intros HF Hu Hk Hc.
  destruct (upsert_rows_lookup_Some (policies cols) now t batch k old n Hk) as [n' Hn].
  rewrite Hu in Hn. simpl in Hn. eexists _, n'. split; [exact Hn|].
  apply (coalesce_fold cols idkey rows batch k c HF Hc).
Qed.

Lemma overwrite_after `{Countable K} cols (idkey : pyrow → option K)
    (t t' : gmap K (tuple * nat)) rows batch now flags k p :
  Forall2 (feeds cols idkey) rows batch →
  upsert_rows (policies cols) now t batch = (t', flags) →
  last_with idkey k rows = Some p →
  ∃ new n', t' !! k = Some (new, n')
    ∧ ∀ c, policy_of cols c = Some Overwrite → row_get p c = Some (column cols c new).
Proof.
  intros HF Hu Hl.
  pose proof (upsert_rows_lookup (policies cols) now t batch k) as Hr.
  rewrite Hu in Hr. simpl in Hr.
  destruct (overwrite_fold cols idkey rows batch k p HF Hl (fst <$> t !! k))
    as (y & Hy & Hcols).
  rewrite Hy in Hr. destruct (t' !! k) as [[new n']|]; [|discriminate].
  simpl in Hr. injection Hr as ->. eauto.
Qed.

Ltac column_in H :=
  repeat (apply elem_of_cons in H as [->|H]; [reflexivity|]); inversion H.

(** ** The authorship pass: first record wins *)

Lemma first_with_cons {A K} `{EqDecision K} (key : A → option K) k x l :
  first_with key k (x :: l)
  = if decide (key x = Some k) then Some x else first_with key k l.
Proof.
  unfold first_with. rewrite filter_cons. destruct (decide _); reflexivity.
Qed.

Lemma first_with_snoc {A K} `{EqDecision K} (key : A → option K) k x l :
  first_with key k (l ++ [x])
  = match first_with key k l with
    | Some y => Some y
    | None => if decide (key x = Some k) then Some x else None
    end.
Proof.
  induction l as [|y l IH]; simpl.
  - rewrite first_with_cons. destruct (decide _); reflexivity.
  - rewrite !first_with_cons. destruct (decide (key y = Some k)); [reflexivity|exact IH].
Qed.

Lemma first_with_elem {A K} `{EqDecision K} (key : A → option K) k l x :
  first_with key k l = Some x → x ∈ l ∧ key x = Some k.
Proof.
  unfold first_with. intros Hh. apply head_Some_elem_of in Hh.
  apply list_elem_of_filter in Hh. tauto.
Qed.

Lemma first_with_exists {A K} `{EqDecision K} (key : A → option K) k l a :
  a ∈ l → key a = Some k → is_Some (first_with key k l).
Proof.
  intros Hin Hk. unfold first_with.
  assert (a ∈ filter (fun a => key a = Some k) l) as Hf
    by (apply list_elem_of_filter; auto).
  destruct (filter _ l); [inversion Hf|]. simpl. eauto.
Qed.

Section Seen.
Context {A K : Type} `{EqDecision K}.
Variable key : A → option K.

Lemma seen_first_with (u : list A) (seen : list K) k :
  Forall2 (fun x k => key x = Some k) u seen →
  k ∈ seen ↔ is_Some (first_with key k u).
Proof.
  induction 1 as [|x kx u seen Hx HF IH].
  - split; [intros Hin; inversion Hin|intros [? Hs]; discriminate].
  - rewrite first_with_cons, elem_of_cons, IH.
    destruct (decide (key x = Some k)) as [Heq|Hne].
    + split; [eauto|]. intros _. left. congruence.
    + split; [|tauto]. intros [->|Hs]; [contradiction|exact Hs].
Qed.

Lemma seen_filter_one (u : list A) (seen : list K) k r :
  Forall2 (fun x k => key x = Some k) u seen → NoDup seen →
  first_with key k u = Some r →
  filter (fun x => key x = Some k) u = [r].
Proof.
  induction 1 as [|x kx u seen Hx HF IH]; intros Hnd Hf; [discriminate|].
  apply NoDup_cons in Hnd as [Hnin Hnd].
  rewrite first_with_cons in Hf. rewrite filter_cons.
  destruct (decide (key x = Some k)) as [Heq|Hne].
  - injection Hf as ->. f_equal.
    assert (kx = k) as -> by congruence.
    destruct (filter _ u) as [|y f] eqn:Hfl; [reflexivity|]. exfalso. apply Hnin.
    apply (seen_first_with u seen k HF). unfold first_with. rewrite Hfl. simpl. eauto.
  - apply IH; assumption.
Qed.

End Seen.

Lemma dedup_fold_spec l :
  ∀ seen u n seen' u' n',
    fold_opt dedup_step (seen, u, n) l = Some (seen', u', n') →
    Forall2 (fun x k => paper_author_key x = Some k) u seen → NoDup seen →
    Forall2 (fun x k => paper_author_key x = Some k) u' seen'
    ∧ NoDup seen'
    ∧ (∃ added, u' = (u ++ added)%list ∧ added `sublist_of` l)
    ∧ n' + length u' = n + length u + length l
    ∧ ∀ k, first_with paper_author_key k u'
           = match first_with paper_author_key k u with
             | Some x => Some x
             | None => first_with paper_author_key k l
             end.
Proof.
  induction l as [|x l IH]; intros seen u n seen' u' n' Hf HF Hnd; simpl in Hf.
  - injection Hf as <- <- <-. repeat split; try assumption.
    + exists []. rewrite app_nil_r. split; [reflexivity|constructor].
    + simpl. lia.
    + intros k. destruct (first_with paper_author_key k u); reflexivity.
  - destruct (paper_author_key x) as [kx|] eqn:Hkx; [|discriminate]. simpl in Hf.
    destruct (decide (kx ∈ seen)) as [Hin|Hnin].
    + apply IH in Hf as (HF' & Hnd' & (added & -> & Hsub) & Hlen & Hfirst); try assumption.
      repeat split; try assumption.
      * exists added. split; [reflexivity|]. apply sublist_cons, Hsub.
      * simpl. lia.
      * intros k. rewrite Hfirst, first_with_cons.
        destruct (first_with paper_author_key k u) eqn:Hu; [reflexivity|].
        rewrite decide_False; [reflexivity|].
        intros Heq. assert (kx = k) as -> by congruence.
        apply (seen_first_with paper_author_key u seen k HF) in Hin.
        rewrite Hu in Hin. destruct Hin; discriminate.
    + apply IH in Hf as (HF' & Hnd' & (added & -> & Hsub) & Hlen & Hfirst).
      * repeat split; try assumption.
        -- exists (x :: added). rewrite <- app_assoc. split; [reflexivity|].
           apply sublist_skip, Hsub.
        -- rewrite !length_app in *. simpl in *. lia.
        -- intros k. rewrite Hfirst, first_with_snoc, first_with_cons.
           destruct (first_with paper_author_key k u); [reflexivity|].
           destruct (decide _); reflexivity.
      * apply Forall2_app; [exact HF|]. constructor; [exact Hkx|constructor].
      * apply NoDup_app. split; [exact Hnd|]. split; [|apply NoDup_singleton].
        intros y Hy Hy'. apply list_elem_of_singleton in Hy'. subst. contradiction.
Qed.

Lemma dedup_paper_authors_inv l u n :
  dedup_paper_authors l = Some (u, n) →
  ∃ seen,
    Forall2 (fun x k => paper_author_key x = Some k) u seen
    ∧ NoDup seen
    ∧ u `sublist_of` l
    ∧ n + length u = length l
    ∧ ∀ k, first_with paper_author_key k u = first_with paper_author_key k l.
Proof.
  unfold dedup_paper_authors. intros Hd.
  apply bind_Some in Hd as ([[seen u0] n0] & Hf & [= <- <-]).
  apply dedup_fold_spec in Hf as (HF & Hnd & (added & -> & Hsub) & Hlen & Hfirst);
    [|constructor|constructor].
  exists seen. repeat split; try assumption.
Qed.

Lemma py_hash_KStr v s : py_hash v = Some (KStr s) ↔ sql_text v = Some s.
Proof.
  destruct v; simpl; split; intros Hh; try discriminate; try congruence.
Qed.

Lemma stored_pair_key x pk ak :
  stored_pair x = Some (pk, ak) ↔ paper_author_key x = Some (KStr pk, KStr ak).
Proof.
  unfold stored_pair, stored_id, paper_author_key.
  destruct (row_get x "paper_id") as [p|]; simpl; [|split; discriminate].
  destruct (row_get x "author_id") as [a|]; simpl.
  - pose proof (py_hash_KStr p pk) as Hp. pose proof (py_hash_KStr a ak) as Ha.
    destruct (sql_text p) as [sp|], (py_hash p) as [hp|]; simpl;
      destruct (sql_text a) as [sa|], (py_hash a) as [ha|]; simpl;
      split; intros Heq; try discriminate; injection Heq as -> ->;
      try (destruct Hp as [Hp1 Hp2]; destruct Ha as [Ha1 Ha2];
           first [ specialize (Hp1 eq_refl) | specialize (Hp2 eq_refl) | idtac ];
           first [ specialize (Ha1 eq_refl) | specialize (Ha2 eq_refl) | idtac ];
           congruence).
  - destruct (sql_text p), (py_hash p); simpl; split; discriminate.
Qed.

Lemma stored_pair_filter (l : list pyrow) pk ak :
  filter (fun x => stored_pair x = Some (pk, ak)) l
  = filter (fun x => paper_author_key x = Some (KStr pk, KStr ak)) l.
Proof. apply list_filter_iff. intros x. apply stored_pair_key. Qed.

(** ** Claim C5 *)

(** C5 — authorship de-duplication is "first record wins".  If every row
    carries hashable ids the pass returns; whenever it returns, each
    (paper id, author id) pair of the batch is kept in exactly one row, that
    row is the first row of the batch with the pair, the kept rows are a
    sub-list of the batch in its order, and the count of removed duplicates
    is the number of rows dropped.  Consequently, after an accepted write the
    store holds one row for each pair of the batch, and its position and
    sequence are those of the first row of the batch with the pair. *)
Theorem authorship_dedup_first_wins (paper_authors_data : list pyrow) :
  (Forall (fun pa => is_Some (paper_author_key pa)) paper_authors_data →
   is_Some (dedup_paper_authors paper_authors_data))
  ∧ (∀ unique_data duplicates_removed,
       dedup_paper_authors paper_authors_data = Some (unique_data, duplicates_removed) →
       (∀ pa k, pa ∈ paper_authors_data → paper_author_key pa = Some k →
          ∃ r, filter (fun x => paper_author_key x = Some k) unique_data = [r]
               ∧ first_with paper_author_key k paper_authors_data = Some r)
       ∧ (∀ r, r ∈ unique_data →
            ∃ k, paper_author_key r = Some k
                 ∧ first_with paper_author_key k paper_authors_data = Some r)
       ∧ unique_data `sublist_of` paper_authors_data
       ∧ duplicates_removed + length unique_data = length paper_authors_data)
  ∧ (∀ E d s d' s' pa pk ak,
       upsert_paper_authors E paper_authors_data d s = (Ok (), d', s') →
       pa ∈ paper_authors_data → stored_pair pa = Some (pk, ak) →
       ∃ first new n',
         first_with stored_pair (pk, ak) paper_authors_data = Some first
         ∧ db_paper_authors d' !! (pk, ak) = Some (new, n')
         ∧ row_get first "author_position"
           = Some (column paper_authors_columns "author_position" new)
         ∧ row_get first "author_sequence"
           = Some (column paper_authors_columns "author_sequence" new)).
Proof.
  split; [|split].
  - intros Hall. unfold dedup_paper_authors.
    destruct (fold_opt_total dedup_step paper_authors_data) with (s := ([] : list (hkey * hkey), [] : list pyrow, 0))
      as [[[seen u] n] Hf].
    + intros [[seen u] n]. eapply Forall_impl; [exact Hall|].
      intros pa [k Hk]. simpl. rewrite Hk. simpl. destruct (decide _); eauto.
    + rewrite Hf. simpl. eauto.
  - intros u n Hd.
    destruct (dedup_paper_authors_inv _ _ _ Hd) as (seen & HF & Hnd & Hsub & Hlen & Hfirst).
    split; [|split; [|split]]; try assumption.
    + intros pa k Hin Hk.
      destruct (first_with_exists paper_author_key k _ pa Hin Hk) as [r Hr].
      exists r. split; [|exact Hr].
      apply (seen_filter_one paper_author_key u seen k r HF Hnd).
      rewrite Hfirst. exact Hr.
    + intros r Hin.
      assert (∃ k, paper_author_key r = Some k) as [k Hk].
      { clear -HF Hin. induction HF as [|x kx u seen Hx HF IH]; [inversion Hin|].
        apply elem_of_cons in Hin as [->|Hin]; eauto. }
      exists k. split; [exact Hk|]. rewrite <- Hfirst.
      destruct (first_with_exists paper_author_key k u r Hin Hk) as [r' Hr'].
      pose proof (seen_filter_one paper_author_key u seen k r' HF Hnd Hr') as Hflt.
      assert (r ∈ filter (fun x => paper_author_key x = Some k) u) as Hr
        by (apply list_elem_of_filter; auto).
      rewrite Hflt in Hr. apply list_elem_of_singleton in Hr. subst. exact Hr'.
  - intros E d s d' s' pa pk ak Hup Hin Hsp.
    pose proof (proj1 (stored_pair_key pa pk ak) Hsp) as Hk.
    destruct (first_with_exists paper_author_key _ _ pa Hin Hk) as [first Hfirst].
    assert (Hfirst' : first_with stored_pair (pk, ak) paper_authors_data = Some first).
    { unfold first_with in *. rewrite stored_pair_filter. exact Hfirst. }
    apply upsert_paper_authors_inv in Hup
      as (_ & _ & [[_ Hnil]|(_ & u & n & batch & t & flags & Hd & HF & Hu & -> & _)]).
    + destruct (Hnil eq_refl) as (_ & _ & [->|[n Hd]]); [inversion Hin|].
      apply dedup_paper_authors_inv in Hd as (seen & _ & _ & _ & _ & Hf).
      rewrite <- Hf in Hfirst. discriminate.
    + destruct (dedup_paper_authors_inv _ _ _ Hd) as (seen & HFk & Hnd & _ & _ & Hf).
      assert (Hlast : last_with stored_pair (pk, ak) u = Some first).
      { unfold last_with. rewrite stored_pair_filter.
        rewrite (seen_filter_one paper_author_key u seen _ first HFk Hnd); [reflexivity|].
        rewrite Hf. exact Hfirst. }
      destruct (overwrite_after _ _ _ _ _ _ _ _ (pk, ak) first HF Hu Hlast)
        as (new & n' & Hnew & Hcols).
      exists first, new, n'. split; [exact Hfirst'|]. split; [exact Hnew|].
      split; apply Hcols; reflexivity.
Qed.

(** ** What an accepted record looks like *)

Ltac open_chain H :=
  repeat first
    [ apply bind_Some in H as (? & ? & H)
    | match type of H with
      | (if ?c then _ else _) = Some _ => destruct c eqn:?
      end ].

Lemma py_len_iter v n l : py_len v = Some n → py_iter v = Some l → n = length l.
Proof.
  destruct v; simpl; try discriminate; intros [= <-] [= <-].
  - rewrite length_map. clear. induction s; simpl; congruence.
  - reflexivity.
  - rewrite length_map. reflexivity.
Qed.

Lemma transform_paper_data_inv E paper row :
  transform_paper_data E paper = Some row →
  ∃ d authorships,
    paper = PDict d
    ∧ py_iter (py_or (default PNone (dict_get d "authorships")) (PList []))
      = Some authorships
    ∧ is_Some (py_next (fun a => p ← py_get a "author_position";
                                 Some (is_str p "first")) authorships)
    ∧ row_get row "author_count" = Some (PInt (Z.of_nat (length authorships)))
    ∧ row_get row "cited_by_count"
      = Some (default (PInt 0) (dict_get d "cited_by_count"))
    ∧ row_get row "referenced_works_count"
      = Some (default (PInt 0) (dict_get d "referenced_works_count")).
Proof.
  unfold transform_paper_data. intros H.
  destruct (transform_paper_body E paper) as [r|] eqn:Hb; [|discriminate]. subst r.
  unfold transform_paper_body in Hb. cbv zeta in Hb.
  open_chain Hb; [discriminate|]. injection Hb as <-.
  destruct paper as [| | | | |l|d]; try discriminate.
  exists d.
  repeat match goal with
         | H : py_get (PDict d) _ = Some _ |- _ => simpl in H; injection H as <-
         | H : py_get_or (PDict d) _ _ = Some _ |- _ => simpl in H; injection H as <-
         end.
  match goal with
  | Hi : py_iter (py_or (default PNone (dict_get d "authorships")) _) = Some ?au,
    Hn : py_next (fun a => py_get a "author_position" ≫= _) ?au = Some _,
    Hl : py_len _ = Some ?n |- _ =>
      exists au; pose proof (py_len_iter _ _ _ Hl Hi); subst n;
      split; [reflexivity|]; split; [exact Hi|]; split; [eauto|]
  end.
  repeat split.
Qed.

Lemma authorships_are_records d authorships :
  py_iter (py_or (default PNone (dict_get d "authorships")) (PList [])) = Some authorships →
  is_Some (py_next (fun a => p ← py_get a "author_position";
                               Some (is_str p "first")) authorships) →
  authorships = authorship_records d.
Proof.
  unfold authorship_records, py_or.
  destruct (dict_get d "authorships") as [[| [] | n | q | [|c s] | [|x l] | [|[k v] m]]|];
    simpl; intros Hi [y Hy]; try (injection Hi as <-; reflexivity);
    try discriminate.
  - destruct (negb (n =? 0)%Z); [discriminate|]. injection Hi as <-. reflexivity.
  - destruct (negb (Qeq_bool q 0)); [discriminate|]. injection Hi as <-. reflexivity.
  - injection Hi as <-. simpl in Hy. discriminate.
  - injection Hi as <-. simpl in Hy. discriminate.
Qed.

(** What a processed paper went through. *)
Lemma process_paper_Processed E paper d s d' s' :
  process_paper E paper d s = (Processed, d', s') →
  ∃ row authors_data paper_authors_data d1 s1 d2 s2 s3,
    transform_paper_data E paper = Some row
    ∧ prepare paper row = Some (authors_data, paper_authors_data)
    ∧ upsert_authors E authors_data d s = (Ok (), d1, s1)
    ∧ upsert_papers E [row] d1 s1 = (Ok (), d2, s2)
    ∧ upsert_paper_authors E paper_authors_data d2 s2 = (Ok (), d', s3)
    ∧ s' = add_processed s3.
Proof.
  unfold process_paper, failed.
  destruct (transform_paper_data E paper) as [row|] eqn:Ht; [|discriminate].
  destruct (prepare paper row) as [[authors_data paper_authors_data]|] eqn:Hpr;
    [|discriminate].
  destruct (match authors_data with
            | [] => (Ok (), d, s)
            | _ => upsert_authors E authors_data d s
            end) as [[r1 d1] s1] eqn:H1.
  assert (H1' : upsert_authors E authors_data d s = (r1, d1, s1))
    by (destruct authors_data; exact H1).
  destruct r1 as [[]|e1]; [|discriminate].
  destruct (upsert_papers E [row] d1 s1) as [[r2 d2] s2] eqn:H2.
  destruct r2 as [[]|e2]; [|discriminate].
  destruct (match paper_authors_data with
            | [] => (Ok (), d2, s2)
            | _ => upsert_paper_authors E paper_authors_data d2 s2
            end) as [[r3 d3] s3] eqn:H3.
  assert (H3' : upsert_paper_authors E paper_authors_data d2 s2 = (r3, d3, s3))
    by (destruct paper_authors_data; exact H3).
  destruct r3 as [[]|e3]; [|discriminate].
  intros [= <- <-]. exists row, authors_data, paper_authors_data, d1, s1, d2, s2, s3.
  repeat (split; [first [reflexivity|assumption]|]). reflexivity.
Qed.

(** ** Failed writes *)

Lemma authors_stage E authors_data d s :
  match authors_data with
  | [] => (Ok (), d, s)
  | _ => upsert_authors E authors_data d s
  end = upsert_authors E authors_data d s.
Proof. destruct authors_data; reflexivity. Qed.

Lemma paper_authors_stage E paper_authors_data d s :
  match paper_authors_data with
  | [] => (Ok (), d, s)
  | _ => upsert_paper_authors E paper_authors_data d s
  end = upsert_paper_authors E paper_authors_data d s.
Proof. destruct paper_authors_data; reflexivity. Qed.

Lemma in_transaction_frame {T A} (f : ImportStats → A) E name d s values n
    (execute : option (T * list bool)) set add res d' s' :
  (∀ s a b c, f (add s a b c) = f s) →
  in_transaction E name d s values n execute set add = (res, d', s') →
  f s' = f s.
Proof.
  intros Hf Ht.
  apply in_transaction_cases in Ht
    as [(_ & _ & -> & _)|[(_ & _ & _ & s0 & Hs0 & ->)|(_ & _ & _ & t & r & _ & _ & ->)]].
  - reflexivity.
  - assert (f s0 = f s) as <-
      by (destruct Hs0 as [[_ ->]|(t & r & _ & _ & ->)]; [reflexivity|apply Hf]).
    destruct (rollback_fails E name d values); [reflexivity|apply Hf].
  - apply Hf.
Qed.

Lemma upsert_authors_frame E l d s res d' s' :
  upsert_authors E l d s = (res, d', s') →
  papers_failed s' = papers_failed s
  ∧ total_papers_processed s' = total_papers_processed s.
Proof.
  unfold upsert_authors. destruct l as [|a l]; [intros [= <- <- <-]; auto|].
  destruct (dedup_authors (a :: l) ≫= _) as [values|]; [|intros [= <- <- <-]; auto].
  intros Ht. split.
  - eapply (in_transaction_frame papers_failed); [|exact Ht]; intros; reflexivity.
  - eapply (in_transaction_frame total_papers_processed); [|exact Ht]; intros; reflexivity.
Qed.

Lemma upsert_paper_authors_frame E l d s res d' s' :
  upsert_paper_authors E l d s = (res, d', s') →
  papers_failed s' = papers_failed s
  ∧ total_papers_processed s' = total_papers_processed s.
Proof.
  unfold upsert_paper_authors. destruct l as [|a l]; [intros [= <- <- <-]; auto|].
  destruct (dedup_paper_authors (a :: l)) as [[[|r u] n]|];
    try (intros [= <- <- <-]; auto; fail).
  destruct (mapM _ (r :: u)) as [values|]; [|intros [= <- <- <-]; auto].
  intros Ht. split.
  - eapply (in_transaction_frame papers_failed); [|exact Ht]; intros; reflexivity.
  - eapply (in_transaction_frame total_papers_processed); [|exact Ht]; intros; reflexivity.
Qed.

Lemma upsert_papers_frame E l d s res d' s' :
  upsert_papers E l d s = (res, d', s') →
  total_papers_processed s' = total_papers_processed s
  ∧ ((res = Raise PostgresError
      ∧ (papers_failed s ≤ papers_failed s' ≤ papers_failed s + length l)%nat)
     ∨ (res ≠ Raise PostgresError ∧ papers_failed s' = papers_failed s)).
Proof.
  unfold upsert_papers. destruct l as [|a l].
  { intros [= <- <- <-]. split; [reflexivity|]. right. split; [discriminate|reflexivity]. }
  destruct (mapM _ (a :: l)) as [values|].
  2:{ intros [= <- <- <-]. split; [reflexivity|]. right. split; [discriminate|reflexivity]. }
  intros Ht. split.
  { eapply (in_transaction_frame total_papers_processed); [|exact Ht]; intros; reflexivity. }
  apply in_transaction_cases in Ht
    as [(-> & _ & -> & _)|[(-> & _ & _ & s0 & Hs0 & ->)|(-> & _ & _ & t & r & _ & _ & ->)]].
  - right. split; [discriminate|reflexivity].
  - left. split; [reflexivity|].
    assert (papers_failed s0 = papers_failed s) as Hs
      by (destruct Hs0 as [[_ ->]|(t & r & _ & _ & ->)]; simpl; lia).
    destruct (rollback_fails E Papers d values); simpl; lia.
  - right. split; [discriminate|]. simpl. lia.
Qed.

(** A record with a row has an id that the warning of [main] can read. *)
Lemma transformed_is_warned E paper row :
  transform_paper_data E paper = Some row → warn_failed paper = Some ().
Proof.
  unfold transform_paper_data. intros H.
  destruct (transform_paper_body E paper) as [r|] eqn:Hb; [|discriminate]. subst r.
  unfold transform_paper_body in Hb.
  apply bind_Some in Hb as (id_url & Hid & Hb).
  apply bind_Some in Hb as (pid & Hx & Hb).
  destruct (negb (truthy pid)) eqn:Ht; [discriminate|]. clear Hb.
  destruct paper as [| | | | | |d]; try discriminate.
  simpl in Hid. injection Hid as <-.
  unfold warn_failed. cbn [py_get_or mbind option_bind].
  destruct (dict_get d "id") as [v|]; simpl in Hx |- *.
  - rewrite Hx. reflexivity.
  - injection Hx as <-. discriminate.
Qed.

(** [process_paper] on a record with a row, stage by stage. *)
Lemma process_paper_stages E paper d s row authors_data paper_authors_data :
  transform_paper_data E paper = Some row →
  prepare paper row = Some (authors_data, paper_authors_data) →
  process_paper E paper d s
  = let '(r1, d1, s1) := upsert_authors E authors_data d s in
    match r1 with
    | Raise e => (Crashed e, d1, add_papers s1 0 0 1)
    | Ok _ =>
        let '(r2, d2, s2) := upsert_papers E [row] d1 s1 in
        match r2 with
        | Raise e => (Crashed e, d2, add_papers s2 0 0 1)
        | Ok _ =>
            let '(r3, d3, s3) := upsert_paper_authors E paper_authors_data d2 s2 in
            match r3 with
            | Raise e => (Crashed e, d3, add_papers s3 0 0 1)
            | Ok _ => (Processed, d3, add_processed s3)
            end
        end
    end.
Proof.
  intros Ht Hpr. unfold process_paper, failed. rewrite Ht, Hpr.
  rewrite authors_stage.
  destruct (upsert_authors E authors_data d s) as [[[[]|e1] d1] s1]; [|reflexivity].
  destruct (upsert_papers E [row] d1 s1) as [[[[]|e2] d2] s2]; [|reflexivity].
  rewrite paper_authors_stage. reflexivity.
Qed.

Lemma process_paper_Crashed E paper d s e d' s' :
  process_paper E paper d s = (Crashed e, d', s') →
  ∃ row, transform_paper_data E paper = Some row.
Proof.
  unfold process_paper, failed.
  destruct (transform_paper_data E paper) as [row|]; [eauto|discriminate].
Qed.

Lemma process_paper_counters E paper d s o d' s' :
  process_paper E paper d s = (o, d', s') →
  (o = Processed
   ∧ total_papers_processed s' = total_papers_processed s + 1
   ∧ papers_failed s' = papers_failed s)
  ∨ (o ≠ Processed
     ∧ total_papers_processed s' = total_papers_processed s
     ∧ papers_failed s < papers_failed s' ≤ papers_failed s + 2).
Proof.
  unfold process_paper, failed.
  destruct (transform_paper_data E paper) as [row|].
  2:{ intros [= <- <- <-]. right. simpl. split; [discriminate|]. lia. }
  destruct (prepare paper row) as [[au pas]|].
  2:{ intros [= <- <- <-]. right. simpl. split; [discriminate|]. lia. }
  rewrite authors_stage.
  destruct (upsert_authors E au d s) as [[r1 d1] s1] eqn:H1.
  apply upsert_authors_frame in H1 as [F1 T1].
  destruct r1 as [[]|e1].
  2:{ intros [= <- <- <-]. right. simpl. split; [discriminate|]. lia. }
  destruct (upsert_papers E [row] d1 s1) as [[r2 d2] s2] eqn:H2.
  apply upsert_papers_frame in H2 as [T2 F2]. simpl in F2.
  destruct r2 as [[]|e2].
  2:{ intros [= <- <- <-]. right. simpl. split; [discriminate|].
      destruct F2 as [[_ F2]|[_ F2]]; lia. }
  destruct F2 as [[F2 _]|[_ F2]]; [discriminate|].
  rewrite paper_authors_stage.
  destruct (upsert_paper_authors E pas d2 s2) as [[r3 d3] s3] eqn:H3.
  apply upsert_paper_authors_frame in H3 as [F3 T3].
  destruct r3 as [[]|e3].
  - intros [= <- <- <-]. left. simpl. split; [reflexivity|]. lia.
  - intros [= <- <- <-]. right. simpl. split; [discriminate|]. lia.
Qed.

(** ** Claim C7 *)

(** C7, as the code has it — a failed batch write.  A batch is what a
    writer sends: the rows left by its de-duplication.

    1. When the statement or the commit raises a [PostgresError] and the
       rollback succeeds, the writer raises the [PostgresError] again, the
       three tables are as they were before the batch, and the entity's
       failed count has grown by the size of the batch; after a refused
       statement no other counter has changed, after a failed commit the
       inserted and updated counts have already been raised for the rows the
       statement returned.
    2. Not every failed write is counted: when [execute_values] raises an
       exception that is not a [PostgresError] on a batch of one page,
       nothing has been sent, nothing is rolled back and no counter changes;
       when the rollback itself raises, the failed count stays as it is.
    3. In [process_paper] the exception of the first writer that raises ends
       the handler: the result is [False], the stores and counters are those
       the writer left, with [papers_failed] raised by one more, and the
       paper is not counted as processed.
    4. The loop of [main] then goes on with the remaining records. *)
Theorem write_failure_is_contained (E : Env) :
  (∀ name data batch values d s,
     sent name data = Some (batch, values) → batch ≠ [] →
     unadaptable E values = false →
     rollback_fails E name d values = false →
     (fetched E name d values = None →
      ∃ d', writer name E data d s
            = (Raise PostgresError, d', add_entity name s 0 0 (length batch))
            ∧ same_tables d d')
     ∧ (∀ results,
          fetched E name d values = Some results →
          commit_fails E name d values = true →
          ∃ d', writer name E data d s
                = (Raise PostgresError, d',
                   add_entity name
                     (add_entity name s (count_inserted results) (count_updated results) 0)
                     0 0 (length batch))
                ∧ same_tables d d'))
  ∧ (∀ name data batch values d s,
       sent name data = Some (batch, values) → batch ≠ [] →
       (unadaptable E values = true → (length values ≤ page_size)%nat →
        writer name E data d s = (Raise PyException, d, s))
       ∧ (unadaptable E values = false →
          rollback_fails E name d values = true →
          (fetched E name d values = None →
           ∃ d', writer name E data d s = (Raise PostgresError, d', s)
                 ∧ same_tables d d')
          ∧ (∀ results,
               fetched E name d values = Some results →
               commit_fails E name d values = true →
               ∃ d', writer name E data d s
                     = (Raise PostgresError, d',
                        add_entity name s (count_inserted results)
                          (count_updated results) 0)
                     ∧ same_tables d d')))
  ∧ (∀ paper row authors_data paper_authors_data d s,
       transform_paper_data E paper = Some row →
       prepare paper row = Some (authors_data, paper_authors_data) →
       (∀ e d1 s1,
          upsert_authors E authors_data d s = (Raise e, d1, s1) →
          process_paper E paper d s = (Crashed e, d1, add_papers s1 0 0 1))
       ∧ (∀ d1 s1 e d2 s2,
            upsert_authors E authors_data d s = (Ok (), d1, s1) →
            upsert_papers E [row] d1 s1 = (Raise e, d2, s2) →
            process_paper E paper d s = (Crashed e, d2, add_papers s2 0 0 1))
       ∧ (∀ d1 s1 d2 s2 e d3 s3,
            upsert_authors E authors_data d s = (Ok (), d1, s1) →
            upsert_papers E [row] d1 s1 = (Ok (), d2, s2) →
            upsert_paper_authors E paper_authors_data d2 s2 = (Raise e, d3, s3) →
            process_paper E paper d s = (Crashed e, d3, add_papers s3 0 0 1)))
  ∧ (∀ paper d s e d' s',
       process_paper E paper d s = (Crashed e, d', s') →
       success (Crashed e) = false
       ∧ papers_failed s < papers_failed s' ≤ papers_failed s + 2
       ∧ total_papers_processed s' = total_papers_processed s)
  ∧ (∀ paper rest d s e d1 s1,
       process_paper E paper d s = (Crashed e, d1, s1) →
       main_loop E (paper :: rest) d s
       = let '(r, os, d2, s2) := main_loop E rest d1 s1 in
         (r, Crashed e :: os, d2, s2)).
Proof.
  assert (Hsent : ∀ name data batch values d s,
             sent name data = Some (batch, values) → batch ≠ [] →
             writer name E data d s
             = match name with
               | Authors =>
                   in_transaction E name d s values (length batch)
                     (execute_authors E d values) set_authors add_authors
               | Papers =>
                   in_transaction E name d s values (length batch)
                     (execute_papers E d values) set_papers add_papers
               | PaperAuthors =>
                   in_transaction E name d s values (length batch)
                     (execute_paper_authors E d values) set_paper_authors
                     add_paper_authors
               end).
  { intros name data batch values d s Hs Hne. destruct name; simpl in Hs |- *.
    - apply bind_Some in Hs as (u & Hd & Hs). apply bind_Some in Hs as (v & Hv & [= <- <-]).
      unfold upsert_authors. destruct data as [|a l]; [injection Hd as <-; contradiction|].
      rewrite Hd. simpl. rewrite Hv, (length_mapM _ _ _ Hv). reflexivity.
    - apply bind_Some in Hs as (v & Hv & [= <- <-]).
      unfold upsert_papers. destruct data as [|a l]; [contradiction|].
      rewrite Hv. reflexivity.
    - apply bind_Some in Hs as ([u n] & Hd & Hs). simpl in Hs.
      apply bind_Some in Hs as (v & Hv & [= <- <-]).
      unfold upsert_paper_authors.
      destruct data as [|a l]; [injection Hd as <- <-; contradiction|].
      rewrite Hd. destruct u as [|r u]; [contradiction|].
      rewrite Hv. reflexivity. }
  split; [|split; [|split; [|split]]].
  - intros name data batch values d s Hs Hne Hun Hrb. split.
    + intros Hf. exists (tick d). rewrite (Hsent _ _ _ _ d s Hs Hne).
      split; [|repeat split].
      destruct name; simpl in Hf |- *; unfold in_transaction; rewrite Hun, Hrb;
        apply fmap_None in Hf; rewrite Hf; reflexivity.
    + intros results Hf Hc. exists (tick d). rewrite (Hsent _ _ _ _ d s Hs Hne).
      split; [|repeat split].
      destruct name; simpl in Hf |- *; unfold in_transaction; rewrite Hun, Hrb, Hc;
        apply fmap_Some in Hf as ([t r] & -> & ->); reflexivity.
  - intros name data batch values d s Hs Hne. split.
    + intros Hun _. rewrite (Hsent _ _ _ _ d s Hs Hne).
      destruct name; unfold in_transaction; rewrite Hun; reflexivity.
    + intros Hun Hrb. split.
      * intros Hf. exists (tick d). rewrite (Hsent _ _ _ _ d s Hs Hne).
        split; [|repeat split].
        destruct name; simpl in Hf |- *; unfold in_transaction; rewrite Hun, Hrb;
          apply fmap_None in Hf; rewrite Hf; reflexivity.
      * intros results Hf Hc. exists (tick d). rewrite (Hsent _ _ _ _ d s Hs Hne).
        split; [|repeat split].
        destruct name; simpl in Hf |- *; unfold in_transaction; rewrite Hun, Hrb, Hc;
          apply fmap_Some in Hf as ([t r] & -> & ->); reflexivity.
  - intros paper row au pas d s Ht Hpr.
    pose proof (process_paper_stages E paper d s row au pas Ht Hpr) as Hp.
    split; [|split].
    + intros e d1 s1 H1. rewrite Hp, H1. reflexivity.
    + intros d1 s1 e d2 s2 H1 H2. rewrite Hp, H1, H2. reflexivity.
    + intros d1 s1 d2 s2 e d3 s3 H1 H2 H3. rewrite Hp, H1, H2, H3. reflexivity.
  - intros paper d s e d' s' Hp. split; [reflexivity|].
    apply process_paper_counters in Hp as [(Hpr & _)|(_ & T & F)]; [discriminate|].
    split; [exact F|exact T].
  - intros paper rest d s e d1 s1 Hp. cbn [main_loop]. rewrite Hp.
    apply process_paper_Crashed in Hp as [row Ht].
    cbn [success]. rewrite (transformed_is_warned _ _ _ Ht). reflexivity.
Qed.

(** C7, as stated, fails: under a driver that refuses NUL characters the
    write of the two author rows of [nul_named] fails, and neither the
    writer nor the handler raises [authors_failed]; the handler counts the
    paper as failed. *)
Lemma unadapted_batch_is_not_counted :
  sent Authors nul_authors ≫= (fun b => Some (length (fst b))) = Some 2
  ∧ upsert_authors nul_averse nul_authors empty_db new_stats
    = (Raise PyException, empty_db, new_stats)
  ∧ ∃ s', process_paper nul_averse nul_named empty_db new_stats
          = (Crashed PyException, empty_db, s')
          ∧ authors_failed s' = 0 ∧ papers_failed s' = 1.
Proof.
  split; [vm_compute; reflexivity|]. split; [vm_compute; reflexivity|].
  eexists. split; [vm_compute; reflexivity|]. split; reflexivity.
Qed.


(** ** Claim C10 *)

(** C10 — [author_count].  For every record the normaliser accepts, the
    row's [author_count] is the number of authorship sub-records present on
    the raw record, repeated listings and sub-records without an author id
    included.  It can therefore exceed the number of authorship rows stored
    for the paper: the record [listed_twice] has three sub-records and leaves
    one authorship row. *)
Theorem author_count_counts_subrecords :
  (∀ E paper row,
     transform_paper_data E paper = Some row →
     ∃ d, paper = PDict d
          ∧ row_get row "author_count"
            = Some (PInt (Z.of_nat (length (authorship_records d)))))
  ∧ (transform_paper_data permissive listed_twice ≫= (fun row => row_get row "author_count")
     = Some (PInt 3)
     ∧ ∃ d' s', process_paper permissive listed_twice empty_db new_stats
                = (Processed, d', s')
                ∧ size (db_paper_authors d') = 1).
Proof.
  split.
  - intros E paper row Ht.
    apply transform_paper_data_inv in Ht as (d & au & -> & Hi & Hn & Hc & _).
    exists d. split; [reflexivity|].
    rewrite <- (authorships_are_records d au Hi Hn). exact Hc.
  - split; [vm_compute; reflexivity|].
    destruct (process_paper permissive listed_twice empty_db new_stats)
      as [[o d'] s'] eqn:Hp.
    exists d', s'. vm_compute in Hp. injection Hp as <- <- <-.
    split; [reflexivity|vm_compute; reflexivity].
Qed.

Lemma stored_id_PStr c r k :
  stored_id c r = Some k → row_get r c = Some (PStr k).
Proof.
  unfold stored_id. intros (v & Hv & Hs)%bind_Some.
  destruct v; try discriminate. injection Hs as ->. exact Hv.
Qed.

(** The id of an accepted record is the one extracted from it. *)
Lemma transform_paper_data_id E paper row :
  transform_paper_data E paper = Some row →
  ∃ id, extracted_id paper = Some id ∧ truthy id = true
        ∧ row_get row "paper_id" = Some id.
Proof.
  unfold transform_paper_data. intros H.
  destruct (transform_paper_body E paper) as [r|] eqn:Hb; [|discriminate]. subst r.
  unfold transform_paper_body in Hb.
  apply bind_Some in Hb as (id_url & Hid & Hb).
  apply bind_Some in Hb as (pid & Hx & Hb).
  destruct (negb (truthy pid)) eqn:Ht; [discriminate|].
  exists pid. split; [unfold extracted_id; rewrite Hid; exact Hx|].
  split; [destruct (truthy pid); [reflexivity|discriminate]|].
  cbv zeta in Hb. open_chain Hb. injection Hb as <-. reflexivity.
Qed.

(** The paper row a processed record leaves in the store. *)
Lemma processed_paper_row E paper d s d' s' row k :
  transform_paper_data E paper = Some row →
  process_paper E paper d s = (Processed, d', s') →
  row_get row "paper_id" = Some (PStr k) →
  ∃ new n,
    db_papers d' !! k = Some (new, n)
    ∧ ∀ c, policy_of papers_columns c = Some Overwrite →
           row_get row c = Some (column papers_columns c new).
Proof.
  intros Ht Hp Hk.
  apply process_paper_Processed in Hp
    as (row' & au & pa & d1 & s1 & d2 & s2 & s3 & Ht' & _ & _ & H2 & H3 & _).
  rewrite Ht in Ht'. injection Ht' as <-.
  apply upsert_paper_authors_inv in H3 as (_ & Hsame & _).
  apply upsert_papers_inv in H2
    as (_ & _ & [[_ Hnil]|(_ & batch & t & flags & HF & Hu & -> & _)]).
  { destruct (Hnil eq_refl) as (Hn & _). discriminate. }
  assert (Hid : stored_id "paper_id" row = Some k)
    by (unfold stored_id; rewrite Hk; reflexivity).
  assert (Hl : last_with (stored_id "paper_id") k [row] = Some row).
  { rewrite last_with_cons. simpl. rewrite decide_True by exact Hid. reflexivity. }
  destruct (overwrite_after _ _ _ _ _ _ _ _ k row HF Hu Hl)
    as (new & n & Hnew & Hcols).
  exists new, n. split; [rewrite Hsame; exact Hnew|exact Hcols].
Qed.

(** ** Claim C9 *)

(** C9, as the code has it — the two counts are passed through.  For every
    record the normaliser accepts, the row's [cited_by_count] and
    [referenced_works_count] are the raw record's values for those keys as
    they are (0 when the key is absent).  When the record's id is a string
    and the two values are integers, of whatever sign, they are the
    integers that the stored row holds once the paper is processed.  Nothing
    on the path makes them non-negative. *)
Theorem counts_pass_through (E : Env) paper row :
  transform_paper_data E paper = Some row →
  ∃ d, paper = PDict d
       ∧ row_get row "cited_by_count"
         = Some (default (PInt 0) (dict_get d "cited_by_count"))
       ∧ row_get row "referenced_works_count"
         = Some (default (PInt 0) (dict_get d "referenced_works_count"))
       ∧ ∀ k cited referenced db s db' s',
           extracted_id paper = Some (PStr k) →
           default (PInt 0) (dict_get d "cited_by_count") = PInt cited →
           default (PInt 0) (dict_get d "referenced_works_count") = PInt referenced →
           process_paper E paper db s = (Processed, db', s') →
           ∃ new n,
             db_papers db' !! k = Some (new, n)
             ∧ column papers_columns "cited_by_count" new = PInt cited
             ∧ column papers_columns "referenced_works_count" new = PInt referenced.
Proof.
  intros Ht.
  destruct (transform_paper_data_inv _ _ _ Ht) as (d & au & -> & _ & _ & _ & Hc & Hr).
  exists d. split; [reflexivity|]. split; [exact Hc|]. split; [exact Hr|].
  intros k cited referenced db s db' s' Hid Hcited Hreferenced Hp.
  destruct (transform_paper_data_id _ _ _ Ht) as (id & Hid' & _ & Hrow).
  rewrite Hid in Hid'. injection Hid' as <-.
  destruct (processed_paper_row _ _ _ _ _ _ _ _ Ht Hp Hrow) as (new & n & Hnew & Hcols).
  exists new, n. split; [exact Hnew|].
  pose proof (Hcols "cited_by_count" eq_refl) as H1.
  pose proof (Hcols "referenced_works_count" eq_refl) as H2.
  rewrite Hc, Hcited in H1. rewrite Hr, Hreferenced in H2. split; congruence.
Qed.

(** C9, as stated, fails: the record [negative_cited] is accepted, and the
    paper row it leaves in an empty store has [cited_by_count = -5]. *)
Lemma negative_count_is_persisted :
  (transform_paper_data permissive negative_cited ≫= fun row => row_get row "cited_by_count")
  = Some (PInt (-5))
  ∧ ∃ d' s',
      process_paper permissive negative_cited empty_db new_stats = (Processed, d', s')
      ∧ (fun stored => column papers_columns "cited_by_count" (fst stored))
          <$> db_papers d' !! "W1"
        = Some (PInt (-5)).
Proof.
  split; [vm_compute; reflexivity|].
  destruct (process_paper permissive negative_cited empty_db new_stats)
    as [[o d'] s'] eqn:Hp.
  exists d', s'. vm_compute in Hp. injection Hp as <- <- <-.
  split; [reflexivity|vm_compute; reflexivity].
Qed.

(** ** Claim C6 *)



(** ** The quality runner *)

Section RunnerFacts.
Import Quality.
Variable conn : Type.
Variable run_query : conn → string → conn * answer.
Variable continue_on_failure : bool.

Lemma record_answer_sound name cat desc a :
  sound (record_answer (fresh name cat desc) a).
Proof.
  unfold sound, record_answer. destruct a as [t [msg|[count samples]]]; simpl.
  - split; [discriminate|]. intros [? _]. discriminate.
  - rewrite Z.eqb_eq. tauto.
Qed.

Lemma run_queries_sound cat info c i queries :
  Forall sound (snd (run_queries conn run_query continue_on_failure cat info c i queries)).
Proof.
  revert c i. induction queries as [|q queries IH]; intros c i; simpl; [constructor|].
  destruct (blank q); [apply IH|].
  destruct (describe cat info i) as [name desc].
  destruct (run_query c q) as [c1 a].
  pose proof (record_answer_sound name cat desc a) as Hs.
  destruct (negb (passed _) && negb continue_on_failure).
  - simpl. constructor; [exact Hs|constructor].
  - specialize (IH c1 (S i)).
    destruct (run_queries conn run_query continue_on_failure cat info c1 (S i) queries).
    simpl in *. constructor; assumption.
Qed.

Lemma run_categories_sound c cats :
  Forall sound (run_categories conn run_query continue_on_failure c cats).
Proof.
  revert c. induction cats as [|[cat file] cats IH]; intros c; simpl; [constructor|].
  unfold run_test_category.
  pose proof (run_queries_sound cat (snd file) c 0 (fst file)) as Hq.
  destruct (run_queries conn run_query continue_on_failure cat (snd file) c 0 (fst file))
    as [c1 results].
  apply Forall_app. split; [exact Hq|apply IH].
Qed.

Lemma group_add_members r groups :
  flat_map snd (group_add r groups) ≡ₚ (flat_map snd groups ++ [r])%list.
Proof.
  induction groups as [|[cat rs] groups IH]; simpl; [reflexivity|].
  destruct (String.eqb cat (category r)); simpl.
  - rewrite <- !app_assoc. apply Permutation_app_head, Permutation_app_comm.
  - rewrite IH, app_assoc. reflexivity.
Qed.

Lemma group_by_category_members results :
  flat_map snd (group_by_category results) ≡ₚ results.
Proof.
  unfold group_by_category.
  assert (∀ acc, flat_map snd (fold_left (fun groups r => group_add r groups) results acc)
                 ≡ₚ (flat_map snd acc ++ results)%list) as Hgen.
  { induction results as [|r results IH]; intros acc; simpl.
    - rewrite app_nil_r. reflexivity.
    - rewrite IH, group_add_members, <- app_assoc. reflexivity. }
  apply (Hgen []).
Qed.

Lemma report_entries results :
  flat_map s_entries (sections (generate_report results)) ≡ₚ map entry_of results.
Proof.
  unfold generate_report; simpl.
  rewrite <- (group_by_category_members results) at 2.
  induction (group_by_category results) as [|g gs IH]; simpl; [reflexivity|].
  rewrite map_app, IH. reflexivity.
Qed.

End RunnerFacts.

(** ** Claim C8 *)

(** C8, as the code has it — the quality run.  A check is marked passed if
    and only if its query ran without an error and returned a failure count
    of zero (a query that raises leaves the count at zero and the check
    failed).  With a connection, the result of the run is the conjunction of
    the pass flags of the checks that ran, and the report holds one entry
    for each of them, passed or failed, with its status, failure count and
    execution time. *)
Theorem quality_run_reports_every_check
    (conn : Type) (run_query : conn → string → conn * Quality.answer)
    (continue_on_failure : bool) (c : conn)
    (cats : list (string * (list string * list (string * string)))) :
  let results := Quality.run_categories conn run_query continue_on_failure c cats in
  Forall (fun r => Quality.passed r = true
                   ↔ Quality.error_message r = None ∧ Quality.failure_count r = 0%Z)
         results
  ∧ Quality.run_all_tests conn run_query continue_on_failure (Some c) cats
    = (forallb Quality.passed results, results, Some (Quality.generate_report results))
  ∧ flat_map Quality.s_entries (Quality.sections (Quality.generate_report results))
    ≡ₚ map Quality.entry_of results
  ∧ ∀ r, Quality.e_issues (Quality.entry_of r) = Quality.failure_count r
         ∧ Quality.e_time (Quality.entry_of r) = Quality.execution_time r
         ∧ Quality.e_status (Quality.entry_of r)
           = if Quality.passed r then "PASS" else "FAIL".
Proof.
  intros results. split; [|split; [|split]].
  - apply run_categories_sound.
  - reflexivity.
  - apply report_entries.
  - intros r. repeat split.
Qed.

(** C8, as stated, fails: a check whose query raises has a failure count of
    zero and is not passed. *)
Lemma query_error_has_zero_count :
  map (fun r => (Quality.passed r, Quality.failure_count r, Quality.error_message r))
      (Quality.run_categories unit Quality.broken_query true tt Quality.one_check)
  = [(false, 0%Z, Some "relation papers does not exist")].
Proof. vm_compute. reflexivity. Qed.

(** ** A run as a list of batches *)

Lemma count_inserted_updates flags :
  Forall (fun b => b = false) flags → count_inserted (last_page flags) = 0.
Proof.
  intros HF. unfold count_inserted, last_page.
  assert (Forall (fun b => b = false) (drop (page_size * ((length flags - 1) / page_size)) flags))
    as HF' by (apply Forall_drop, HF).
  induction HF' as [|b l -> _ IH]; [reflexivity|].
  rewrite filter_cons. simpl. exact IH.
Qed.

Lemma all_stored_flags `{Countable K} pol now (t : gmap K (tuple * nat)) batch t' flags :
  upsert_rows pol now t batch = (t', flags) →
  all_stored t batch → count_inserted (last_page flags) = 0.
Proof.
  intros Hu Hs. apply count_inserted_updates.
  pose proof (upsert_rows_all_updates pol now t batch Hs) as HF.
  rewrite Hu in HF. exact HF.
Qed.

Ltac plan_of_batch Hb Hun execute feeds_ok :=
  let Ht := fresh "Ht" in
  let Hne := fresh "Hne" in
  let Hex := fresh "Hex" in
  let Hu := fresh "Hu" in
  let Hs := fresh "Hs" in
  intros ? ? ? ? ? Ht Hne;
  apply in_transaction_cases in Ht
    as [(-> & _ & _ & Ht)|[(-> & _)|(-> & _ & _ & ? & ? & Hex & -> & ->)]];
  [congruence|contradiction|];
  unfold execute in Hex; rewrite Hb in Hex; simpl in Hex;
  match type of Hex with
  | (if ?c then _ else _) = _ => destruct c; [discriminate|]
  end;
  match type of Hex with
  | (let '(_, _) := ?u in _) = _ => destruct u as [? ?] eqn:Hu
  end;
  injection Hex as <- <-; simpl;
  split; [reflexivity|]; split;
  [ erewrite <- upsert_rows_rows; rewrite Hu; reflexivity |];
  split; [reflexivity|]; split; [reflexivity|];
  intros Hs; unfold inserted; simpl;
  rewrite (all_stored_flags _ _ _ _ _ _ Hu Hs); repeat f_equal; lia.

Ltac plan_without_batch :=
  let Ht := fresh "Ht" in
  intros ? ? ? ? ? Ht ?;
  apply in_transaction_cases in Ht
    as [(-> & -> & -> & _)|[(-> & _)|(-> & ? & _)]];
  [auto|contradiction|congruence].

Lemma upsert_authors_plan E l :
  ∃ (batch : list (string * tuple)) (r0 : result unit),
    well_sized authors_columns batch
    ∧ ∀ d s res d' s',
        upsert_authors E l d s = (res, d', s') → res ≠ Raise PostgresError →
        res = r0
        ∧ rows (db_authors d')
          = merge_rows (policies authors_columns) (rows (db_authors d)) batch
        ∧ db_papers d' = db_papers d ∧ db_paper_authors d' = db_paper_authors d
        ∧ (all_stored (db_authors d) batch → inserted s' = inserted s).
Proof.
  unfold upsert_authors. destruct l as [|a l].
  { exists [], (Ok ()). split; [constructor|]. intros d s res d' s' [= <- <- <-] _. auto. }
  destruct (dedup_authors (a :: l) ≫= mapM (values_of authors_columns))
    as [values|] eqn:Hpure.
  2:{ exists [], (Raise PyException). split; [constructor|].
      intros d s res d' s' [= <- <- <-] _. auto. }
  apply bind_Some in Hpure as (u & Hd & Hv).
  destruct (unadaptable E values) eqn:Hun.
  { exists [], (Raise PyException). split; [constructor|]. plan_without_batch. }
  destruct (with_keys key1 values) as [batch|] eqn:Hb.
  2:{ exists [], (Ok ()). split; [constructor|].
      intros d s res d' s' Ht Hne.
      apply in_transaction_cases in Ht
        as [(-> & _ & _ & Ht)|[(-> & _)|(-> & _ & _ & ? & ? & Hex & _)]];
        [congruence|contradiction|].
      unfold execute_authors in Hex. rewrite Hb in Hex. discriminate. }
  exists batch, (Ok ()). split.
  { eapply (feeds_lengths authors_columns (stored_id "author_id")), keyed_feeds;
      eauto using key1_authors. }
  plan_of_batch Hb Hun execute_authors tt.
Qed.

Lemma upsert_papers_plan E l :
  ∃ (batch : list (string * tuple)) (r0 : result unit),
    well_sized papers_columns batch
    ∧ ∀ d s res d' s',
        upsert_papers E l d s = (res, d', s') → res ≠ Raise PostgresError →
        res = r0
        ∧ rows (db_papers d')
          = merge_rows (policies papers_columns) (rows (db_papers d)) batch
        ∧ db_authors d' = db_authors d ∧ db_paper_authors d' = db_paper_authors d
        ∧ (all_stored (db_papers d) batch → inserted s' = inserted s).
Proof.
  unfold upsert_papers. destruct l as [|a l].
  { exists [], (Ok ()). split; [constructor|]. intros d s res d' s' [= <- <- <-] _. auto. }
  destruct (mapM (values_of papers_columns) (a :: l)) as [values|] eqn:Hv.
  2:{ exists [], (Raise PyException). split; [constructor|].
      intros d s res d' s' [= <- <- <-] _. auto. }
  destruct (unadaptable E values) eqn:Hun.
  { exists [], (Raise PyException). split; [constructor|]. plan_without_batch. }
  destruct (with_keys key1 values) as [batch|] eqn:Hb.
  2:{ exists [], (Ok ()). split; [constructor|].
      intros d s res d' s' Ht Hne.
      apply in_transaction_cases in Ht
        as [(-> & _ & _ & Ht)|[(-> & _)|(-> & _ & _ & ? & ? & Hex & _)]];
        [congruence|contradiction|].
      unfold execute_papers in Hex. rewrite Hb in Hex. discriminate. }
  exists batch, (Ok ()). split.
  { eapply (feeds_lengths papers_columns (stored_id "paper_id")), keyed_feeds;
      eauto using key1_papers. }
  plan_of_batch Hb Hun execute_papers tt.
Qed.

Lemma upsert_paper_authors_plan E l :
  ∃ (batch : list (string * string * tuple)) (r0 : result unit),
    well_sized paper_authors_columns batch
    ∧ ∀ d s res d' s',
        upsert_paper_authors E l d s = (res, d', s') → res ≠ Raise PostgresError →
        res = r0
        ∧ rows (db_paper_authors d')
          = merge_rows (policies paper_authors_columns) (rows (db_paper_authors d)) batch
        ∧ db_authors d' = db_authors d ∧ db_papers d' = db_papers d
        ∧ (all_stored (db_paper_authors d) batch → inserted s' = inserted s).
Proof.
  unfold upsert_paper_authors. destruct l as [|a l].
  { exists [], (Ok ()). split; [constructor|]. intros d s res d' s' [= <- <- <-] _. auto. }
  destruct (dedup_paper_authors (a :: l)) as [[u n]|] eqn:Hd.
  2:{ exists [], (Raise PyException). split; [constructor|].
      intros d s res d' s' [= <- <- <-] _. auto. }
  destruct u as [|r u].
  { exists [], (Ok ()). split; [constructor|]. intros d s res d' s' [= <- <- <-] _. auto. }
  destruct (mapM (values_of paper_authors_columns) (r :: u)) as [values|] eqn:Hv.
  2:{ exists [], (Raise PyException). split; [constructor|].
      intros d s res d' s' [= <- <- <-] _. auto. }
  destruct (unadaptable E values) eqn:Hun.
  { exists [], (Raise PyException). split; [constructor|]. plan_without_batch. }
  destruct (with_keys key2 values) as [batch|] eqn:Hb.
  2:{ exists [], (Ok ()). split; [constructor|].
      intros d s res d' s' Ht Hne.
      apply in_transaction_cases in Ht
        as [(-> & _ & _ & Ht)|[(-> & _)|(-> & _ & _ & ? & ? & Hex & _)]];
        [congruence|contradiction|].
      unfold execute_paper_authors in Hex. rewrite Hb in Hex. discriminate. }
  exists batch, (Ok ()). split.
  { eapply (feeds_lengths paper_authors_columns stored_pair), keyed_feeds;
      eauto using key2_paper_authors. }
  plan_of_batch Hb Hun execute_paper_authors tt.
Qed.

Lemma inserted_failed s : inserted (add_papers s 0 0 1) = inserted s.
Proof. unfold inserted; simpl. rewrite Nat.add_0_r. reflexivity. Qed.

Lemma process_paper_plan E paper :
  ∃ ba bp bpa,
    (well_sized authors_columns ba ∧ well_sized papers_columns bp
     ∧ well_sized paper_authors_columns bpa)
    ∧ ∀ d s o d' s',
        process_paper E paper d s = (o, d', s') → o ≠ Crashed PostgresError →
        follows_plan ba bp bpa d d' s s'.
Proof.
  unfold process_paper, failed.
  destruct (transform_paper_data E paper) as [row|].
  2:{ exists [], [], []. split; [repeat split; constructor|].
      intros d s o d' s' [= <- <- <-] _. unfold follows_plan.
      repeat split; auto using inserted_failed. }
  destruct (prepare paper row) as [[authors_data paper_authors_data]|].
  2:{ exists [], [], []. split; [repeat split; constructor|].
      intros d s o d' s' [= <- <- <-] _. unfold follows_plan.
      repeat split; auto using inserted_failed. }
  destruct (upsert_authors_plan E authors_data) as (ba & ra & Wa & Ha).
  destruct (upsert_papers_plan E [row]) as (bp & rp & Wp & Hp).
  destruct (upsert_paper_authors_plan E paper_authors_data) as (bpa & rpa & Wpa & Hpa).
  destruct ra as [[]|ea].
  2:{ exists ba, [], []. split; [repeat split; try constructor; exact Wa|].
      intros d s o d' s'. rewrite authors_stage.
      destruct (upsert_authors E authors_data d s) as [[r1 d1] s1] eqn:H1.
      destruct r1 as [[]|[|]].
      - intros _ _. apply Ha in H1 as [Hr _]; discriminate.
      - intros [= <- <- <-] Hne. contradiction.
      - intros [= <- <- <-] _.
        apply Ha in H1 as (_ & Hrows & Hpp & Hpa' & Hins); [|discriminate].
        unfold follows_plan. rewrite Hpp, Hpa'. repeat split; try assumption.
        intros Hs _ _. rewrite inserted_failed. apply Hins, Hs. }
  destruct rp as [[]|ep].
  2:{ exists ba, bp, []. split; [repeat split; try constructor; assumption|].
      intros d s o d' s'. rewrite authors_stage.
      destruct (upsert_authors E authors_data d s) as [[r1 d1] s1] eqn:H1.
      destruct r1 as [[]|[|]].
      2:{ intros [= <- <- <-] Hne. contradiction. }
      2:{ intros _ _. apply Ha in H1 as [Hr _]; discriminate. }
      apply Ha in H1 as (_ & Hrows1 & Hp1 & Hpa1 & Hins1); [|discriminate].
      destruct (upsert_papers E [row] d1 s1) as [[r2 d2] s2] eqn:H2.
      destruct r2 as [[]|[|]].
      - intros _ _. apply Hp in H2 as [Hr _]; discriminate.
      - intros [= <- <- <-] Hne. contradiction.
      - intros [= <- <- <-] _.
        apply Hp in H2 as (_ & Hrows2 & Ha2 & Hpa2 & Hins2); [|discriminate].
        unfold follows_plan. rewrite Ha2, Hpa2, Hpa1, Hrows2, Hp1.
        repeat split; try assumption.
        intros Hsa Hsp _. rewrite inserted_failed, Hins2, Hins1; auto.
        rewrite Hp1. exact Hsp. }
  exists ba, bp, bpa. split; [repeat split; assumption|].
  intros d s o d' s'. rewrite authors_stage.
  destruct (upsert_authors E authors_data d s) as [[r1 d1] s1] eqn:H1.
  destruct r1 as [[]|[|]].
  2:{ intros [= <- <- <-] Hne. contradiction. }
  2:{ intros _ _. apply Ha in H1 as [Hr _]; discriminate. }
  apply Ha in H1 as (_ & Hrows1 & Hp1 & Hpa1 & Hins1); [|discriminate].
  destruct (upsert_papers E [row] d1 s1) as [[r2 d2] s2] eqn:H2.
  destruct r2 as [[]|[|]].
  2:{ intros [= <- <- <-] Hne. contradiction. }
  2:{ intros _ _. apply Hp in H2 as [Hr _]; discriminate. }
  apply Hp in H2 as (_ & Hrows2 & Ha2 & Hpa2 & Hins2); [|discriminate].
  rewrite paper_authors_stage.
  destruct (upsert_paper_authors E paper_authors_data d2 s2) as [[r3 d3] s3] eqn:H3.
  assert (Hfinal : r3 ≠ Raise PostgresError →
                   follows_plan ba bp bpa d d3 s s3).
  { intros Hne. apply Hpa in H3 as (_ & Hrows3 & Ha3 & Hp3 & Hins3); [|exact Hne].
    unfold follows_plan. rewrite Ha3, Hp3, Hrows3, Ha2, Hrows2, Hpa2, Hpa1, Hp1.
    repeat split; try assumption.
    intros Hsa Hsp Hspa. rewrite Hins3, Hins2, Hins1; auto.
    - rewrite Hp1. exact Hsp.
    - rewrite Hpa2, Hpa1. exact Hspa. }
  destruct r3 as [[]|[|]].
  - intros [= <- <- <-] _. destruct Hfinal as (? & ? & ? & Hins); [discriminate|].
    unfold follows_plan. repeat split; try assumption.
  - intros [= <- <- <-] Hne. contradiction.
  - intros [= <- <- <-] _. destruct Hfinal as (? & ? & ? & Hins); [discriminate|].
    unfold follows_plan. repeat split; try assumption.
    intros. rewrite inserted_failed. auto.
Qed.

Lemma rows_is_Some `{Countable K} (t : gmap K (tuple * nat)) k :
  is_Some (rows t !! k) ↔ is_Some (t !! k).
Proof. unfold rows. rewrite lookup_fmap. apply fmap_is_Some. Qed.

Lemma all_stored_grows `{Countable K} pol (t t' : gmap K (tuple * nat)) b batch :
  rows t' = merge_rows pol (rows t) b → all_stored t batch → all_stored t' batch.
Proof.
  intros Hr Hall. unfold all_stored in *. eapply Forall_impl; [exact Hall|].
  intros kv Hs. simpl in *.
  apply rows_is_Some. rewrite Hr. apply merge_rows_keeps, rows_is_Some, Hs.
Qed.

Lemma all_stored_after `{Countable K} pol (t t' : gmap K (tuple * nat)) batch :
  rows t' = merge_rows pol (rows t) batch → all_stored t' batch.
Proof.
  intros Hr. unfold all_stored. apply Forall_forall. intros [k v] Hin.
  apply rows_is_Some. rewrite Hr. eapply merge_rows_stores, Hin.
Qed.

Lemma follows_plan_app a1 p1 pa1 a2 p2 pa2 d d1 d2 s s1 s2 :
  follows_plan a1 p1 pa1 d d1 s s1 →
  follows_plan a2 p2 pa2 d1 d2 s1 s2 →
  follows_plan (a1 ++ a2) (p1 ++ p2) (pa1 ++ pa2) d d2 s s2.
Proof.
  intros (Ha1 & Hp1 & Hpa1 & Hi1) (Ha2 & Hp2 & Hpa2 & Hi2).
  unfold follows_plan. rewrite !merge_rows_app, <- Ha1, <- Hp1, <- Hpa1.
  repeat split; try assumption.
  unfold all_stored. rewrite !Forall_app. intros [Sa1 Sa2] [Sp1 Sp2] [Spa1 Spa2].
  rewrite Hi2, Hi1; eauto using all_stored_grows.
Qed.

Lemma load_plan E papers :
  ∃ ba bp bpa,
    (well_sized authors_columns ba ∧ well_sized papers_columns bp
     ∧ well_sized paper_authors_columns bpa)
    ∧ ∀ d s os d' s',
        load E papers d s = (os, d', s') → no_write_error os →
        follows_plan ba bp bpa d d' s s'.
Proof.
  induction papers as [|paper rest IH].
  - exists [], [], []. split; [repeat split; constructor|].
    intros d s os d' s' [= <- <- <-] _. unfold follows_plan. repeat split; auto.
  - destruct (process_paper_plan E paper) as (a1 & p1 & pa1 & (Wa1 & Wp1 & Wpa1) & H1).
    destruct IH as (a2 & p2 & pa2 & (Wa2 & Wp2 & Wpa2) & H2).
    exists (a1 ++ a2)%list, (p1 ++ p2)%list, (pa1 ++ pa2)%list.
    split; [unfold well_sized in *; rewrite !Forall_app; auto|].
    intros d s os d' s'. simpl.
    destruct (process_paper E paper d s) as [[o d1] s1] eqn:Hp.
    destruct (load E rest d1 s1) as [[os' d2] s2] eqn:Hl.
    intros [= <- <- <-] Hok. unfold no_write_error in Hok.
    apply not_elem_of_cons in Hok as [Hne Hok].
    eapply follows_plan_app; [eapply H1|eapply H2]; eauto.
Qed.

(** ** Claim C1 *)

(** C1, as the code has it — re-running the load.  When no batch write is
    refused in either run, running the load a second time on the same input
    inserts no row into any of the three tables, and leaves every row of the
    three tables with the values it had after the first run (the time stamps
    aside). *)
Theorem load_twice_is_idempotent (E : Env) papers d0 s0 os1 d1 s1 s os2 d2 s2 :
  load E papers d0 s0 = (os1, d1, s1) →
  load E papers d1 s = (os2, d2, s2) →
  no_write_error os1 → no_write_error os2 →
  authors_inserted s2 = authors_inserted s
  ∧ papers_inserted s2 = papers_inserted s
  ∧ paper_authors_inserted s2 = paper_authors_inserted s
  ∧ rows (db_authors d2) = rows (db_authors d1)
  ∧ rows (db_papers d2) = rows (db_papers d1)
  ∧ rows (db_paper_authors d2) = rows (db_paper_authors d1).
Proof.
  intros L1 L2 Ok1 Ok2.
  destruct (load_plan E papers) as (ba & bp & bpa & (Wa & Wp & Wpa) & Hplan).
  destruct (Hplan _ _ _ _ _ L1 Ok1) as (Ra1 & Rp1 & Rpa1 & _).
  destruct (Hplan _ _ _ _ _ L2 Ok2) as (Ra2 & Rp2 & Rpa2 & Hins).
  assert (Hi : inserted s2 = inserted s)
    by (apply Hins; eapply all_stored_after; eassumption).
  unfold inserted in Hi. injection Hi as -> -> ->.
  repeat split.
  - rewrite Ra2, Ra1. apply merge_rows_idem, Wa.
  - rewrite Rp2, Rp1. apply merge_rows_idem, Wp.
  - rewrite Rpa2, Rpa1. apply merge_rows_idem, Wpa.
Qed.

(** C1, as stated, fails.  Against a store that keeps DOIs unique, the batch
    [doi_shuffle] loaded into an empty store leaves W2 out in the first run
    (its DOI is held by W1 at that moment); the second run on the same batch
    inserts W2, and leaves W3 with another DOI than the first run did. *)
Lemma second_run_inserts_after_conflict :
  papers_inserted (snd shuffle_run2) = 1
  ∧ stored_doi (snd (fst shuffle_run1)) "W2" = None
  ∧ stored_doi (snd (fst shuffle_run2)) "W2" = Some (PStr "d")
  ∧ stored_doi (snd (fst shuffle_run1)) "W3" = Some (PStr "d")
  ∧ stored_doi (snd (fst shuffle_run2)) "W3" = Some (PStr "z").
Proof. vm_compute. repeat split. Qed.

(** * Instances of the theorems on the sample records *)

Lemma load_twice_is_idempotent_witness :
  no_write_error (fst (fst demo_run1))
  ∧ no_write_error (fst (fst demo_run2))
  ∧ authors_inserted (snd demo_run2) = authors_inserted new_stats
  ∧ papers_inserted (snd demo_run2) = papers_inserted new_stats
  ∧ paper_authors_inserted (snd demo_run2) = paper_authors_inserted new_stats
  ∧ rows (db_authors (snd (fst demo_run2))) = rows (db_authors (snd (fst demo_run1)))
  ∧ rows (db_papers (snd (fst demo_run2))) = rows (db_papers (snd (fst demo_run1)))
  ∧ rows (db_paper_authors (snd (fst demo_run2)))
    = rows (db_paper_authors (snd (fst demo_run1))).
Proof.
  assert (L1 : load permissive [listed_twice] empty_db new_stats
               = (fst (fst demo_run1), snd (fst demo_run1), snd demo_run1))
    by (unfold demo_run1; destruct (load _ _ _ _) as [[? ?] ?]; reflexivity).
  assert (L2 : load permissive [listed_twice] (snd (fst demo_run1)) new_stats
               = (fst (fst demo_run2), snd (fst demo_run2), snd demo_run2))
    by (unfold demo_run2; destruct (load _ _ _ _) as [[? ?] ?]; reflexivity).
  assert (Ok1 : no_write_error (fst (fst demo_run1)))
    by (apply (bool_decide_eq_true_1 (no_write_error (fst (fst demo_run1))));
        vm_compute; reflexivity).
  assert (Ok2 : no_write_error (fst (fst demo_run2)))
    by (apply (bool_decide_eq_true_1 (no_write_error (fst (fst demo_run2))));
        vm_compute; reflexivity).
  split; [exact Ok1|]. split; [exact Ok2|].
  exact (load_twice_is_idempotent permissive _ _ _ _ _ _ _ _ _ _ L1 L2 Ok1 Ok2).
Defined.

Lemma author_dedup_last_wins_witness :
  dedup_authors (fst demo_rows) = Some demo_unique
  ∧ demo_survivor ∈ demo_unique
  ∧ ∃ k, author_key demo_survivor = Some k
         ∧ last_with author_key k (fst demo_rows) = Some demo_survivor.
Proof.
  assert (H1 : dedup_authors (fst demo_rows) = Some demo_unique)
    by (vm_compute; reflexivity).
  assert (H2 : demo_survivor ∈ demo_unique) by (vm_compute; constructor).
  split; [exact H1|]. split; [exact H2|].
  exact (proj1 (proj2 (proj2 (author_dedup_last_wins (fst demo_rows)) _ H1)) _ H2).
Defined.

Lemma authorship_dedup_first_wins_witness :
  dedup_paper_authors (snd demo_rows) = Some (fst demo_links, snd demo_links)
  ∧ demo_link ∈ fst demo_links
  ∧ ∃ k, paper_author_key demo_link = Some k
         ∧ first_with paper_author_key k (snd demo_rows) = Some demo_link.
Proof.
  assert (H1 : dedup_paper_authors (snd demo_rows) = Some (fst demo_links, snd demo_links))
    by (vm_compute; reflexivity).
  assert (H2 : demo_link ∈ fst demo_links) by (vm_compute; constructor).
  split; [exact H1|]. split; [exact H2|].
  exact (proj1 (proj2 (proj1 (proj2 (authorship_dedup_first_wins (snd demo_rows)))
                         _ _ H1)) _ H2).
Defined.


Lemma write_failure_is_contained_witness :
  sent Papers [demo_row] = Some ([demo_row], demo_values)
  ∧ [demo_row] ≠ []
  ∧ unadaptable rejecting demo_values = false
  ∧ rollback_fails rejecting Papers empty_db demo_values = false
  ∧ fetched rejecting Papers empty_db demo_values = None
  ∧ (∃ d', writer Papers rejecting [demo_row] empty_db new_stats
           = (Raise PostgresError, d',
              add_entity Papers new_stats 0 0 (length [demo_row]))
           ∧ same_tables empty_db d')
  ∧ transform_paper_data rejecting negative_cited = Some demo_row
  ∧ prepare negative_cited demo_row = Some ([], [])
  ∧ upsert_authors rejecting [] empty_db new_stats = (Ok (), empty_db, new_stats)
  ∧ upsert_papers rejecting [demo_row] empty_db new_stats
    = (Raise PostgresError, tick empty_db, add_papers new_stats 0 0 1)
  ∧ process_paper rejecting negative_cited empty_db new_stats
    = (Crashed PostgresError, tick empty_db,
       add_papers (add_papers new_stats 0 0 1) 0 0 1).
Proof.
  assert (H1 : sent Papers [demo_row] = Some ([demo_row], demo_values))
    by (vm_compute; reflexivity).
  assert (H2 : [demo_row] ≠ []) by discriminate.
  assert (H3 : unadaptable rejecting demo_values = false) by reflexivity.
  assert (H4 : rollback_fails rejecting Papers empty_db demo_values = false)
    by reflexivity.
  assert (H5 : fetched rejecting Papers empty_db demo_values = None)
    by (vm_compute; reflexivity).
  assert (H6 : transform_paper_data rejecting negative_cited = Some demo_row)
    by (vm_compute; reflexivity).
  assert (H7 : prepare negative_cited demo_row = Some ([], []))
    by (vm_compute; reflexivity).
  assert (H8 : upsert_authors rejecting [] empty_db new_stats
               = (Ok (), empty_db, new_stats)) by reflexivity.
  assert (H9 : upsert_papers rejecting [demo_row] empty_db new_stats
               = (Raise PostgresError, tick empty_db, add_papers new_stats 0 0 1))
    by (vm_compute; reflexivity).
  split; [exact H1|]. split; [exact H2|]. split; [exact H3|]. split; [exact H4|].
  split; [exact H5|]. split.
  { exact (proj1 (proj1 (write_failure_is_contained rejecting)
                    Papers _ _ _ empty_db new_stats H1 H2 H3 H4) H5). }
  split; [exact H6|]. split; [exact H7|]. split; [exact H8|]. split; [exact H9|].
  exact (proj1 (proj2 (proj1 (proj2 (proj2 (write_failure_is_contained rejecting)))
                         _ _ _ _ empty_db new_stats H6 H7))
           _ _ _ _ _ H8 H9).
Defined.

Lemma counts_pass_through_witness :
  transform_paper_data permissive negative_cited = Some demo_row
  ∧ extracted_id negative_cited = Some (PStr "W1")
  ∧ process_paper permissive negative_cited empty_db new_stats
    = (Processed, snd (fst demo_processed), snd demo_processed)
  ∧ ∃ new n,
      db_papers (snd (fst demo_processed)) !! "W1" = Some (new, n)
      ∧ column papers_columns "cited_by_count" new = PInt (-5)
      ∧ column papers_columns "referenced_works_count" new = PInt 0.
Proof.
  assert (H1 : transform_paper_data permissive negative_cited = Some demo_row)
    by (vm_compute; reflexivity).
  assert (H2 : extracted_id negative_cited = Some (PStr "W1"))
    by (vm_compute; reflexivity).
  assert (H3 : process_paper permissive negative_cited empty_db new_stats
               = (Processed, snd (fst demo_processed), snd demo_processed))
    by (vm_compute; reflexivity).
  split; [exact H1|]. split; [exact H2|]. split; [exact H3|].
  destruct (counts_pass_through permissive _ _ H1) as (d & Hd & _ & _ & Hstored).
  unfold negative_cited in Hd. injection Hd as <-.
  exact (Hstored "W1" (-5)%Z 0%Z _ _ _ _ H2 eq_refl eq_refl H3).
Defined.

Lemma author_count_counts_subrecords_witness :
  transform_paper_data permissive listed_twice = Some demo_listed_row
  ∧ ∃ d, listed_twice = PDict d
         ∧ row_get demo_listed_row "author_count"
           = Some (PInt (Z.of_nat (length (authorship_records d)))).
Proof.
  assert (H1 : transform_paper_data permissive listed_twice = Some demo_listed_row)
    by (vm_compute; reflexivity).
  split; [exact H1|].
  exact (proj1 author_count_counts_subrecords permissive _ _ H1).
Defined.

(** ** Coalesced columns *)

Section ColumnsLast.
Context `{Countable K}.
Variable cols : list (string * policy).
Variable idkey : pyrow → option K.

(** A coalesced column takes the value of the last row of the batch for the
    key when that value is not null. *)
Lemma coalesce_last_fold rows (batch : list (K * tuple)) k p c v :
  Forall2 (feeds cols idkey) rows batch →
  policy_of cols c = Some Coalesce →
  last_with idkey k rows = Some p →
  row_get p c = Some v → v ≠ PNone →
  ∀ o, ∃ y, foldl (step (policies cols) k) o batch = Some y ∧ column cols c y = v.
Proof.
  intros HF Hc. induction HF as [|r kv rows batch Hf HF IH]; intros Hl Hv Hnn o; simpl.
  - discriminate.
  - rewrite last_with_cons in Hl.
    destruct (last_with idkey k rows) as [y'|] eqn:Hrest.
    + injection Hl as ->. apply IH; auto.
    + destruct (decide (idkey r = Some k)) as [Hk|]; [|discriminate].
      injection Hl as ->. rewrite (fold_untouched cols idkey rows batch k HF Hrest).
      destruct Hf as [Hvals Hid]. unfold step. rewrite decide_True by congruence.
      eexists; split; [reflexivity|].
      pose proof (column_values_of cols c Coalesce p _ Hvals Hc) as Hr.
      rewrite Hv in Hr. injection Hr as Hr.
      destruct o as [old|]; [|symmetry; exact Hr].
      rewrite (column_on_conflict_update cols c Coalesce)
        by eauto using values_of_length.
      rewrite <- Hr. simpl. destruct v; try reflexivity. contradiction.
Qed.

Lemma coalesce_last_after (t t' : gmap K (tuple * nat)) rows batch now flags k p c v :
  Forall2 (feeds cols idkey) rows batch →
  upsert_rows (policies cols) now t batch = (t', flags) →
  policy_of cols c = Some Coalesce →
  last_with idkey k rows = Some p →
  row_get p c = Some v → v ≠ PNone →
  ∃ new n', t' !! k = Some (new, n') ∧ column cols c new = v.
Proof.
  intros HF Hu Hc Hl Hv Hnn.
  pose proof (upsert_rows_lookup (policies cols) now t batch k) as Hr.
  rewrite Hu in Hr. simpl in Hr.
  destruct (coalesce_last_fold rows batch k p c v HF Hc Hl Hv Hnn (fst <$> t !! k))
    as (y & Hy & Hcol).
  rewrite Hy in Hr. destruct (t' !! k) as [[new n']|]; [|discriminate].
  simpl in Hr. injection Hr as ->. eauto.
Qed.

End ColumnsLast.

Lemma stored_id_key a k :
  stored_id "author_id" a = Some k ↔ author_key a = Some (KStr k).
Proof.
  unfold stored_id, author_key. destruct (row_get a "author_id") as [v|]; simpl.
  - symmetry. apply py_hash_KStr.
  - split; discriminate.
Qed.

Lemma stored_id_filter (l : list pyrow) k :
  filter (fun a => stored_id "author_id" a = Some k) l
  = filter (fun a => author_key a = Some (KStr k)) l.
Proof. apply list_filter_iff. intros a. apply stored_id_key. Qed.

(** The last row of a batch for an author id is the last row for that id
    among the survivors of the de-duplication. *)
Lemma dedup_authors_last l u k p :
  dedup_authors l = Some u →
  last_with (stored_id "author_id") k l = Some p →
  last_with (stored_id "author_id") k u = Some p.
Proof.
  intros Hd Hl. apply dedup_authors_inv in Hd as (d & -> & Hnd & Hkb & Hfind).
  unfold last_with in *. rewrite stored_id_filter in *.
  rewrite (keyed_filter_found d (KStr k) p Hkb Hnd); [reflexivity|].
  rewrite Hfind. exact Hl.
Qed.

Lemma dedup_paper_authors_subset l u n a :
  dedup_paper_authors l = Some (u, n) → a ∈ u → a ∈ l.
Proof.
  intros Hd Hin. apply dedup_paper_authors_inv in Hd as (_ & _ & _ & Hsub & _).
  eapply elem_of_sublist; eassumption.
Qed.

(** ** Claim C3 *)

(** C3, as the code has it — the overwrite columns.  After an upsert of
    papers that the store accepted, the row stored under a paper id holds,
    in each count column (cited_by_count, referenced_works_count,
    author_count, institution_count, country_count) and in each of the flags
    is_retracted, is_paratext and has_abstract, the value of the last row of
    the batch with that id, whatever was stored before and whether or not
    that value is null.  The flags is_core_journal, is_open_access and
    has_ai_field are coalesced instead: a value of the last row that is not
    null is stored, and when every row of the batch for the id has null the
    stored value stays.  (Values are integers in the counts and booleans in
    the flags, or null.) *)
Theorem monotonic_columns_overwritten (E : Env) papers_data d s d' s' k p :
  upsert_papers E papers_data d s = (Ok (), d', s') →
  last_with (stored_id "paper_id") k papers_data = Some p →
  ∃ new n', db_papers d' !! k = Some (new, n')
    ∧ (∀ c, c ∈ monotonic_paper_columns →
         ∃ v, row_get p c = Some v
              ∧ (holds_as_sent c v → column papers_columns c new = v))
    ∧ (∀ c, c ∈ coalesced_flag_columns →
         ∃ v, row_get p c = Some v
              ∧ (v ≠ PNone → holds_as_sent c v → column papers_columns c new = v)
              ∧ (∀ old n,
                   db_papers d !! k = Some (old, n) →
                   (∀ q, q ∈ papers_data → stored_id "paper_id" q = Some k →
                         row_get q c = Some PNone) →
                   column papers_columns c new = column papers_columns c old)).
Proof.
  intros Hup Hl.
  apply upsert_papers_inv in Hup
    as (_ & _ & [[_ Hnil]|(_ & batch & t & flags & HF & Hu & -> & _)]).
  { destruct (Hnil eq_refl) as (-> & _). discriminate. }
  destruct (overwrite_after _ _ _ _ _ _ _ _ k p HF Hu Hl) as (new & n' & Hnew & Hcols).
  exists new, n'. split; [exact Hnew|]. split.
  - intros c Hc. eexists. split; [|intros _; reflexivity]. apply Hcols.
    unfold monotonic_paper_columns in Hc. column_in Hc.
  - intros c Hc.
    assert (Hpol : policy_of papers_columns c = Some Coalesce)
      by (unfold coalesced_flag_columns in Hc; column_in Hc).
    destruct (last_with_elem _ _ _ _ Hl) as [Hin _].
    apply list_elem_of_lookup in Hin as [i Hi].
    destruct (Forall2_lookup_l _ _ _ _ _ HF Hi) as (kv & _ & Hv & _).
    pose proof (column_values_of _ c _ _ _ Hv Hpol) as Hr.
    eexists. split; [exact Hr|]. split.
    + intros Hnn _.
      destruct (coalesce_last_after _ _ _ _ _ _ _ _ k p c _ HF Hu Hpol Hl Hr Hnn)
        as (new' & n'' & Hnew' & Hcol).
      simpl in Hnew. rewrite Hnew in Hnew'. injection Hnew' as <- <-. exact Hcol.
    + intros old n Hk Hnull.
      destruct (coalesce_after _ _ _ _ _ _ _ _ k old n c HF Hu Hk Hpol)
        as (new' & n'' & Hnew' & Hcase).
      simpl in Hnew. rewrite Hnew in Hnew'. injection Hnew' as <- <-.
      destruct Hcase as [Hkeep|(r & v & Hrin & Hid & Hrv & Hv' & _)]; [exact Hkeep|].
      rewrite (Hnull r Hrin Hid) in Hrv. congruence.
Qed.

(** C3, as stated, fails for the open-access flag: the paper W1 is stored
    as open access; when it is ingested again from a record without
    open-access data, the incoming flag is null and the stored flag stays
    true, while the citation count is overwritten. *)
Lemma null_flag_keeps_stored_value :
  fst (fst open_run) = [Processed; Processed]
  ∧ (transform_paper_data permissive negative_cited
       ≫= fun row => row_get row "is_open_access") = Some PNone
  ∧ stored_column open_store "W1" "is_open_access" = Some (PBool true)
  ∧ stored_column (snd (fst open_run)) "W1" "is_open_access" = Some (PBool true)
  ∧ stored_column open_store "W1" "cited_by_count" = Some (PInt 0)
  ∧ stored_column (snd (fst open_run)) "W1" "cited_by_count" = Some (PInt (-5)).
Proof. vm_compute. repeat split. Qed.

Lemma monotonic_columns_overwritten_witness :
  upsert_papers permissive [demo_row] open_store new_stats
  = (Ok (), snd (fst reingested), snd reingested)
  ∧ last_with (stored_id "paper_id") "W1" [demo_row] = Some demo_row
  ∧ stored_column open_store "W1" "cited_by_count" = Some (PInt 0)
  ∧ papers_updated (snd reingested) = 1
  ∧ ∃ new n',
      db_papers (snd (fst reingested)) !! "W1" = Some (new, n')
      ∧ (∀ c, c ∈ monotonic_paper_columns →
           ∃ v, row_get demo_row c = Some v
                ∧ (holds_as_sent c v → column papers_columns c new = v))
      ∧ (∀ c, c ∈ coalesced_flag_columns →
           ∃ v, row_get demo_row c = Some v
                ∧ (v ≠ PNone → holds_as_sent c v → column papers_columns c new = v)
                ∧ (∀ old n,
                     db_papers open_store !! "W1" = Some (old, n) →
                     (∀ q, q ∈ [demo_row] → stored_id "paper_id" q = Some "W1" →
                           row_get q c = Some PNone) →
                     column papers_columns c new = column papers_columns c old)).
Proof.
  assert (H1 : upsert_papers permissive [demo_row] open_store new_stats
               = (Ok (), snd (fst reingested), snd reingested))
    by (vm_compute; reflexivity).
  assert (H2 : last_with (stored_id "paper_id") "W1" [demo_row] = Some demo_row)
    by (vm_compute; reflexivity).
  split; [exact H1|]. split; [exact H2|].
  split; [vm_compute; reflexivity|]. split; [vm_compute; reflexivity|].
  exact (monotonic_columns_overwritten permissive _ _ _ _ _ _ _ H1 H2).
Defined.

(** ** Claim C2 *)

(** C2 — the coalesce merge.  For a stored author row, a stored paper row
    and a stored authorship row, and for each descriptive column (name,
    institution, country, topic, concepts, keywords, license, DOI): whatever
    the outcome of the upsert, the row is still stored afterwards; if every
    row of the incoming batch for that id has null in the column, the stored
    value is unchanged; if the stored value changed, the new value is a
    non-null value that a row of the batch for that id supplied; and when
    the upsert is accepted and the last row of the batch for the id has a
    non-null value, that value is stored. *)
Theorem coalesce_keeps_stored_value (E : Env) :
  (∀ authors_data d s res d' s' k old n c,
     upsert_authors E authors_data d s = (res, d', s') →
     db_authors d !! k = Some (old, n) →
     c ∈ descriptive_author_columns →
     ∃ new n', db_authors d' !! k = Some (new, n')
       ∧ ((∀ a, a ∈ authors_data → stored_id "author_id" a = Some k →
                row_get a c = Some PNone) →
          column authors_columns c new = column authors_columns c old)
       ∧ (column authors_columns c new ≠ column authors_columns c old →
          ∃ a v, a ∈ authors_data ∧ stored_id "author_id" a = Some k
                 ∧ row_get a c = Some v ∧ v ≠ PNone
                 ∧ column authors_columns c new = v)
       ∧ (∀ a v, res = Ok () →
                 last_with (stored_id "author_id") k authors_data = Some a →
                 row_get a c = Some v → v ≠ PNone →
                 column authors_columns c new = v))
  ∧ (∀ papers_data d s res d' s' k old n c,
       upsert_papers E papers_data d s = (res, d', s') →
       db_papers d !! k = Some (old, n) →
       c ∈ descriptive_paper_columns →
       ∃ new n', db_papers d' !! k = Some (new, n')
         ∧ ((∀ p, p ∈ papers_data → stored_id "paper_id" p = Some k →
                  row_get p c = Some PNone) →
            column papers_columns c new = column papers_columns c old)
         ∧ (column papers_columns c new ≠ column papers_columns c old →
            ∃ p v, p ∈ papers_data ∧ stored_id "paper_id" p = Some k
                   ∧ row_get p c = Some v ∧ v ≠ PNone
                   ∧ column papers_columns c new = v)
         ∧ (∀ p v, res = Ok () →
                   last_with (stored_id "paper_id") k papers_data = Some p →
                   row_get p c = Some v → v ≠ PNone →
                   column papers_columns c new = v))
  ∧ (∀ paper_authors_data d s res d' s' k old n c,
       upsert_paper_authors E paper_authors_data d s = (res, d', s') →
       db_paper_authors d !! k = Some (old, n) →
       c ∈ descriptive_link_columns →
       ∃ new n', db_paper_authors d' !! k = Some (new, n')
         ∧ ((∀ pa, pa ∈ paper_authors_data → stored_pair pa = Some k →
                   row_get pa c = Some PNone) →
            column paper_authors_columns c new = column paper_authors_columns c old)
         ∧ (column paper_authors_columns c new ≠ column paper_authors_columns c old →
            ∃ pa v, pa ∈ paper_authors_data ∧ stored_pair pa = Some k
                    ∧ row_get pa c = Some v ∧ v ≠ PNone
                    ∧ column paper_authors_columns c new = v)).
Proof.
  split; [|split].
  - intros l d s res d' s' k old n c Hup Hk Hc.
    assert (Hpol : policy_of authors_columns c = Some Coalesce)
      by (unfold descriptive_author_columns in Hc; column_in Hc).
    apply upsert_authors_inv in Hup
      as (_ & _ & [[Hsame Hnil]|(_ & u & batch & t & flags & Hd & HF & Hu & -> & _)]).
    + exists old, n. rewrite Hsame. split; [exact Hk|]. split; [reflexivity|].
      split; [intros Hne; contradiction|].
      intros a v Hok Hl. destruct (Hnil Hok) as (-> & _). discriminate.
    + destruct (coalesce_after _ _ _ _ _ _ _ _ k old n c HF Hu Hk Hpol)
        as (new & n' & Hnew & Hcase).
      exists new, n'. split; [exact Hnew|]. split; [|split].
      * intros Hnull. destruct Hcase as [Hkeep|(r & v & Hin & Hid & Hr & Hv & _)];
          [exact Hkeep|].
        rewrite (Hnull r (dedup_authors_subset _ _ _ Hd Hin) Hid) in Hr. congruence.
      * intros Hne. destruct Hcase as [Hkeep|(r & v & Hin & Hid & Hr & Hv & Hcol)];
          [contradiction|].
        exists r, v. eauto 6 using dedup_authors_subset.
      * intros a v _ Hl Hv Hnn.
        pose proof (dedup_authors_last _ _ _ _ Hd Hl) as Hl'.
        destruct (coalesce_last_after _ _ _ _ _ _ _ _ k a c v HF Hu Hpol Hl' Hv Hnn)
          as (new' & n'' & Hnew' & Hcol).
        simpl in Hnew, Hnew'. rewrite Hnew in Hnew'. injection Hnew' as <- <-. exact Hcol.
  - intros l d s res d' s' k old n c Hup Hk Hc.
    assert (Hpol : policy_of papers_columns c = Some Coalesce)
      by (unfold descriptive_paper_columns in Hc; column_in Hc).
    apply upsert_papers_inv in Hup
      as (_ & _ & [[Hsame Hnil]|(_ & batch & t & flags & HF & Hu & -> & _)]).
    + exists old, n. rewrite Hsame. split; [exact Hk|]. split; [reflexivity|].
      split; [intros Hne; contradiction|].
      intros a v Hok Hl. destruct (Hnil Hok) as (-> & _). discriminate.
    + destruct (coalesce_after _ _ _ _ _ _ _ _ k old n c HF Hu Hk Hpol)
        as (new & n' & Hnew & Hcase).
      exists new, n'. split; [exact Hnew|]. split; [|split].
      * intros Hnull. destruct Hcase as [Hkeep|(r & v & Hin & Hid & Hr & Hv & _)];
          [exact Hkeep|].
        rewrite (Hnull r Hin Hid) in Hr. congruence.
      * intros Hne. destruct Hcase as [Hkeep|(r & v & Hin & Hid & Hr & Hv & Hcol)];
          [contradiction|].
        exists r, v. eauto 6.
      * intros a v _ Hl Hv Hnn.
        destruct (coalesce_last_after _ _ _ _ _ _ _ _ k a c v HF Hu Hpol Hl Hv Hnn)
          as (new' & n'' & Hnew' & Hcol).
        simpl in Hnew, Hnew'. rewrite Hnew in Hnew'. injection Hnew' as <- <-. exact Hcol.
  - intros l d s res d' s' k old n c Hup Hk Hc.
    assert (Hpol : policy_of paper_authors_columns c = Some Coalesce)
      by (unfold descriptive_link_columns in Hc; column_in Hc).
    apply upsert_paper_authors_inv in Hup
      as (_ & _ & [[Hsame _]|(_ & u & m & batch & t & flags & Hd & HF & Hu & -> & _)]).
    + exists old, n. rewrite Hsame. split; [exact Hk|]. split; [reflexivity|].
      intros Hne; contradiction.
    + destruct (coalesce_after _ _ _ _ _ _ _ _ k old n c HF Hu Hk Hpol)
        as (new & n' & Hnew & Hcase).
      exists new, n'. split; [exact Hnew|]. split.
      * intros Hnull. destruct Hcase as [Hkeep|(r & v & Hin & Hid & Hr & Hv & _)];
          [exact Hkeep|].
        rewrite (Hnull r (dedup_paper_authors_subset _ _ _ _ Hd Hin) Hid) in Hr.
        congruence.
      * intros Hne. destruct Hcase as [Hkeep|(r & v & Hin & Hid & Hr & Hv & Hcol)];
          [contradiction|].
        exists r, v. eauto 6 using dedup_paper_authors_subset.
Qed.

Lemma coalesce_keeps_stored_value_witness :
  upsert_authors permissive [demo_author_null] (snd (fst demo_run1)) new_stats
  = (fst (fst demo_author_upsert), snd (fst demo_author_upsert), snd demo_author_upsert)
  ∧ db_authors (snd (fst demo_run1)) !! "A1"
    = Some (fst demo_stored_author, snd demo_stored_author)
  ∧ "primary_institution" ∈ descriptive_author_columns
  ∧ ∃ new n',
      db_authors (snd (fst demo_author_upsert)) !! "A1" = Some (new, n')
      ∧ column authors_columns "primary_institution" new
        = column authors_columns "primary_institution" (fst demo_stored_author).
Proof.
  assert (H1 : upsert_authors permissive [demo_author_null] (snd (fst demo_run1)) new_stats
               = (fst (fst demo_author_upsert), snd (fst demo_author_upsert),
                  snd demo_author_upsert))
    by (unfold demo_author_upsert; destruct (upsert_authors _ _ _ _) as [[? ?] ?];
        reflexivity).
  assert (H2 : db_authors (snd (fst demo_run1)) !! "A1"
               = Some (fst demo_stored_author, snd demo_stored_author))
    by (vm_compute; reflexivity).
  assert (H3 : "primary_institution" ∈ descriptive_author_columns)
    by (unfold descriptive_author_columns; repeat constructor).
  split; [exact H1|]. split; [exact H2|]. split; [exact H3|].
  destruct (proj1 (coalesce_keeps_stored_value permissive) _ _ _ _ _ _ _ _ _ _ H1 H2 H3)
    as (new & n' & Hnew & Hnull & _).
  exists new, n'. split; [exact Hnew|]. apply Hnull.
  intros a Hin _. apply list_elem_of_singleton in Hin. subst a. reflexivity.
Defined.

(* ================================================================== *)
(** * Further properties of the importer *)

(** ** Identifiers and nested look-ups *)

Lemma prefix_slash c s :
  String.prefix "/" (String c s) = if ascii_dec "/" c then true else false.
Proof.
  cbn [String.prefix]. destruct (ascii_dec "/" c); [destruct s|]; reflexivity.
Qed.

Lemma contains_slash_cons c s :
  contains "/" (String c s) = (if ascii_dec "/" c then true else false) || contains "/" s.
Proof. cbn [contains]. rewrite prefix_slash. reflexivity. Qed.

Lemma append_nil t : "" +:+ t = t.
Proof. reflexivity. Qed.

Lemma append_cons c s t : String c s +:+ t = String c (s +:+ t).
Proof. reflexivity. Qed.

Lemma append_snoc_cons acc c r : (acc +:+ String c "") +:+ r = acc +:+ String c r.
Proof.
  induction acc as [|a acc IH]; [reflexivity|].
  rewrite !append_cons, IH. reflexivity.
Qed.

Lemma append_empty_r s : s +:+ "" = s.
Proof.
  induction s as [|a s IH]; [reflexivity|]. rewrite append_cons, IH. reflexivity.
Qed.

Lemma split_last_go_no_slash acc r :
  contains "/" r = false → split_last_go "/" 0 acc r = acc +:+ r.
Proof.
  revert acc. induction r as [|c r IH]; intros acc Hr.
  - simpl. symmetry. apply append_empty_r.
  - rewrite contains_slash_cons in Hr. apply orb_false_iff in Hr as [Hc Hr].
    cbn [split_last_go]. rewrite prefix_slash, Hc, (IH _ Hr). apply append_snoc_cons.
Qed.

Lemma split_last_go_segment acc pre r :
  contains "/" r = false →
  split_last_go "/" 0 acc (pre +:+ String "/" r) = r.
Proof.
  intros Hr. revert acc. induction pre as [|c pre IH]; intros acc.
  - rewrite append_nil. cbn [split_last_go]. rewrite prefix_slash.
    destruct (ascii_dec "/" "/") as [_|Hne]; [|contradiction].
    cbn [String.length Nat.sub]. apply (split_last_go_no_slash "" r Hr).
  - rewrite append_cons. cbn [split_last_go]. rewrite prefix_slash.
    destruct (ascii_dec "/" c); cbn [String.length Nat.sub]; apply IH.
Qed.

Lemma contains_slash_app pre r : contains "/" (pre +:+ String "/" r) = true.
Proof.
  induction pre as [|c pre IH].
  - rewrite append_nil, contains_slash_cons.
    destruct (ascii_dec "/" "/"); [reflexivity|contradiction].
  - rewrite append_cons, contains_slash_cons, IH. apply orb_true_r.
Qed.

(** X1 — [extract_id_from_url] on a URL.  The identifier of a string that
    contains a slash is what follows its last slash, whatever precedes it;
    a non-empty string without a slash is its own identifier. *)
Theorem extract_id_is_last_segment (pre r : string) :
  contains "/" r = false →
  extract_id_from_url (PStr (pre +:+ "/" +:+ r)) = Some (PStr r)
  ∧ (r ≠ "" → extract_id_from_url (PStr r) = Some (PStr r)).
Proof.
  intros Hr. split.
  - unfold extract_id_from_url.
    assert (truthy (PStr (pre +:+ "/" +:+ r)) = true) as ->.
    { destruct pre; reflexivity. }
    cbn [py_str_in mbind option_bind].
    change ("/" +:+ r) with (String "/" r).
    rewrite contains_slash_app. unfold split_last.
    rewrite split_last_go_segment by exact Hr. reflexivity.
  - intros Hne. unfold extract_id_from_url.
    destruct r as [|c r]; [contradiction|].
    cbn [truthy]. cbn [py_str_in mbind option_bind]. rewrite Hr. reflexivity.
Qed.

Lemma extract_id_is_last_segment_witness :
  contains "/" "W7104782608" = false
  ∧ extract_id_from_url (PStr "https://openalex.org/W7104782608")
    = Some (PStr "W7104782608").
Proof.
  split; [reflexivity|].
  exact (proj1 (extract_id_is_last_segment "https://openalex.org" "W7104782608" eq_refl)).
Defined.

Lemma safe_get_None keys : safe_get PNone keys = PNone.
Proof. destruct keys; reflexivity. Qed.

(** X2 — [safe_get] along a path.  Looking a path up in one call is the
    same as looking its first part up and then the rest in what was found:
    a part that is missing, null or not a dict gives [None] either way. *)
Theorem safe_get_composes (data : pyval) (keys1 keys2 : list string) :
  safe_get data (keys1 ++ keys2) = safe_get (safe_get data keys1) keys2.
Proof.
  revert data. induction keys1 as [|k keys1 IH]; intros data; [reflexivity|].
  cbn [app safe_get].
  destruct data; try (symmetry; apply safe_get_None).
  destruct (default PNone (dict_get d k)); try apply IH.
  symmetry; apply safe_get_None.
Qed.

(** ** The rows the normalisers build *)

Lemma transform_author_data_row a row :
  transform_author_data a = Some row →
  ∃ author_id display_name orcid primary_institution primary_country,
    row = [ ("author_id", author_id); ("display_name", display_name); ("orcid", orcid);
            ("primary_institution", primary_institution);
            ("primary_country", primary_country) ]
    ∧ truthy author_id = true.
Proof.
  unfold transform_author_data. intros H.
  destruct (transform_author_body a) as [r|] eqn:Hb; [|discriminate]. subst r.
  unfold transform_author_body in Hb. cbv zeta in Hb.
  open_chain Hb; try discriminate.
  all: injection Hb as <-; do 5 eexists; (split; [reflexivity|]);
    match goal with H : negb (truthy ?x) = false |- _ =>
      apply negb_false_iff in H; exact H end.
Qed.

Lemma transform_paper_author_data_row pid a n row :
  transform_paper_author_data pid a n = Some row →
  ∃ author_id author_position is_corresponding institution_names institution_ids
      countries raw,
    row = [ ("paper_id", pid); ("author_id", author_id);
            ("author_position", author_position);
            ("author_sequence", PInt (Z.of_nat n));
            ("is_corresponding", is_corresponding);
            ("institution_names", institution_names);
            ("institution_ids", institution_ids);
            ("countries", countries);
            ("raw_affiliation_strings", raw) ]
    ∧ truthy author_id = true.
Proof.
  unfold transform_paper_author_data. intros H.
  destruct (transform_paper_author_body pid a n) as [r|] eqn:Hb; [|discriminate]. subst r.
  unfold transform_paper_author_body in Hb. cbv zeta in Hb.
  open_chain Hb; try discriminate.
  all: injection Hb as <-; do 7 eexists; (split; [reflexivity|]);
    match goal with H : negb (truthy ?x) = false |- _ =>
      apply negb_false_iff in H; exact H end.
Qed.

Lemma transform_paper_data_keys E paper row :
  transform_paper_data E paper = Some row →
  map fst row = map fst papers_columns
  ∧ values_of papers_columns row = Some (map snd row)
  ∧ ∃ paper_id, row_get row "paper_id" = Some paper_id ∧ truthy paper_id = true.
Proof.
  unfold transform_paper_data. intros H.
  destruct (transform_paper_body E paper) as [r|] eqn:Hb; [|discriminate]. subst r.
  unfold transform_paper_body in Hb. cbv zeta in Hb.
  open_chain Hb; try discriminate.
  all: injection Hb as <-; (split; [reflexivity|]); (split; [reflexivity|]);
    eexists; (split; [reflexivity|]);
    match goal with H : negb (truthy ?x) = false |- _ =>
      apply negb_false_iff in H; exact H end.
Qed.

(** X3 — the rows fit the statements.  A row returned by one of the three
    normalisers has exactly the columns of the [INSERT] statement of its
    table, in the statement's order, so the tuple the writer builds from it
    is the row's values and no column is missing; its id is never empty. *)
Theorem normalised_rows_fit_statements :
  (∀ E paper row,
     transform_paper_data E paper = Some row →
     map fst row = map fst papers_columns
     ∧ values_of papers_columns row = Some (map snd row)
     ∧ ∃ paper_id, row_get row "paper_id" = Some paper_id ∧ truthy paper_id = true)
  ∧ (∀ authorship row,
       transform_author_data authorship = Some row →
       map fst row = map fst authors_columns
       ∧ values_of authors_columns row = Some (map snd row)
       ∧ ∃ author_id, row_get row "author_id" = Some author_id ∧ truthy author_id = true)
  ∧ (∀ paper_id authorship sequence row,
       transform_paper_author_data paper_id authorship sequence = Some row →
       map fst row = map fst paper_authors_columns
       ∧ values_of paper_authors_columns row = Some (map snd row)
       ∧ row_get row "paper_id" = Some paper_id
       ∧ ∃ author_id, row_get row "author_id" = Some author_id ∧ truthy author_id = true).
Proof.
  split; [|split].
  - apply transform_paper_data_keys.
  - intros a row (? & ? & ? & ? & ? & -> & Ht)%transform_author_data_row.
    repeat split. eexists. split; [reflexivity|exact Ht].
  - intros pid a n row (? & ? & ? & ? & ? & ? & ? & -> & Ht)%transform_paper_author_data_row.
    repeat split. eexists. split; [reflexivity|exact Ht].
Qed.

Lemma normalised_rows_fit_statements_witness :
  transform_paper_data permissive listed_twice = Some demo_listed_row
  ∧ values_of papers_columns demo_listed_row = Some (map snd demo_listed_row).
Proof.
  assert (H1 : transform_paper_data permissive listed_twice = Some demo_listed_row)
    by (vm_compute; reflexivity).
  split; [exact H1|].
  exact (proj1 (proj2 (proj1 normalised_rows_fit_statements _ _ _ H1))).
Defined.

Lemma transform_authorships_paper_id paper_id idx authorships :
  Forall (fun pa => row_get pa "paper_id" = Some paper_id)
         (snd (transform_authorships paper_id idx authorships)).
Proof.
  revert idx. induction authorships as [|a l IH]; intros idx; [constructor|].
  cbn [transform_authorships]. specialize (IH (S idx)).
  destruct (transform_authorships paper_id (S idx) l) as [au pas]. simpl in *.
  destruct (transform_paper_author_data paper_id a idx) as [pa|] eqn:Hpa; [|exact IH].
  constructor; [|exact IH].
  apply transform_paper_author_data_row in Hpa as (? & ? & ? & ? & ? & ? & ? & -> & _).
  reflexivity.
Qed.

(** X4 — [author_sequence].  The authorship rows of a paper carry the
    1-based positions of their sub-records in the paper's authorship list:
    the numbers increase strictly along the rows, lie between 1 and the
    length of the list, and a skipped sub-record leaves a gap. *)
Theorem authorship_sequence_is_position (paper_id : pyval) (authorships : list pyval) :
  let paper_authors_data := snd (transform_authorships paper_id 1 authorships) in
  ∃ positions : list nat,
    map (fun pa => row_get pa "author_sequence") paper_authors_data
    = map (fun i => Some (PInt (Z.of_nat i))) positions
    ∧ StronglySorted lt positions
    ∧ Forall (fun i => (1 ≤ i ≤ length authorships)%nat) positions
    ∧ Forall2 (fun pa i => ∃ a, authorships !! (i - 1)%nat = Some a
                 ∧ transform_paper_author_data paper_id a i = Some pa)
        paper_authors_data positions.
Proof.
  cbv zeta.
  assert (∀ idx,
    ∃ positions : list nat,
      map (fun pa => row_get pa "author_sequence")
          (snd (transform_authorships paper_id idx authorships))
      = map (fun i => Some (PInt (Z.of_nat i))) positions
      ∧ StronglySorted lt positions
      ∧ Forall (fun i => (idx ≤ i < idx + length authorships)%nat) positions
      ∧ Forall2 (fun pa i => ∃ a, authorships !! (i - idx)%nat = Some a
                   ∧ transform_paper_author_data paper_id a i = Some pa)
          (snd (transform_authorships paper_id idx authorships)) positions) as Hgen.
  { induction authorships as [|a l IH]; intros idx.
    - exists []. simpl. repeat split; constructor.
    - destruct (IH (S idx)) as (ps & Hm & Hs & Hr & Hf).
      cbn [transform_authorships].
      destruct (transform_authorships paper_id (S idx) l) as [au pas]. simpl in *.
      assert (Forall2 (fun pa i => ∃ a0, (a :: l) !! (i - idx)%nat = Some a0
                 ∧ transform_paper_author_data paper_id a0 i = Some pa) pas ps) as Hf'.
      { clear -Hf Hr. induction Hf as [|pa i pas ps (a0 & Hl & Ht) _ IHf]; [constructor|].
        apply Forall_cons in Hr as [Hi Hr].
        constructor; [|apply IHf, Hr].
        exists a0. split; [|exact Ht].
        replace (i - idx)%nat with (S (i - S idx))%nat by lia. exact Hl. }
      destruct (transform_paper_author_data paper_id a idx) as [pa|] eqn:Hpa.
      + destruct (transform_paper_author_data_row _ _ _ _ Hpa)
          as (? & ? & ? & ? & ? & ? & ? & Hrow & _).
        exists (idx :: ps). simpl. repeat split.
        * rewrite Hm. f_equal. subst pa. reflexivity.
        * constructor; [exact Hs|]. eapply Forall_impl; [exact Hr|]. simpl. lia.
        * constructor; [lia|]. eapply Forall_impl; [exact Hr|]. simpl. lia.
        * constructor; [|exact Hf'].
          exists a. rewrite Nat.sub_diag. split; [reflexivity|exact Hpa].
      + exists ps. repeat split; try assumption.
        eapply Forall_impl; [exact Hr|]. simpl. lia. }
  destruct (Hgen 1) as (ps & Hm & Hs & Hr & Hf).
  exists ps. repeat split; try assumption.
  eapply Forall_impl; [exact Hr|]. simpl. lia.
Qed.

Lemma fold_opt_invariant {A S} (P : S → Prop) (f : S → A → option S) l :
  (∀ s x s', P s → f s x = Some s' → P s') →
  ∀ s s', fold_opt f s l = Some s' → P s → P s'.
Proof.
  intros Hstep. induction l as [|x l IH]; intros s s'; simpl.
  - intros [= <-]. auto.
  - intros (s1 & H1 & H2)%bind_Some HP. eapply IH; eauto.
Qed.

Lemma set_add_nonempty k s : set_add k s ≠ [].
Proof.
  unfold set_add. destruct (decide (k ∈ s)) as [Hin|_].
  - intros ->. inversion Hin.
  - destruct s; discriminate.
Qed.

Lemma scan_authorship_affiliated st a st' :
  affiliated (all_institutions st) (first_institution st)
  ∧ affiliated (all_countries st) (first_country st) →
  scan_authorship st a = Some st' →
  affiliated (all_institutions st') (first_institution st')
  ∧ affiliated (all_countries st') (first_country st').
Proof.
  intros HP. unfold scan_authorship. intros H. open_chain H.
  match goal with
  | H1 : fold_opt scan_institution st _ = Some ?st1 |- _ =>
      eapply (fold_opt_invariant
                (fun st => affiliated (all_institutions st) (first_institution st)
                           ∧ affiliated (all_countries st) (first_country st)));
        [| exact H |
         eapply (fold_opt_invariant
                   (fun st => affiliated (all_institutions st) (first_institution st)
                              ∧ affiliated (all_countries st) (first_country st)));
           [| exact H1 | exact HP]]
  end.
  - clear. intros s x s' [Hi Hc]. unfold scan_country.
    destruct (truthy x) eqn:Hx; [|intros [= <-]; auto].
    intros (k & _ & [= <-])%bind_Some. simpl. split; [exact Hi|].
    right. split; [apply set_add_nonempty|].
    destruct (truthy (first_country s)) eqn:Hf; assumption.
  - clear. intros s x s' [Hi Hc]. unfold scan_institution.
    intros (n & _ & H)%bind_Some.
    destruct (truthy n) eqn:Hx; [|injection H as <-; auto].
    apply bind_Some in H as (k & _ & [= <-]). simpl. split; [|exact Hc].
    right. split; [apply set_add_nonempty|].
    destruct (truthy (first_institution s)) eqn:Hf; assumption.
Qed.

(** X5 — counts and first affiliations.  In the row of an accepted record
    [first_institution] is null exactly when [institution_count] is zero,
    and is a non-empty name otherwise; [first_country] and [country_count]
    agree in the same way. *)
Theorem first_affiliation_iff_counted (E : Env) (paper : pyval) (row : pyrow) :
  transform_paper_data E paper = Some row →
  ∃ (institutions countries : nat) (first_inst first_ctry : pyval),
    row_get row "institution_count" = Some (PInt (Z.of_nat institutions))
    ∧ row_get row "first_institution" = Some first_inst
    ∧ row_get row "country_count" = Some (PInt (Z.of_nat countries))
    ∧ row_get row "first_country" = Some first_ctry
    ∧ ((institutions = 0 ∧ first_inst = PNone)
       ∨ (0 < institutions ∧ truthy first_inst = true))%nat
    ∧ ((countries = 0 ∧ first_ctry = PNone)
       ∨ (0 < countries ∧ truthy first_ctry = true))%nat.
Proof.
  unfold transform_paper_data. intros H.
  destruct (transform_paper_body E paper) as [r|] eqn:Hb; [|discriminate]. subst r.
  unfold transform_paper_body in Hb. cbv zeta in Hb.
  open_chain Hb; try discriminate.
  all: injection Hb as <-;
    match goal with
    | Hf : fold_opt scan_authorship _ _ = Some ?agg |- _ =>
        exists (length (all_institutions agg)), (length (all_countries agg)),
               (first_institution agg), (first_country agg);
        apply (fold_opt_invariant
                 (fun st => affiliated (all_institutions st) (first_institution st)
                            ∧ affiliated (all_countries st) (first_country st)))
          in Hf as [Hi Hc];
        [ | intros ? ? ? ? ?; eapply scan_authorship_affiliated; eassumption
          | split; left; split; reflexivity ];
        repeat (split; [reflexivity|]); split;
        [ destruct Hi as [[-> ->]|[Hne Ht]] | destruct Hc as [[-> ->]|[Hne Ht]] ];
        first [ left; split; reflexivity
              | right; split; [|exact Ht];
                match goal with
                | |- (0 < length ?l)%nat => destruct l; [contradiction|simpl; lia]
                end ]
    end.
Qed.

Lemma first_affiliation_iff_counted_witness :
  transform_paper_data permissive listed_twice = Some demo_listed_row
  ∧ ∃ (institutions countries : nat) (first_inst first_ctry : pyval),
      row_get demo_listed_row "institution_count" = Some (PInt (Z.of_nat institutions))
      ∧ row_get demo_listed_row "first_institution" = Some first_inst
      ∧ row_get demo_listed_row "country_count" = Some (PInt (Z.of_nat countries))
      ∧ row_get demo_listed_row "first_country" = Some first_ctry
      ∧ ((institutions = 0 ∧ first_inst = PNone)
         ∨ (0 < institutions ∧ truthy first_inst = true))%nat
      ∧ ((countries = 0 ∧ first_ctry = PNone)
         ∨ (0 < countries ∧ truthy first_ctry = true))%nat.
Proof.
  assert (H1 : transform_paper_data permissive listed_twice = Some demo_listed_row)
    by (vm_compute; reflexivity).
  split; [exact H1|].
  exact (first_affiliation_iff_counted permissive listed_twice _ H1).
Defined.

(** ** What a load does to the store *)


Lemma upsert_authors_written E l d s res d' s' :
  upsert_authors E l d s = (res, d', s') →
  db_papers d' = db_papers d ∧ db_paper_authors d' = db_paper_authors d
  ∧ (db_authors d' = db_authors d
     ∨ ∃ u, dedup_authors l = Some u
            ∧ written authors_columns (stored_id "author_id") u
                (db_authors d) (db_authors d')).
Proof.
  intros Hu. apply upsert_authors_inv in Hu as (Hp & Hpa & [[Ha _]|(_ & u & batch & t & flags & Hd & Hf & Hr & -> & _)]).
  - auto.
  - split; [exact Hp|]. split; [exact Hpa|]. right. exists u. split; [exact Hd|].
    exists batch, (db_clock d). split; [exact Hf|]. rewrite Hr. reflexivity.
Qed.

Lemma upsert_papers_written E l d s res d' s' :
  upsert_papers E l d s = (res, d', s') →
  db_authors d' = db_authors d ∧ db_paper_authors d' = db_paper_authors d
  ∧ ((db_papers d' = db_papers d ∧ (res = Ok () → l = []))
     ∨ (res = Ok ()
        ∧ written papers_columns (stored_id "paper_id") l (db_papers d) (db_papers d'))).
Proof.
  intros Hu. apply upsert_papers_inv in Hu as (Hp & Hpa & [[Ha Hok]|(Hok & batch & t & flags & Hf & Hr & -> & _)]).
  - split; [exact Hp|]. split; [exact Hpa|]. left. split; [exact Ha|]. intros Hr. apply Hok, Hr.
  - split; [exact Hp|]. split; [exact Hpa|]. right. split; [exact Hok|].
    exists batch, (db_clock d). split; [exact Hf|]. rewrite Hr. reflexivity.
Qed.

Lemma upsert_paper_authors_written E l d s res d' s' :
  upsert_paper_authors E l d s = (res, d', s') →
  db_authors d' = db_authors d ∧ db_papers d' = db_papers d
  ∧ (db_paper_authors d' = db_paper_authors d
     ∨ ∃ u n, dedup_paper_authors l = Some (u, n)
              ∧ written paper_authors_columns stored_pair u
                  (db_paper_authors d) (db_paper_authors d')).
Proof.
  intros Hu. apply upsert_paper_authors_inv in Hu as (Hp & Hpa & [[Ha _]|(_ & u & n & batch & t & flags & Hd & Hf & Hr & -> & _)]).
  - auto.
  - split; [exact Hp|]. split; [exact Hpa|]. right. exists u, n. split; [exact Hd|].
    exists batch, (db_clock d). split; [exact Hf|]. rewrite Hr. reflexivity.
Qed.

(** What [process_paper] did to the three tables, whatever its outcome. *)
Lemma process_paper_writes E paper d s o d' s' :
  process_paper E paper d s = (o, d', s') →
  (db_authors d' = db_authors d
   ∨ ∃ row au pas u,
       transform_paper_data E paper = Some row
       ∧ prepare paper row = Some (au, pas)
       ∧ dedup_authors au = Some u
       ∧ written authors_columns (stored_id "author_id") u (db_authors d) (db_authors d'))
  ∧ ((db_papers d' = db_papers d ∧ db_paper_authors d' = db_paper_authors d)
     ∨ ∃ row,
         transform_paper_data E paper = Some row
         ∧ written papers_columns (stored_id "paper_id") [row] (db_papers d) (db_papers d')
         ∧ (db_paper_authors d' = db_paper_authors d
            ∨ ∃ au pas u n,
                prepare paper row = Some (au, pas)
                ∧ dedup_paper_authors pas = Some (u, n)
                ∧ written paper_authors_columns stored_pair u
                    (db_paper_authors d) (db_paper_authors d'))).
Proof.
  unfold process_paper, failed.
  destruct (transform_paper_data E paper) as [row|] eqn:Ht.
  2:{ intros [= <- <- <-]. auto. }
  destruct (prepare paper row) as [[au pas]|] eqn:Hpr.
  2:{ intros [= <- <- <-]. auto. }
  rewrite authors_stage.
  destruct (upsert_authors E au d s) as [[r1 d1] s1] eqn:H1.
  apply upsert_authors_written in H1 as (P1 & PA1 & A1).
  assert (db_authors d1 = db_authors d
          ∨ ∃ row0 au pas u,
              Some row = Some row0
              ∧ prepare paper row0 = Some (au, pas)
              ∧ dedup_authors au = Some u
              ∧ written authors_columns (stored_id "author_id") u
                  (db_authors d) (db_authors d1)) as A1'.
  { destruct A1 as [A1|(u & Hd & Hw)]; [left; exact A1|].
    right. exists row, au, pas, u. auto. }
  clear A1.
  destruct r1 as [[]|e1].
  2:{ intros [= <- <- <-]. split; [exact A1'|]. left. auto. }
  destruct (upsert_papers E [row] d1 s1) as [[r2 d2] s2] eqn:H2.
  apply upsert_papers_written in H2 as (A2 & PA2 & W2).
  destruct r2 as [[]|e2].
  2:{ intros [= <- <- <-]. rewrite A2, PA2, PA1. split; [exact A1'|].
      destruct W2 as [[W2 _]|[W2 _]]; [|discriminate].
      left. rewrite W2, P1. auto. }
  destruct W2 as [[_ W2]|[_ W2]]; [specialize (W2 eq_refl); discriminate|].
  rewrite P1 in W2. rewrite paper_authors_stage.
  destruct (upsert_paper_authors E pas d2 s2) as [[r3 d3] s3] eqn:H3.
  apply upsert_paper_authors_written in H3 as (A3 & P3 & W3).
  assert (db_authors d3 = db_authors d1) as A31 by congruence.
  assert (db_papers d3 = db_papers d2) as P32 by congruence.
  intros Hres.
  assert (d' = d3) as -> by (destruct r3 as [[]|?]; congruence).
  rewrite A31, P32. split; [exact A1'|]. right. exists row.
  split; [reflexivity|]. split; [exact W2|].
  rewrite PA2, PA1 in W3.
  destruct W3 as [W3|(u & n & Hd & Hw)]; [left; exact W3|].
  right. exists au, pas, u, n. auto.
Qed.

Lemma upsert_rows_keeps `{Countable K} pol now (t : gmap K (tuple * nat)) batch k :
  is_Some (t !! k) → is_Some (fst (upsert_rows pol now t batch) !! k).
Proof.
  intros [[old n] Hk].
  destruct (upsert_rows_lookup_Some pol now t batch k old n Hk) as (n' & ->). eauto.
Qed.

Lemma upsert_rows_stores `{Countable K} pol now (t : gmap K (tuple * nat)) batch k :
  k ∈ map fst batch → is_Some (fst (upsert_rows pol now t batch) !! k).
Proof.
  intros Hin. apply rows_is_Some. rewrite upsert_rows_rows.
  apply list_elem_of_fmap in Hin as ([k' v] & -> & Hin).
  eapply merge_rows_stores, Hin.
Qed.

Lemma upsert_rows_dom `{Countable K} pol now (t : gmap K (tuple * nat)) batch k :
  is_Some (fst (upsert_rows pol now t batch) !! k) →
  is_Some (t !! k) ∨ k ∈ map fst batch.
Proof.
  revert t. induction batch as [|[k0 v] batch IH]; intros t; simpl; [auto|].
  destruct (upsert_one pol now t k0 v) as [t1 b] eqn:H1.
  specialize (IH t1). destruct (upsert_rows pol now t1 batch) as [t2 flags]. simpl in *.
  intros Hk. destruct (IH Hk) as [H1k|Hin]; [|right; right; exact Hin].
  destruct (decide (k = k0)) as [->|Hne]; [right; left|].
  left. unfold upsert_one in H1.
  destruct (t !! k0) as [[old n]|]; injection H1 as <- _;
    rewrite lookup_insert_ne in H1k by congruence; exact H1k.
Qed.

Lemma written_keeps `{Countable K} cols (idkey : pyrow → option K) rows
    (t t' : gmap K (tuple * nat)) k :
  written cols idkey rows t t' → is_Some (t !! k) → is_Some (t' !! k).
Proof. intros (batch & now & _ & ->). apply upsert_rows_keeps. Qed.

Lemma feeds_keys {K} cols (idkey : pyrow → option K) rows batch :
  Forall2 (feeds cols idkey) rows batch → map idkey rows = map (Some ∘ fst) batch.
Proof.
  induction 1 as [|r kv rows batch [_ Hk] _ IH]; [reflexivity|].
  simpl. rewrite Hk, IH. reflexivity.
Qed.

Lemma written_stores `{Countable K} cols (idkey : pyrow → option K) rows
    (t t' : gmap K (tuple * nat)) r k :
  written cols idkey rows t t' → r ∈ rows → idkey r = Some k → is_Some (t' !! k).
Proof.
  intros (batch & now & Hf & ->) Hin Hk. apply upsert_rows_stores.
  apply list_elem_of_lookup in Hin as [i Hi].
  destruct (Forall2_lookup_l _ _ _ _ _ Hf Hi) as (kv & Hkv & _ & Hid).
  rewrite Hk in Hid. injection Hid as ->.
  apply list_elem_of_fmap. exists kv. split; [reflexivity|].
  eapply list_elem_of_lookup_2, Hkv.
Qed.

Lemma written_dom `{Countable K} cols (idkey : pyrow → option K) rows
    (t t' : gmap K (tuple * nat)) k :
  written cols idkey rows t t' → is_Some (t' !! k) →
  is_Some (t !! k) ∨ ∃ r, r ∈ rows ∧ idkey r = Some k.
Proof.
  intros (batch & now & Hf & ->) Hk.
  apply upsert_rows_dom in Hk as [Hk|Hin]; [left; exact Hk|right].
  apply list_elem_of_fmap in Hin as (kv & -> & Hin).
  apply list_elem_of_lookup in Hin as [i Hi].
  destruct (Forall2_lookup_r _ _ _ _ _ Hf Hi) as (r & Hr & _ & Hid).
  exists r. split; [eapply list_elem_of_lookup_2, Hr|exact Hid].
Qed.

(** X7 — nothing is deleted.  Whatever the records of a batch are and
    however each of them ends, every author, paper and authorship stored
    before the load is still stored after it. *)
Theorem load_never_deletes (E : Env) (papers : list pyval) (d : db) (s : ImportStats)
    (os : list outcome) (d' : db) (s' : ImportStats) :
  load E papers d s = (os, d', s') →
  (∀ k, is_Some (db_authors d !! k) → is_Some (db_authors d' !! k))
  ∧ (∀ k, is_Some (db_papers d !! k) → is_Some (db_papers d' !! k))
  ∧ (∀ k, is_Some (db_paper_authors d !! k) → is_Some (db_paper_authors d' !! k)).
Proof.
  revert d s os d' s'. induction papers as [|paper rest IH]; intros d s os d' s'; simpl.
  - intros [= _ <- _]. auto.
  - destruct (process_paper E paper d s) as [[o d1] s1] eqn:Hp.
    destruct (load E rest d1 s1) as [[os2 d2] s2] eqn:Hl.
    intros [= _ <- _]. destruct (IH _ _ _ _ _ Hl) as (IA & IP & IPA).
    apply process_paper_writes in Hp as (WA & WP).
    split; [|split]; intros k Hk.
    + apply IA. destruct WA as [->|(? & ? & ? & u & _ & _ & _ & Hw)]; [exact Hk|].
      eapply written_keeps; eassumption.
    + apply IP. destruct WP as [[-> _]|(row & _ & Hw & _)]; [exact Hk|].
      eapply written_keeps; eassumption.
    + apply IPA. destruct WP as [[_ ->]|(row & _ & _ & [->|(? & ? & u & n & _ & _ & Hw)])];
        [exact Hk|exact Hk|].
      eapply written_keeps; eassumption.
Qed.

Lemma load_never_deletes_witness :
  load permissive [listed_twice] (snd (fst demo_run1)) new_stats
  = (fst (fst demo_run2), snd (fst demo_run2), snd demo_run2)
  ∧ is_Some (db_authors (snd (fst demo_run1)) !! "A1")
  ∧ is_Some (db_authors (snd (fst demo_run2)) !! "A1").
Proof.
  assert (L2 : load permissive [listed_twice] (snd (fst demo_run1)) new_stats
               = (fst (fst demo_run2), snd (fst demo_run2), snd demo_run2))
    by (unfold demo_run2; destruct (load _ _ _ _) as [[? ?] ?]; reflexivity).
  assert (H1 : is_Some (db_authors (snd (fst demo_run1)) !! "A1"))
    by (vm_compute; eauto).
  split; [exact L2|]. split; [exact H1|].
  exact (proj1 (load_never_deletes permissive _ _ _ _ _ _ L2) "A1" H1).
Defined.

Lemma transform_paper_data_unscored E paper row :
  transform_paper_data E paper = Some row →
  row_get row "fwci" = Some PNone ∧ row_get row "citation_percentile" = Some PNone.
Proof.
  unfold transform_paper_data. intros H.
  destruct (transform_paper_body E paper) as [r|] eqn:Hb; [|discriminate]. subst r.
  unfold transform_paper_body in Hb. cbv zeta in Hb.
  open_chain Hb; try discriminate.
  all: injection Hb as <-; split; reflexivity.
Qed.

Lemma written_null_kept `{Countable K} cols (idkey : pyrow → option K) rows
    (t t' : gmap K (tuple * nat)) k old n c :
  written cols idkey rows t t' →
  t !! k = Some (old, n) →
  policy_of cols c = Some Coalesce →
  Forall (fun r => row_get r c = Some PNone) rows →
  ∃ new n', t' !! k = Some (new, n') ∧ column cols c new = column cols c old.
Proof.
  intros (batch & now & Hf & ->) Hk Hc Hnull.
  destruct (upsert_rows (policies cols) now t batch) as [t' flags] eqn:Hu.
  destruct (coalesce_after cols idkey t t' rows batch now flags k old n c Hf Hu Hk Hc)
    as (new & n' & Hnew & [Hsame|(r & v & Hin & _ & Hv & Hne & _)]).
  - exists new, n'. auto.
  - rewrite Forall_forall in Hnull. rewrite (Hnull r Hin) in Hv. congruence.
Qed.

Lemma process_paper_keeps_scores E paper d s o d' s' k old n :
  process_paper E paper d s = (o, d', s') →
  db_papers d !! k = Some (old, n) →
  ∃ new n', db_papers d' !! k = Some (new, n')
    ∧ column papers_columns "fwci" new = column papers_columns "fwci" old
    ∧ column papers_columns "citation_percentile" new
      = column papers_columns "citation_percentile" old.
Proof.
  intros Hp Hk. apply process_paper_writes in Hp as (_ & [[-> _]|(row & Ht & Hw & _)]).
  { exists old, n. auto. }
  apply transform_paper_data_unscored in Ht as [Hf Hc].
  destruct (written_null_kept _ _ _ _ _ k old n "fwci" Hw Hk eq_refl)
    as (new & n' & Hnew & H1); [constructor; [exact Hf|constructor]|].
  destruct (written_null_kept _ _ _ _ _ k old n "citation_percentile" Hw Hk eq_refl)
    as (new2 & n2 & Hnew2 & H2); [constructor; [exact Hc|constructor]|].
  rewrite Hnew in Hnew2. injection Hnew2 as <- <-.
  exists new, n'. auto.
Qed.

(** X6 — [fwci] and [citation_percentile].  The normaliser fills both
    columns with null and the statement coalesces them, so a load never
    changes the value a stored paper has in either column. *)
Theorem load_never_changes_scores (E : Env) (papers : list pyval) (d : db)
    (s : ImportStats) (os : list outcome) (d' : db) (s' : ImportStats)
    (k : string) (old : tuple) (n : nat) :
  load E papers d s = (os, d', s') →
  db_papers d !! k = Some (old, n) →
  ∃ new n', db_papers d' !! k = Some (new, n')
    ∧ column papers_columns "fwci" new = column papers_columns "fwci" old
    ∧ column papers_columns "citation_percentile" new
      = column papers_columns "citation_percentile" old.
Proof.
  revert d s os d' s' old n. induction papers as [|paper rest IH];
    intros d s os d' s' old n; cbn [load].
  - intros [= _ <- _] Hk. exists old, n. auto.
  - destruct (process_paper E paper d s) as [[o d1] s1] eqn:Hp.
    destruct (load E rest d1 s1) as [[os2 d2] s2] eqn:Hl.
    intros [= _ <- _] Hk.
    destruct (process_paper_keeps_scores _ _ _ _ _ _ _ _ _ _ Hp Hk)
      as (mid & n1 & Hmid & F1 & C1).
    destruct (IH _ _ _ _ _ _ _ Hl Hmid) as (new & n' & Hnew & F2 & C2).
    exists new, n'. split; [exact Hnew|]. split; congruence.
Qed.


Lemma load_never_changes_scores_witness :
  load permissive [listed_twice] (snd (fst demo_run1)) new_stats
  = (fst (fst demo_run2), snd (fst demo_run2), snd demo_run2)
  ∧ db_papers (snd (fst demo_run1)) !! "W1"
    = Some (fst demo_stored_paper, snd demo_stored_paper)
  ∧ ∃ new n', db_papers (snd (fst demo_run2)) !! "W1" = Some (new, n')
      ∧ column papers_columns "fwci" new
        = column papers_columns "fwci" (fst demo_stored_paper)
      ∧ column papers_columns "citation_percentile" new
        = column papers_columns "citation_percentile" (fst demo_stored_paper).
Proof.
  assert (L2 : load permissive [listed_twice] (snd (fst demo_run1)) new_stats
               = (fst (fst demo_run2), snd (fst demo_run2), snd demo_run2))
    by (unfold demo_run2; destruct (load _ _ _ _) as [[? ?] ?]; reflexivity).
  assert (H1 : db_papers (snd (fst demo_run1)) !! "W1"
               = Some (fst demo_stored_paper, snd demo_stored_paper))
    by (vm_compute; reflexivity).
  split; [exact L2|]. split; [exact H1|].
  exact (load_never_changes_scores permissive _ _ _ _ _ _ _ _ _ L2 H1).
Defined.

Lemma prepare_paper_id paper row au pas :
  prepare paper row = Some (au, pas) →
  ∃ paper_id, row_get row "paper_id" = Some paper_id
              ∧ Forall (fun pa => row_get pa "paper_id" = Some paper_id) pas.
Proof.
  unfold prepare. intros H. open_chain H; [|discriminate]. injection H as H.
  apply (f_equal snd) in H. simpl in H. subst pas.
  eexists. split; [eassumption|]. apply transform_authorships_paper_id.
Qed.

Lemma process_paper_links E paper d s o d' s' :
  process_paper E paper d s = (o, d', s') →
  links_have_papers d → links_have_papers d'.
Proof.
  intros Hp Hinv p a Hpa.
  apply process_paper_writes in Hp as (_ & [[-> HPA]|(row & Ht & Hw & HPA)]).
  { rewrite HPA in Hpa. eapply Hinv, Hpa. }
  destruct HPA as [HPA|(au & pas & u & n & Hpr & Hd & Hw2)].
  { rewrite HPA in Hpa. eapply written_keeps; [exact Hw|]. eapply Hinv, Hpa. }
  destruct (written_dom _ _ _ _ _ _ Hw2 Hpa) as [Hold|(r & Hr & Hkey)].
  { eapply written_keeps; [exact Hw|]. eapply Hinv, Hold. }
  apply (dedup_paper_authors_subset _ _ _ _ Hd) in Hr.
  apply prepare_paper_id in Hpr as (pid & Hpid & Hall).
  rewrite Forall_forall in Hall. specialize (Hall r Hr).
  unfold stored_pair in Hkey. apply bind_Some in Hkey as (p' & Hp' & Hkey).
  apply bind_Some in Hkey as (a' & _ & [= <- <-]).
  eapply (written_stores _ _ _ _ _ row); [exact Hw|left|].
  unfold stored_id in *. rewrite Hpid. rewrite Hall in Hp'. exact Hp'.
Qed.

(** X8 — authorships point at stored papers.  If every stored authorship
    belongs to a stored paper before a load, the same holds after it: the
    handler writes the authorships of a record only once its paper row is
    in the store. *)
Theorem load_keeps_links_to_papers (E : Env) (papers : list pyval) (d : db)
    (s : ImportStats) (os : list outcome) (d' : db) (s' : ImportStats) :
  load E papers d s = (os, d', s') →
  links_have_papers d → links_have_papers d'.
Proof.
  revert d s os d' s'. induction papers as [|paper rest IH]; intros d s os d' s';
    cbn [load].
  - intros [= _ <- _]. auto.
  - destruct (process_paper E paper d s) as [[o d1] s1] eqn:Hp.
    destruct (load E rest d1 s1) as [[os2 d2] s2] eqn:Hl.
    intros [= _ <- _] Hinv. eapply IH; [exact Hl|].
    eapply process_paper_links; eassumption.
Qed.

Lemma empty_db_links : links_have_papers empty_db.
Proof. intros p a [x Hx]. simpl in Hx. rewrite lookup_empty in Hx. discriminate. Qed.

Lemma load_keeps_links_to_papers_witness :
  load permissive [listed_twice] empty_db new_stats
  = (fst (fst demo_run1), snd (fst demo_run1), snd demo_run1)
  ∧ links_have_papers empty_db
  ∧ links_have_papers (snd (fst demo_run1)).
Proof.
  assert (L1 : load permissive [listed_twice] empty_db new_stats
               = (fst (fst demo_run1), snd (fst demo_run1), snd demo_run1))
    by (unfold demo_run1; destruct (load _ _ _ _) as [[? ?] ?]; reflexivity).
  split; [exact L1|]. split; [exact empty_db_links|].
  exact (load_keeps_links_to_papers permissive _ _ _ _ _ _ L1 empty_db_links).
Defined.

(** ** Counters, exit code and batches *)

Lemma count_outcomes os : count_processed os + count_failed os = length os.
Proof.
  unfold count_processed, count_failed. induction os as [|o os IH]; [reflexivity|].
  rewrite !filter_cons. destruct (decide (o = Processed)), (decide (o ≠ Processed));
    simpl; try lia; contradiction.
Qed.

Lemma count_failed_zero os : count_failed os = 0 ↔ Forall (fun o => o = Processed) os.
Proof.
  unfold count_failed. induction os as [|o os IH]; [split; [constructor|reflexivity]|].
  rewrite filter_cons, Forall_cons. destruct (decide (o ≠ Processed)) as [Hne|He]; simpl.
  - split; [discriminate|]. intros [He _]. contradiction.
  - rewrite IH. apply dec_stable in He. tauto.
Qed.

Lemma load_counters (E : Env) (papers : list pyval) (d : db) (s : ImportStats)
    (os : list outcome) (d' : db) (s' : ImportStats) :
  load E papers d s = (os, d', s') →
  length os = length papers
  ∧ total_papers_processed s' = total_papers_processed s + count_processed os
  ∧ (papers_failed s + count_failed os ≤ papers_failed s'
     ≤ papers_failed s + 2 * count_failed os)%nat
  ∧ (papers_failed s' = papers_failed s ↔ Forall (fun o => o = Processed) os).
Proof.
  intros Hl.
  assert (length os = length papers
          ∧ total_papers_processed s' = total_papers_processed s + count_processed os
          ∧ (papers_failed s + count_failed os ≤ papers_failed s'
             ≤ papers_failed s + 2 * count_failed os)%nat) as (HL & HT & HF).
  { revert d s os d' s' Hl. induction papers as [|paper rest IH]; intros d s os d' s';
      cbn [load].
    - intros [= <- _ <-]. unfold count_processed, count_failed.
      rewrite !filter_nil. simpl. lia.
    - destruct (process_paper E paper d s) as [[o d1] s1] eqn:Hp.
      destruct (load E rest d1 s1) as [[os2 d2] s2] eqn:Hl.
      intros [= <- _ <-]. destruct (IH _ _ _ _ _ Hl) as (IL & IT & IF).
      unfold count_processed, count_failed in *. rewrite !filter_cons.
      apply process_paper_counters in Hp as [(-> & T & F)|(Hne & T & F)].
      + destruct (decide (Processed = Processed)); [|contradiction].
        destruct (decide (Processed ≠ Processed)); [contradiction|].
        simpl. lia.
      + destruct (decide (o = Processed)); [contradiction|].
        destruct (decide (o ≠ Processed)); [|contradiction].
        simpl. lia. }
  split; [exact HL|]. split; [exact HT|]. split; [exact HF|].
  rewrite <- count_failed_zero. lia.
Qed.

(** The loop of [main] does what [load] does on the records it reaches. *)
Lemma main_loop_prefix E papers d s r os d' s' :
  main_loop E papers d s = (r, os, d', s') →
  (length os ≤ length papers)%nat
  ∧ load E (take (length os) papers) d s = (os, d', s')
  ∧ (r = Ok () → length os = length papers)
  ∧ (r ≠ Ok () → ∃ o, last os = Some o ∧ o ≠ Processed).
Proof.
  revert d s r os d' s'. induction papers as [|paper rest IH]; intros d s r os d' s';
    cbn [main_loop].
  - intros [= <- <- <- <-]. repeat split; auto. intros Hne. contradiction.
  - destruct (process_paper E paper d s) as [[o d1] s1] eqn:Hp.
    destruct (success o) eqn:Hok.
    + destruct (main_loop E rest d1 s1) as [[[r2 os2] d2] s2] eqn:Hm.
      intros [= <- <- <- <-]. destruct (IH _ _ _ _ _ _ Hm) as (Hle & Hl & Hall & Hlast).
      cbn [length take load]. rewrite Hp, Hl.
      split; [lia|]. split; [reflexivity|]. split; [intros Hr; rewrite (Hall Hr); reflexivity|].
      intros Hne. destruct (Hlast Hne) as (o' & Ho' & Hne').
      exists o'. split; [|exact Hne']. destruct os2; [discriminate|exact Ho'].
    + destruct (warn_failed paper).
      * destruct (main_loop E rest d1 s1) as [[[r2 os2] d2] s2] eqn:Hm.
        intros [= <- <- <- <-]. destruct (IH _ _ _ _ _ _ Hm) as (Hle & Hl & Hall & Hlast).
        cbn [length take load]. rewrite Hp, Hl.
        split; [lia|]. split; [reflexivity|].
        split; [intros Hr; rewrite (Hall Hr); reflexivity|].
        intros Hne. destruct (Hlast Hne) as (o' & Ho' & Hne').
        exists o'. split; [|exact Hne']. destruct os2; [discriminate|exact Ho'].
      * intros [= <- <- <- <-]. cbn [length take load]. rewrite Hp.
        split; [lia|]. split; [reflexivity|]. split; [discriminate|].
        intros _. exists o. split; [reflexivity|]. intros ->. discriminate.
Qed.

(** X9 — the counters of a run.  The loop of [main] returns one outcome for
    each record it reached: for every record when it ends normally, and up
    to a record that was not processed when its warning raises.
    [total_papers_processed] grows by the number of processed records,
    [papers_failed] by at least one and at most two for each record that
    was not processed, so it is unchanged exactly when every record reached
    was processed. *)
Theorem main_loop_counts_outcomes (E : Env) (papers : list pyval) (d : db)
    (s : ImportStats) (r : result unit) (os : list outcome) (d' : db) (s' : ImportStats) :
  main_loop E papers d s = (r, os, d', s') →
  (length os ≤ length papers)%nat
  ∧ (r = Ok () → length os = length papers)
  ∧ (r ≠ Ok () → ∃ o, last os = Some o ∧ o ≠ Processed)
  ∧ total_papers_processed s' = total_papers_processed s + count_processed os
  ∧ (papers_failed s + count_failed os ≤ papers_failed s'
     ≤ papers_failed s + 2 * count_failed os)%nat
  ∧ (papers_failed s' = papers_failed s ↔ Forall (fun o => o = Processed) os).
Proof.
  intros Hm. destruct (main_loop_prefix _ _ _ _ _ _ _ _ Hm) as (Hle & Hl & Hall & Hlast).
  destruct (load_counters _ _ _ _ _ _ _ Hl) as (_ & HT & HF & Hiff).
  auto 10.
Qed.

Lemma main_loop_counts_outcomes_witness :
  main_loop permissive [PInt 5; listed_twice] empty_db new_stats
  = (Raise PyException, [NotNormalized], empty_db, add_papers new_stats 0 0 1)
  ∧ (length [NotNormalized] ≤ length [PInt 5; listed_twice])%nat
  ∧ (papers_failed (add_papers new_stats 0 0 1)
     ≤ papers_failed new_stats + 2 * count_failed [NotNormalized])%nat.
Proof.
  assert (H1 : main_loop permissive [PInt 5; listed_twice] empty_db new_stats
               = (Raise PyException, [NotNormalized], empty_db,
                  add_papers new_stats 0 0 1))
    by (vm_compute; reflexivity).
  split; [exact H1|].
  pose proof (main_loop_counts_outcomes permissive _ _ _ _ _ _ _ H1)
    as (Hle & _ & _ & _ & [_ Hup] & _).
  split; [exact Hle|exact Hup].
Defined.

Lemma main_loop_Ok E papers d s os d' s' :
  main_loop E papers d s = (Ok (), os, d', s') → load E papers d s = (os, d', s').
Proof.
  revert d s os d' s'. induction papers as [|paper rest IH]; intros d s os d' s';
    cbn [main_loop load].
  - intros [= <- <- <-]. reflexivity.
  - destruct (process_paper E paper d s) as [[o d1] s1].
    destruct (if success o then Some () else warn_failed paper); [|discriminate].
    destruct (main_loop E rest d1 s1) as [[[r os2] d2] s2] eqn:Hm.
    intros [= -> <- <- <-]. rewrite (IH _ _ _ _ _ Hm). reflexivity.
Qed.

Lemma main_loop_all_processed E papers d s os d' s' :
  load E papers d s = (os, d', s') → Forall (fun o => o = Processed) os →
  main_loop E papers d s = (Ok (), os, d', s').
Proof.
  revert d s os d' s'. induction papers as [|paper rest IH]; intros d s os d' s';
    cbn [main_loop load].
  - intros [= <- <- <-] _. reflexivity.
  - destruct (process_paper E paper d s) as [[o d1] s1].
    destruct (load E rest d1 s1) as [[os2 d2] s2] eqn:Hl.
    intros [= <- <- <-] [-> Hall]%Forall_cons. simpl.
    rewrite (IH _ _ _ _ _ Hl Hall). reflexivity.
Qed.

(** X10 — the exit code of [main].  The code is 0 or 1, and it is 0
    exactly when the connection was made, the file held a JSON array and
    every record of it was processed; the store and the statistics are then
    those of the load. *)
Theorem main_exit_code (E : Env) (connects : bool) (file : option pyval) (d : db)
    (code : nat) (d' : db) (s' : ImportStats) :
  main E connects file d = (code, d', s') →
  (code = 0 ∨ code = 1)
  ∧ (code = 0 ↔
     connects = true
     ∧ ∃ papers os, file = Some (PList papers)
                    ∧ load E papers d new_stats = (os, d', s')
                    ∧ Forall (fun o => o = Processed) os).
Proof.
  unfold main. destruct connects.
  2:{ intros [= <- <- <-]. split; [auto|]. split; [discriminate|]. intros [? _]. discriminate. }
  destruct (load_json_file file) as [papers|] eqn:Hf.
  2:{ intros [= <- <- <-]. split; [auto|]. split; [discriminate|].
      intros (_ & papers & os & -> & _). discriminate. }
  assert (file = Some (PList papers)) as ->.
  { destruct file as [[]|]; try discriminate. injection Hf as ->. reflexivity. }
  destruct (main_loop E papers d new_stats) as [[[r os] d1] s1] eqn:Hm.
  destruct r as [[]|e].
  - pose proof (main_loop_Ok _ _ _ _ _ _ _ Hm) as Hl.
    pose proof (load_counters _ _ _ _ _ _ _ Hl) as (_ & _ & _ & Hiff).
    simpl in Hiff.
    destruct (Nat.ltb_spec 0 (papers_failed s1)) as [Hpos|Hzero]; intros [= <- <- <-].
    + split; [auto|]. split; [discriminate|].
      intros (_ & papers' & os' & [= <-] & Hl' & Hall).
      rewrite Hl in Hl'. injection Hl' as <-. apply Hiff in Hall. lia.
    + split; [auto|]. split; [|reflexivity]. intros _. split; [reflexivity|].
      exists papers, os. split; [reflexivity|]. split; [exact Hl|]. apply Hiff. lia.
  - intros [= <- <- <-]. split; [auto|]. split; [discriminate|].
    intros (_ & papers' & os' & [= <-] & Hl' & Hall).
    rewrite (main_loop_all_processed _ _ _ _ _ _ _ Hl' Hall) in Hm. discriminate.
Qed.

Lemma main_exit_code_witness :
  main permissive true (Some (PList [listed_twice])) empty_db
  = (0, snd (fst demo_run1), snd demo_run1)
  ∧ (0 = 0 ∨ 0 = 1)%nat.
Proof.
  assert (H1 : main permissive true (Some (PList [listed_twice])) empty_db
               = (0, snd (fst demo_run1), snd demo_run1))
    by (vm_compute; reflexivity).
  split; [exact H1|].
  exact (proj1 (main_exit_code permissive true _ _ _ _ _ H1)).
Defined.

(** X11 — a record whose id cannot be read stops [main].  When the first
    record is not a JSON object, or its id is a non-zero number, the
    warning about the failed record raises outside the handler: [main]
    exits with 1 after counting that one failure and leaves the store as it
    was, while the bare loop [load] goes on to the remaining records. *)
Theorem unreadable_id_stops_main (E : Env) (paper : pyval) (rest : list pyval) (d : db) :
  is_dict paper = false
  ∨ (∃ n, py_get paper "id" = Some (PInt n) ∧ n ≠ 0%Z) →
  main E true (Some (PList (paper :: rest))) d = (1, d, add_papers new_stats 0 0 1)
  ∧ ∃ os d' s', load E (paper :: rest) d new_stats = (NotNormalized :: os, d', s')
                ∧ length os = length rest.
Proof.
  intros Hbad.
  assert (process_paper E paper d new_stats = (NotNormalized, d, add_papers new_stats 0 0 1)
          ∧ warn_failed paper = None) as [Hp Hw].
  { unfold process_paper, transform_paper_data, transform_paper_body, warn_failed.
    destruct Hbad as [Hnd|(n & Hid & Hn)].
    - destruct paper; try discriminate; split; reflexivity.
    - destruct paper; try discriminate. simpl in Hid.
      cbn [py_get py_get_or].
      destruct (dict_get d0 "id") as [v|]; [|discriminate]. injection Hid as ->.
      assert (extract_id_from_url (PInt n) = None) as Hx.
      { unfold extract_id_from_url. simpl.
        rewrite (proj2 (Z.eqb_neq n 0) Hn). reflexivity. }
      cbn [py_get py_get_or default mbind option_bind id]. rewrite Hx. split; reflexivity. }
  split.
  - unfold main. cbn [load_json_file main_loop]. rewrite Hp, Hw. reflexivity.
  - cbn [load]. rewrite Hp.
    destruct (load E rest d (add_papers new_stats 0 0 1)) as [[os d'] s'] eqn:Hl.
    exists os, d', s'. split; [reflexivity|].
    apply load_counters in Hl as [Hlen _]. exact Hlen.
Qed.

Lemma unreadable_id_stops_main_witness :
  is_dict (PInt 5) = false
  ∧ main permissive true (Some (PList [PInt 5; listed_twice])) empty_db
    = (1, empty_db, add_papers new_stats 0 0 1).
Proof.
  split; [reflexivity|].
  exact (proj1 (unreadable_id_stops_main permissive (PInt 5) [listed_twice] empty_db
                  (or_introl eq_refl))).
Defined.

Lemma last_page_length {A} (l : list A) : length (last_page l) = last_page_size (length l).
Proof. unfold last_page, last_page_size. apply length_drop. Qed.

Lemma count_flags flags : count_inserted flags + count_updated flags = length flags.
Proof.
  unfold count_inserted, count_updated. induction flags as [|b flags IH]; [reflexivity|].
  rewrite !filter_cons. destruct b; simpl.
  - destruct (decide (true = true)); [|contradiction].
    destruct (decide (true = false)); [discriminate|]. simpl. lia.
  - destruct (decide (false = true)); [discriminate|].
    destruct (decide (false = false)); [|contradiction]. simpl. lia.
Qed.

Lemma last_page_size_bounds n :
  ((n ≤ page_size)%nat → last_page_size n = n)
  ∧ ((page_size < n)%nat → (0 < last_page_size n ≤ page_size)%nat).
Proof.
  unfold last_page_size, page_size. split; intros Hn.
  - rewrite Nat.div_small by lia. lia.
  - pose proof (Nat.div_mod_eq (n - 1) 100) as Hd.
    pose proof (Nat.mod_upper_bound (n - 1) 100 ltac:(lia)) as Hm. lia.
Qed.

Lemma written_flags `{Countable K} cols (idkey : pyrow → option K) rows batch now
    (t t' : gmap K (tuple * nat)) flags :
  Forall2 (feeds cols idkey) rows batch →
  upsert_rows (policies cols) now t batch = (t', flags) →
  count_inserted (last_page flags) + count_updated (last_page flags)
  = last_page_size (length rows).
Proof.
  intros Hf Hu. rewrite count_flags, last_page_length.
  pose proof (upsert_rows_flags_length (policies cols) now t batch) as Hl.
  rewrite Hu in Hl. simpl in Hl. rewrite Hl, <- (Forall2_length _ _ _ Hf). reflexivity.
Qed.

(** X12 — what the insert and update counters count.  After an accepted
    write the two counters of the table have grown together by the size of
    the last page of 100 rows of the batch (after de-duplication), which is
    the whole batch when it has at most 100 rows and at most 100 rows
    otherwise. *)
Theorem counters_count_the_last_page (E : Env) :
  (∀ papers_data d s d' s',
     upsert_papers E papers_data d s = (Ok (), d', s') →
     papers_inserted s' + papers_updated s'
     = papers_inserted s + papers_updated s + last_page_size (length papers_data))
  ∧ (∀ authors_data unique d s d' s',
       upsert_authors E authors_data d s = (Ok (), d', s') →
       dedup_authors authors_data = Some unique →
       authors_inserted s' + authors_updated s'
       = authors_inserted s + authors_updated s + last_page_size (length unique))
  ∧ (∀ paper_authors_data unique_data removed d s d' s',
       upsert_paper_authors E paper_authors_data d s = (Ok (), d', s') →
       dedup_paper_authors paper_authors_data = Some (unique_data, removed) →
       paper_authors_inserted s' + paper_authors_updated s'
       = paper_authors_inserted s + paper_authors_updated s
         + last_page_size (length unique_data))
  ∧ ∀ n, ((n ≤ page_size)%nat → last_page_size n = n)
         ∧ ((page_size < n)%nat → (0 < last_page_size n ≤ page_size)%nat).
Proof.
  split; [|split; [|split]].
  - intros l d s d' s' Hu.
    apply upsert_papers_inv in Hu
      as (_ & _ & [[_ Hok]|(_ & batch & t & flags & Hf & Hr & _ & ->)]).
    + destruct (Hok eq_refl) as (-> & _ & ->). simpl. unfold last_page_size. simpl. lia.
    + simpl. rewrite <- (written_flags _ _ _ _ _ _ _ _ Hf Hr). lia.
  - intros l u d s d' s' Hu Hd.
    apply upsert_authors_inv in Hu
      as (_ & _ & [[_ Hok]|(_ & u' & batch & t & flags & Hd' & Hf & Hr & _ & ->)]).
    + destruct (Hok eq_refl) as (-> & _ & ->). injection Hd as <-.
      simpl. unfold last_page_size. simpl. lia.
    + rewrite Hd in Hd'. injection Hd' as <-.
      simpl. rewrite <- (written_flags _ _ _ _ _ _ _ _ Hf Hr). lia.
  - intros l u n d s d' s' Hu Hd.
    apply upsert_paper_authors_inv in Hu
      as (_ & _ & [[_ Hok]|(_ & u' & n' & batch & t & flags & Hd' & Hf & Hr & _ & ->)]).
    + destruct (Hok eq_refl) as (_ & -> & [->|[n' Hd']]).
      * injection Hd as <- _. unfold last_page_size. simpl. lia.
      * rewrite Hd in Hd'. injection Hd' as -> _. unfold last_page_size. simpl. lia.
    + rewrite Hd in Hd'. injection Hd' as <- _.
      simpl. rewrite <- (written_flags _ _ _ _ _ _ _ _ Hf Hr). lia.
  - apply last_page_size_bounds.
Qed.

Lemma counters_count_the_last_page_witness :
  upsert_papers permissive [demo_row] empty_db new_stats
  = (Ok (), snd (fst demo_upsert), snd demo_upsert)
  ∧ papers_inserted (snd demo_upsert) + papers_updated (snd demo_upsert)
    = papers_inserted new_stats + papers_updated new_stats
      + last_page_size (length [demo_row]).
Proof.
  assert (H1 : upsert_papers permissive [demo_row] empty_db new_stats
               = (Ok (), snd (fst demo_upsert), snd demo_upsert))
    by (vm_compute; reflexivity).
  split; [exact H1|].
  exact (proj1 (counters_count_the_last_page permissive) _ _ _ _ _ H1).
Defined.

(** ** De-duplication and what a success stores *)

Lemma dict_set_fresh {V} k (v : V) d :
  k ∉ map fst d → dict_set k v d = (d ++ [(k, v)])%list.
Proof.
  induction d as [|[k' v'] d IH]; intros Hk; [reflexivity|].
  simpl in *. apply not_elem_of_cons in Hk as [Hne Hk].
  destruct (decide (k = k')); [contradiction|]. rewrite (IH Hk). reflexivity.
Qed.

Lemma unique_authors_distinct (d2 d1 : list (hkey * pyrow)) :
  keyed_by author_key d2 → NoDup (map fst (d1 ++ d2)) →
  fold_opt (fun d a => k ← author_key a; Some (dict_set k a d)) d1 (map snd d2)
  = Some (d1 ++ d2)%list.
Proof.
  revert d1. induction d2 as [|[k a] d2 IH]; intros d1 Hk Hnd.
  - simpl. rewrite app_nil_r. reflexivity.
  - apply Forall_cons in Hk as [Hka Hk]. simpl in Hka. simpl. rewrite Hka. simpl.
    rewrite dict_set_fresh.
    + rewrite IH; [rewrite <- app_assoc; reflexivity|exact Hk|].
      rewrite <- app_assoc. exact Hnd.
    + rewrite map_app in Hnd. apply NoDup_app in Hnd as (_ & Hdis & _).
      intros Hin. apply (Hdis k Hin). left.
Qed.

Lemma dedup_step_distinct (u2 : list pyrow) (seen2 seen1 : list (hkey * hkey)) u1 n :
  Forall2 (fun x k => paper_author_key x = Some k) u2 seen2 →
  NoDup (seen1 ++ seen2) →
  fold_opt dedup_step (seen1, u1, n) u2 = Some ((seen1 ++ seen2)%list, (u1 ++ u2)%list, n).
Proof.
  intros Hf. revert seen1 u1. induction Hf as [|x k u2 seen2 Hk _ IH]; intros seen1 u1 Hnd.
  - simpl. rewrite !app_nil_r. reflexivity.
  - cbn [fold_opt dedup_step]. rewrite Hk. simpl.
    destruct (decide (k ∈ seen1)) as [Hin|_].
    + apply NoDup_app in Hnd as (_ & Hdis & _). destruct (Hdis k Hin). left.
    + simpl. rewrite IH; [rewrite <- !app_assoc; reflexivity|].
      rewrite <- app_assoc. exact Hnd.
Qed.

(** X13 — the de-duplications are idempotent.  The author rows that
    survive [upsert_authors]' de-duplication survive it again unchanged,
    and so do the authorship rows of [upsert_paper_authors], with no
    duplicate counted. *)
Theorem dedup_is_idempotent :
  (∀ authors_data unique,
     dedup_authors authors_data = Some unique → dedup_authors unique = Some unique)
  ∧ (∀ paper_authors_data unique_data removed,
       dedup_paper_authors paper_authors_data = Some (unique_data, removed) →
       dedup_paper_authors unique_data = Some (unique_data, 0)).
Proof.
  split.
  - intros l u (d & -> & Hnd & Hk & _)%dedup_authors_inv.
    unfold dedup_authors, unique_authors.
    rewrite (unique_authors_distinct d [] Hk Hnd). reflexivity.
  - intros l u n (seen & Hf & Hnd & _)%dedup_paper_authors_inv.
    unfold dedup_paper_authors.
    rewrite (dedup_step_distinct u seen [] [] 0 Hf Hnd). reflexivity.
Qed.

Lemma dedup_is_idempotent_witness :
  dedup_authors (fst demo_rows) = Some demo_unique
  ∧ dedup_authors demo_unique = Some demo_unique.
Proof.
  assert (H1 : dedup_authors (fst demo_rows) = Some demo_unique)
    by (vm_compute; reflexivity).
  split; [exact H1|].
  exact (proj1 dedup_is_idempotent _ _ H1).
Defined.

Lemma unique_authors_keys l :
  ∀ d d', fold_opt (fun d a => k ← author_key a; Some (dict_set k a d)) d l = Some d' →
          Forall (fun a => is_Some (author_key a)) l.
Proof.
  induction l as [|a l IH]; intros d d'; simpl; [constructor|].
  intros (d1 & H1 & H2)%bind_Some. apply bind_Some in H1 as (k & Hk & _).
  constructor; [eauto|]. eapply IH, H2.
Qed.

Lemma dedup_step_keys l :
  ∀ st st', fold_opt dedup_step st l = Some st' →
            Forall (fun pa => is_Some (paper_author_key pa)) l.
Proof.
  induction l as [|a l IH]; intros st st'; simpl; [constructor|].
  intros (st1 & H1 & H2)%bind_Some. constructor; [|eapply IH, H2].
  destruct st as [[seen u] n]. unfold dedup_step in H1.
  apply bind_Some in H1 as (k & Hk & _). eauto.
Qed.

(** Every author row of a batch has a survivor with its id. *)
Lemma dedup_authors_covers l u a :
  dedup_authors l = Some u → a ∈ l →
  ∃ r, r ∈ u ∧ is_Some (author_key a) ∧ author_key r = author_key a.
Proof.
  intros Hd Hin.
  assert (is_Some (author_key a)) as [k Hk].
  { unfold dedup_authors, unique_authors in Hd.
    apply fmap_Some in Hd as (d & Hd & _).
    apply unique_authors_keys in Hd. rewrite Forall_forall in Hd. apply Hd, Hin. }
  apply dedup_authors_inv in Hd as (d & -> & Hnd & Hkb & Hfind).
  destruct (last_with_exists author_key k l a Hin Hk) as [r Hr].
  pose proof (Hfind k) as Hf. rewrite Hr in Hf.
  exists r. split; [eapply alist_find_elem, Hf|]. split; [eauto|].
  apply last_with_elem in Hr as [_ Hr]. congruence.
Qed.

Lemma dedup_paper_authors_covers l u n pa :
  dedup_paper_authors l = Some (u, n) → pa ∈ l →
  ∃ r, r ∈ u ∧ is_Some (paper_author_key pa) ∧ paper_author_key r = paper_author_key pa.
Proof.
  intros Hd Hin.
  assert (is_Some (paper_author_key pa)) as [k Hk].
  { unfold dedup_paper_authors in Hd.
    apply bind_Some in Hd as (st & Hd & _).
    apply dedup_step_keys in Hd. rewrite Forall_forall in Hd. apply Hd, Hin. }
  apply dedup_paper_authors_inv in Hd as (seen & _ & _ & _ & _ & Hfirst).
  destruct (first_with_exists paper_author_key k l pa Hin Hk) as [r Hr].
  rewrite <- Hfirst in Hr. apply first_with_elem in Hr as [Hru Hrk].
  exists r. split; [exact Hru|]. split; [eauto|]. congruence.
Qed.

Lemma feeds_elem {K} cols (idkey : pyrow → option K) rows batch r :
  Forall2 (feeds cols idkey) rows batch → r ∈ rows → is_Some (idkey r).
Proof.
  intros Hf Hin. apply list_elem_of_lookup in Hin as [i Hi].
  destruct (Forall2_lookup_l _ _ _ _ _ Hf Hi) as (kv & _ & _ & Hid). eauto.
Qed.

(** X14 — a processed record is in the store.  When [process_paper]
    succeeds on a record whose id is a string, the paper row is stored
    under the id extracted from the record, and every author row and every
    authorship row built from the record has a text key under which a row is
    stored. *)
Theorem processed_record_is_stored (E : Env) (paper : pyval) (d : db) (s : ImportStats)
    (d' : db) (s' : ImportStats) (k : string) :
  process_paper E paper d s = (Processed, d', s') →
  extracted_id paper = Some (PStr k) →
  ∃ row authors_data paper_authors_data,
    transform_paper_data E paper = Some row
    ∧ prepare paper row = Some (authors_data, paper_authors_data)
    ∧ stored_id "paper_id" row = Some k
    ∧ is_Some (db_papers d' !! k)
    ∧ (∀ a, a ∈ authors_data →
         ∃ ka, stored_id "author_id" a = Some ka ∧ is_Some (db_authors d' !! ka))
    ∧ (∀ pa, pa ∈ paper_authors_data →
         ∃ kk, stored_pair pa = Some kk ∧ is_Some (db_paper_authors d' !! kk)).
Proof.
  intros Hp Hid.
  apply process_paper_Processed in Hp
    as (row & au & pas & d1 & s1 & d2 & s2 & s3 & Ht & Hpr & H1 & H2 & H3 & _).
  exists row, au, pas. split; [exact Ht|]. split; [exact Hpr|].
  assert (Hk : stored_id "paper_id" row = Some k).
  { destruct (transform_paper_data_id _ _ _ Ht) as (id & Hid' & _ & Hrow).
    rewrite Hid in Hid'. injection Hid' as <-.
    unfold stored_id. rewrite Hrow. reflexivity. }
  split; [exact Hk|].
  apply upsert_authors_inv in H1 as (_ & _ & A1).
  apply upsert_papers_inv in H2 as (A2 & _ & P2).
  apply upsert_paper_authors_inv in H3 as (A3 & P3 & PA3).
  split; [|split].
  - rewrite P3. destruct P2 as [[_ Hok]|(_ & batch & t & flags & Hf & Hr & -> & _)].
    { destruct (Hok eq_refl) as [? _]. discriminate. }
    simpl.
    eapply (written_stores papers_columns (stored_id "paper_id") [row]); [|left|exact Hk].
    exists batch, (db_clock d1). split; [exact Hf|]. rewrite Hr. reflexivity.
  - intros a Hin. rewrite A3, A2.
    destruct A1 as [[_ Hok]|(_ & u & batch & t & flags & Hd & Hf & Hr & -> & _)].
    { destruct (Hok eq_refl) as (-> & _). inversion Hin. }
    destruct (dedup_authors_covers _ _ _ Hd Hin) as (r & Hru & _ & Hkey).
    destruct (feeds_elem _ _ _ _ r Hf Hru) as [ka Hka].
    exists ka. split.
    + apply stored_id_key. rewrite <- Hkey. apply stored_id_key, Hka.
    + simpl. eapply (written_stores authors_columns (stored_id "author_id") u);
        [|exact Hru|exact Hka].
      exists batch, (db_clock d). split; [exact Hf|]. rewrite Hr. reflexivity.
  - intros pa Hin.
    destruct PA3 as [[_ Hok]|(_ & u & n & batch & t & flags & Hd & Hf & Hr & -> & _)].
    { destruct (Hok eq_refl) as (_ & _ & [->|[n Hd]]); [inversion Hin|].
      destruct (dedup_paper_authors_covers _ _ _ _ Hd Hin) as (r & Hru & _).
      inversion Hru. }
    destruct (dedup_paper_authors_covers _ _ _ _ Hd Hin) as (r & Hru & _ & Hkey).
    destruct (feeds_elem _ _ _ _ r Hf Hru) as [[pk ak] Hkk].
    exists (pk, ak). split.
    + apply stored_pair_key. rewrite <- Hkey. apply stored_pair_key, Hkk.
    + simpl. eapply (written_stores paper_authors_columns stored_pair u);
        [|exact Hru|exact Hkk].
      exists batch, (db_clock d2). split; [exact Hf|]. rewrite Hr. reflexivity.
Qed.

Lemma processed_record_is_stored_witness :
  process_paper permissive listed_twice empty_db new_stats
  = (Processed, snd (fst demo_run1), snd demo_run1)
  ∧ extracted_id listed_twice = Some (PStr "W1")
  ∧ ∃ row authors_data paper_authors_data,
      transform_paper_data permissive listed_twice = Some row
      ∧ prepare listed_twice row = Some (authors_data, paper_authors_data)
      ∧ stored_id "paper_id" row = Some "W1"
      ∧ is_Some (db_papers (snd (fst demo_run1)) !! "W1")
      ∧ (∀ a, a ∈ authors_data →
           ∃ ka, stored_id "author_id" a = Some ka
                 ∧ is_Some (db_authors (snd (fst demo_run1)) !! ka))
      ∧ (∀ pa, pa ∈ paper_authors_data →
           ∃ kk, stored_pair pa = Some kk
                 ∧ is_Some (db_paper_authors (snd (fst demo_run1)) !! kk)).
Proof.
  assert (H1 : process_paper permissive listed_twice empty_db new_stats
               = (Processed, snd (fst demo_run1), snd demo_run1))
    by (vm_compute; reflexivity).
  assert (H2 : extracted_id listed_twice = Some (PStr "W1"))
    by (vm_compute; reflexivity).
  split; [exact H1|]. split; [exact H2|].
  exact (processed_record_is_stored permissive _ _ _ _ _ _ H1 H2).
Defined.

(* ================================================================== *)
(** * Further properties of the quality validator *)

Section ReportFacts.
Import Quality.

Lemma count_passed_le results : (count_passed results ≤ length results)%nat.
Proof. unfold count_passed. apply length_filter. Qed.

Lemma count_passed_all results :
  count_passed results = length results ↔ forallb passed results = true.
Proof.
  unfold count_passed. induction results as [|r results IH]; [split; reflexivity|].
  rewrite filter_cons. cbn [forallb length].
  pose proof (length_filter (fun r => passed r = true) results) as Hle.
  destruct (passed r) eqn:Hp; simpl.
  - destruct (decide (true = true)); [|contradiction]. simpl. rewrite <- IH. lia.
  - destruct (decide (false = true)); [discriminate|]. split; [lia|discriminate].
Qed.

Lemma count_passed_perm l1 l2 : l1 ≡ₚ l2 → count_passed l1 = count_passed l2.
Proof. unfold count_passed. intros ->. reflexivity. Qed.

Lemma sum_failures_perm l1 l2 : l1 ≡ₚ l2 → sum_failures l1 = sum_failures l2.
Proof.
  unfold sum_failures. induction 1 as [|x l1 l2 _ IH|x y l|l1 l2 l3 _ IH1 _ IH2]; simpl;
    [reflexivity|rewrite IH; reflexivity|lia|congruence].
Qed.

Lemma count_passed_app l1 l2 : count_passed (l1 ++ l2) = count_passed l1 + count_passed l2.
Proof. unfold count_passed. rewrite filter_app, length_app. reflexivity. Qed.

Lemma sum_failures_app l1 l2 :
  sum_failures (l1 ++ l2) = (sum_failures l1 + sum_failures l2)%Z.
Proof.
  unfold sum_failures. induction l1 as [|r l1 IH]; simpl; [reflexivity|]. rewrite IH. lia.
Qed.

Lemma sections_totals (groups : list (string * list TestResult)) :
  let secs := map (fun g => mksection (fst g) (count_passed (snd g)) (length (snd g))
                              (sum_failures (snd g)) (map entry_of (snd g))) groups in
  sum_list (map s_total secs) = length (flat_map snd groups)
  ∧ sum_list (map s_passed secs) = count_passed (flat_map snd groups)
  ∧ foldr Z.add 0%Z (map s_issues secs) = sum_failures (flat_map snd groups).
Proof.
  induction groups as [|g groups (IH1 & IH2 & IH3)]; [repeat split|].
  cbn [map flat_map sum_list foldr s_total s_passed s_issues] in *.
  rewrite length_app, count_passed_app, sum_failures_app, IH1, IH2, IH3. repeat split.
Qed.

(** X15 — the totals of the report.  The report counts every result
    once: passed and failed add up to the total, the totals, the passed
    counts and the issue counts of the sections add up to those of the
    whole report, and the overall status is PASS exactly when
    [run_all_tests] returns [True]. *)
Theorem report_totals_are_consistent (results : list TestResult) :
  let rep := generate_report results in
  total_tests rep = length results
  ∧ passed_tests rep + failed_tests rep = total_tests rep
  ∧ sum_list (map s_total (sections rep)) = total_tests rep
  ∧ sum_list (map s_passed (sections rep)) = passed_tests rep
  ∧ foldr Z.add 0%Z (map s_issues (sections rep)) = total_failures rep
  ∧ overall_pass rep = forallb passed results.
Proof.
  cbv zeta. unfold generate_report. cbn [total_tests passed_tests failed_tests
    total_failures sections overall_pass].
  pose proof (count_passed_le results) as Hle.
  pose proof (group_by_category_members results) as Hperm.
  destruct (sections_totals (group_by_category results)) as (H1 & H2 & H3).
  cbv zeta in H1, H2, H3.
  split; [reflexivity|]. split; [lia|].
  split; [rewrite H1, Hperm; reflexivity|].
  split; [rewrite H2; apply count_passed_perm, Hperm|].
  split; [rewrite H3; apply sum_failures_perm, Hperm|].
  destruct (forallb passed results) eqn:Hall.
  - apply count_passed_all in Hall. apply Nat.eqb_eq. lia.
  - apply Nat.eqb_neq. intros Hz.
    assert (count_passed results = length results) as He by lia.
    apply count_passed_all in He. congruence.
Qed.

End ReportFacts.

Section GroupFacts.
Import Quality.

Lemma group_add_keys r groups :
  map fst (group_add r groups)
  = if decide (category r ∈ map fst groups) then map fst groups
    else (map fst groups ++ [category r])%list.
Proof.
  induction groups as [|[cat rs] groups IH]; [reflexivity|].
  cbn [group_add]. destruct (String.eqb_spec cat (category r)) as [->|Hne].
  - simpl. rewrite decide_True by left. reflexivity.
  - cbn [map fst]. rewrite IH.
    destruct (decide (category r ∈ map fst groups)) as [Hin|Hnin].
    + rewrite decide_True by (right; exact Hin). reflexivity.
    + rewrite decide_False; [reflexivity|].
      intros [Heq|Hin]%elem_of_cons; [congruence|contradiction].
Qed.

Lemma filter_snoc_category (results : list TestResult) r cat :
  filter (fun x => category x = cat) (results ++ [r])%list
  = (filter (fun x => category x = cat) results
     ++ if decide (category r = cat) then [r] else [])%list.
Proof.
  rewrite filter_app, filter_cons, filter_nil.
  destruct (decide (category r = cat)); reflexivity.
Qed.

Lemma group_add_members_of results r groups :
  NoDup (map fst groups) →
  Forall (fun g => snd g = filter (fun x => category x = fst g) results ∧ snd g ≠ [])
         groups →
  (category r ∉ map fst groups → filter (fun x => category x = category r) results = []) →
  Forall (fun g => snd g = filter (fun x => category x = fst g) (results ++ [r])%list
                   ∧ snd g ≠ [])
         (group_add r groups).
Proof.
  induction groups as [|[cat rs] groups IH]; intros Hnd Hg Hfresh.
  - cbn [group_add]. constructor; [|constructor]. simpl. split; [|discriminate].
    rewrite filter_snoc_category, decide_True by reflexivity.
    rewrite Hfresh by (intros Hin; inversion Hin). reflexivity.
  - apply Forall_cons in Hg as [[Hrs Hne] Hg]. simpl in Hrs, Hne.
    apply NoDup_cons in Hnd as [Hcat Hnd].
    cbn [group_add]. destruct (String.eqb_spec cat (category r)) as [->|Hneq].
    + constructor.
      * simpl. rewrite filter_snoc_category, decide_True by reflexivity.
        rewrite Hrs. split; [reflexivity|]. destruct (filter _ results); discriminate.
      * rewrite Forall_forall in Hg. apply Forall_forall. intros g Hin.
        destruct (Hg g Hin) as [Hs Hn]. split; [|exact Hn].
        rewrite filter_snoc_category, decide_False, app_nil_r; [exact Hs|].
        intros Heq. apply Hcat. rewrite Heq. apply list_elem_of_fmap.
        exists g. split; [reflexivity|exact Hin].
    + constructor.
      * simpl. rewrite filter_snoc_category, decide_False, app_nil_r;
          [split; assumption|].
        intros Heq. apply Hneq. symmetry. exact Heq.
      * apply IH; [exact Hnd|exact Hg|]. intros Hnin. apply Hfresh.
        intros [Heq|Hin]%elem_of_cons; [simpl in Heq; congruence|contradiction].
Qed.

Lemma group_add_grouped results groups r :
  grouped results groups → grouped (results ++ [r])%list (group_add r groups).
Proof.
  intros (Hnd & Hg & Hall). split; [|split].
  - rewrite group_add_keys. destruct (decide (category r ∈ map fst groups)); [exact Hnd|].
    apply NoDup_app. split; [exact Hnd|]. split; [|apply NoDup_singleton].
    intros x Hx ->%list_elem_of_singleton. contradiction.
  - apply group_add_members_of; [exact Hnd|exact Hg|]. intros Hnin.
    destruct (filter (fun x => category x = category r) results) as [|t l] eqn:Hf;
      [reflexivity|].
    assert (t ∈ filter (fun x => category x = category r) results) as Ht
      by (rewrite Hf; left).
    apply list_elem_of_filter in Ht as [Hc Hin].
    rewrite Forall_forall in Hall. specialize (Hall t Hin). rewrite Hc in Hall.
    contradiction.
  - rewrite group_add_keys. apply Forall_app. split.
    + eapply Forall_impl; [exact Hall|]. intros x Hx. simpl in *.
      destruct (decide (category r ∈ map fst groups)); [exact Hx|].
      apply elem_of_app. left. exact Hx.
    + constructor; [|constructor].
      destruct (decide (category r ∈ map fst groups)) as [Hin|_]; [exact Hin|].
      apply elem_of_app. right. left.
Qed.

Lemma group_by_category_grouped results : grouped results (group_by_category results).
Proof.
  unfold group_by_category.
  assert (∀ pre acc, grouped pre acc →
            grouped (pre ++ results)%list
                    (fold_left (fun groups r => group_add r groups) results acc)) as Hgen.
  { induction results as [|r results IH]; intros pre acc Hacc; simpl.
    - rewrite app_nil_r. exact Hacc.
    - replace (pre ++ r :: results)%list with ((pre ++ [r]) ++ results)%list
        by (rewrite <- app_assoc; reflexivity).
      apply IH, group_add_grouped, Hacc. }
  apply (Hgen [] []). repeat split; constructor.
Qed.

(** X16 — the sections of the report.  Each category with a result has
    one section and no category has two; a section lists exactly the
    results of its category, in the order in which they ran. *)
Theorem report_sections_by_category (results : list TestResult) :
  let secs := sections (generate_report results) in
  NoDup (map s_category secs)
  ∧ Forall (fun sec =>
              s_entries sec
              = map entry_of (filter (fun r => category r = s_category sec) results)
              ∧ s_entries sec ≠ []) secs
  ∧ Forall (fun r => category r ∈ map s_category secs) results.
Proof.
  cbv zeta. unfold generate_report. cbn [sections].
  destruct (group_by_category_grouped results) as (Hnd & Hg & Hall).
  rewrite map_map. cbn [s_category]. split; [exact Hnd|]. split; [|exact Hall].
  apply Forall_map. eapply Forall_impl; [exact Hg|].
  intros [cat rs] [Hrs Hne]. simpl in *. rewrite <- Hrs. split; [reflexivity|].
  destruct rs; [contradiction|discriminate].
Qed.

End GroupFacts.

Section LoopFacts.
Import Quality.
Variable conn : Type.
Variable run_query : conn → string → conn * answer.

Lemma checks_cons q queries :
  checks (q :: queries) = if blank q then checks queries else q :: checks queries.
Proof.
  unfold checks. rewrite filter_cons. destruct (blank q); reflexivity.
Qed.

Lemma run_queries_category continue cat info c i queries :
  Forall (fun r => category r = cat)
         (snd (run_queries conn run_query continue cat info c i queries)).
Proof.
  revert c i. induction queries as [|q queries IH]; intros c i; cbn [run_queries];
    [constructor|].
  destruct (blank q); [apply IH|].
  destruct (describe cat info i) as [name desc].
  destruct (run_query c q) as [c1 a].
  assert (category (record_answer (fresh name cat desc) a) = cat) as Hc.
  { unfold record_answer. destruct (snd a) as [msg|[count samples]]; reflexivity. }
  destruct (negb (passed _) && negb continue).
  - simpl. constructor; [exact Hc|constructor].
  - specialize (IH c1 (S i)).
    destruct (run_queries conn run_query continue cat info c1 (S i) queries).
    simpl in *. constructor; assumption.
Qed.

Lemma run_queries_continue cat info c i queries :
  length (snd (run_queries conn run_query true cat info c i queries))
  = length (checks queries).
Proof.
  revert c i. induction queries as [|q queries IH]; intros c i; cbn [run_queries];
    [reflexivity|].
  rewrite checks_cons. destruct (blank q); [apply IH|].
  destruct (describe cat info i) as [name desc].
  destruct (run_query c q) as [c1 a].
  rewrite andb_false_r. specialize (IH c1 (S i)).
  destruct (run_queries conn run_query true cat info c1 (S i) queries).
  simpl in *. rewrite IH. reflexivity.
Qed.

Lemma run_queries_stop cat info c i queries :
  let results := snd (run_queries conn run_query false cat info c i queries) in
  (length results ≤ length (checks queries))%nat
  ∧ (∀ j r, results !! j = Some r → (S j < length results)%nat → passed r = true)
  ∧ ((length results < length (checks queries))%nat →
     ∃ r, last results = Some r ∧ passed r = false).
Proof.
  cbv zeta. revert c i. induction queries as [|q queries IH]; intros c i;
    cbn [run_queries].
  - simpl. split; [lia|]. split; [intros j r Hj; discriminate|]. lia.
  - rewrite checks_cons. destruct (blank q); [apply IH|].
    destruct (describe cat info i) as [name desc].
    destruct (run_query c q) as [c1 a].
    rewrite andb_true_r.
    destruct (passed (record_answer (fresh name cat desc) a)) eqn:Hp; cbn [negb].
    + specialize (IH c1 (S i)).
      destruct (run_queries conn run_query false cat info c1 (S i) queries)
        as [c2 results].
      simpl in *. destruct IH as (Hle & Hall & Hlast).
      split; [lia|]. split.
      * intros [|j] r Hj Hlt; simpl in Hj.
        -- injection Hj as <-. exact Hp.
        -- eapply Hall; [exact Hj|lia].
      * intros Hlt. destruct Hlast as (r & Hr & Hf); [lia|].
        exists r. split; [|exact Hf].
        destruct results; [discriminate|]. rewrite last_cons, Hr. reflexivity.
    + simpl. split; [lia|]. split.
      * intros [|j] r Hj Hlt; simpl in *; [lia|discriminate].
      * intros _. eexists. split; [reflexivity|exact Hp].
Qed.

(** X17 — which checks of a category run.  When the run continues on
    failure there is one result for every query that is not blank.
    Otherwise the run of the category stops at its first failed check:
    every result but the last passed, and when fewer results than checks
    are returned the last one failed.  Every result carries the category
    it ran in. *)
Theorem category_run_coverage (cat : string) (test_info : list (string * string))
    (c : conn) (queries : list string) :
  (length (snd (run_test_category conn run_query true c cat (queries, test_info)))
   = length (checks queries))
  ∧ (let results := snd (run_test_category conn run_query false c cat (queries, test_info)) in
     (length results ≤ length (checks queries))%nat
     ∧ (∀ j r, results !! j = Some r → (S j < length results)%nat → passed r = true)
     ∧ ((length results < length (checks queries))%nat →
        ∃ r, last results = Some r ∧ passed r = false))
  ∧ ∀ continue_on_failure,
      Forall (fun r => category r = cat)
        (snd (run_test_category conn run_query continue_on_failure c cat
                (queries, test_info))).
Proof.
  unfold run_test_category. cbn [fst snd]. split; [|split].
  - apply run_queries_continue.
  - apply run_queries_stop.
  - intros continue. apply run_queries_category.
Qed.

End LoopFacts.

(** ** The files of checks *)

Lemma str_replace_go_absent old new s :
  contains old s = false → str_replace_go old new 0 s = s.
Proof.
  induction s as [|c s IH]; [reflexivity|].
  cbn [contains str_replace_go]. intros [Hp Hc]%orb_false_iff.
  rewrite Hp, (IH Hc). reflexivity.
Qed.

Lemma prefix_split old s :
  String.prefix old s = true → ∃ rest, s = old +:+ rest.
Proof.
  revert s. induction old as [|a old IH]; intros s H.
  - exists s. reflexivity.
  - destruct s as [|c s]; [discriminate|]. cbn [String.prefix] in H.
    destruct (ascii_dec a c) as [->|]; [|discriminate].
    destruct (IH s H) as (rest & ->). exists rest. reflexivity.
Qed.

Lemma str_replace_go_skip old new pre rest :
  str_replace_go old new (String.length pre) (pre +:+ rest)
  = str_replace_go old new 0 rest.
Proof.
  induction pre as [|c pre IH]; [reflexivity|].
  rewrite append_cons. cbn [String.length str_replace_go]. exact IH.
Qed.

Lemma append_length s t : String.length (s +:+ t) = String.length s + String.length t.
Proof.
  induction s as [|c s IH]; [reflexivity|]. rewrite append_cons. simpl. rewrite IH.
  reflexivity.
Qed.

Lemma str_replace_same old s : old ≠ "" → str_replace old old s = s.
Proof.
  intros Hne. unfold str_replace.
  remember (String.length s) as n eqn:Hn. revert s Hn.
  induction n as [n IH] using lt_wf_ind. intros s Hn.
  destruct s as [|c s]; [reflexivity|]. cbn [str_replace_go].
  destruct (String.prefix old (String c s)) eqn:Hp.
  - apply prefix_split in Hp as (rest & Hs).
    destruct old as [|a old]; [contradiction|].
    rewrite append_cons in Hs. injection Hs as -> ->.
    cbn [String.length].
    replace (S (String.length old) - 1) with (String.length old) by lia.
    rewrite str_replace_go_skip.
    rewrite (IH (String.length rest)); [reflexivity| |reflexivity].
    subst n. simpl. rewrite append_length. lia.
  - f_equal. apply (IH (String.length s)); [subst n; simpl; lia|reflexivity].
Qed.

(** X18 — [_apply_config_to_query].  With the default thresholds every
    query is run as it is written; and whatever the thresholds are, a query
    that mentions neither [100000] nor [INTERVAL '30 days'] is run as it is
    written. *)
Theorem default_config_leaves_queries (query threshold window : string) :
  apply_config_to_query "100000" "30" query = query
  ∧ (contains "100000" query = false →
     contains "INTERVAL '30 days'" query = false →
     apply_config_to_query threshold window query = query).
Proof.
  unfold apply_config_to_query. split.
  - rewrite (str_replace_same "100000") by discriminate.
    apply (str_replace_same "INTERVAL '30 days'"). discriminate.
  - intros H1 H2. unfold str_replace.
    rewrite (str_replace_go_absent "100000" threshold query H1).
    apply str_replace_go_absent, H2.
Qed.

Lemma default_config_leaves_queries_witness :
  contains "100000" "SELECT COUNT(*) FROM papers WHERE cited_by_count < 0" = false
  ∧ contains "INTERVAL '30 days'" "SELECT COUNT(*) FROM papers WHERE cited_by_count < 0"
    = false
  ∧ apply_config_to_query "50000" "7" "SELECT COUNT(*) FROM papers WHERE cited_by_count < 0"
    = "SELECT COUNT(*) FROM papers WHERE cited_by_count < 0".
Proof.
  split; [reflexivity|]. split; [reflexivity|].
  exact (proj2 (default_config_leaves_queries
                  "SELECT COUNT(*) FROM papers WHERE cited_by_count < 0" "50000" "7")
               eq_refl eq_refl).
Defined.

Lemma lstrip_head s :
  lstrip s = "" ∨ ∃ c r, lstrip s = String c r ∧ Quality.is_space c = false.
Proof.
  induction s as [|c s IH]; [left; reflexivity|].
  cbn [lstrip]. destruct (Quality.is_space c) eqn:Hc; [exact IH|].
  right. exists c, s. auto.
Qed.

Lemma rstrip_head c r :
  Quality.is_space c = false → ∃ r', rstrip (String c r) = String c r'.
Proof.
  intros Hc. cbn [rstrip]. rewrite Hc. destruct (rstrip r); eauto.
Qed.

Lemma strip_nonblank s : strip s ≠ "" → Quality.blank (strip s) = false.
Proof.
  unfold strip. destruct (lstrip_head s) as [->|(c & r & -> & Hc)]; [contradiction|].
  intros _. destruct (rstrip_head c r Hc) as (r' & ->).
  unfold Quality.blank. cbn [list_ascii_of_string forallb]. rewrite Hc. reflexivity.
Qed.

Lemma save_query_checks current queries :
  Forall is_check queries → Forall is_check (save_query current queries).
Proof.
  intros Hq. unfold save_query. cbv zeta.
  destruct (String.eqb_spec (strip (join_lines current)) "") as [_|Hne]; [exact Hq|].
  cbn [negb andb]. destruct (contains "SELECT" _) eqn:Hc; [|exact Hq].
  apply Forall_app. split; [exact Hq|]. constructor; [|constructor].
  split; [apply strip_nonblank, Hne|exact Hc].
Qed.

Lemma save_query_length current queries :
  (length (save_query current queries) ≤ S (length queries))%nat.
Proof.
  unfold save_query. cbv zeta. destruct (_ && _); [|lia].
  rewrite length_app. simpl. lia.
Qed.

(** The loop of [_load_sql_file] keeps checks only, at most one for each
    header read; an open section has its header counted already. *)
Lemma scan_line_invariant st line n :
  Forall is_check (scan_queries st) →
  (length (scan_queries st) + (if in_test_section st then 1 else 0) ≤ n)%nat →
  Forall is_check (scan_queries (scan_line st line))
  ∧ (length (scan_queries (scan_line st line))
     + (if in_test_section (scan_line st line) then 1 else 0)
     ≤ n + (if test_header line then 1 else 0))%nat.
Proof.
  intros Hq Hn. unfold scan_line, test_header. cbv zeta.
  destruct st as [queries current sect]. cbn [scan_queries current_query in_test_section] in *.
  pose proof (save_query_checks current queries Hq) as Hs.
  pose proof (save_query_length current queries) as Hl.
  destruct (String.prefix "-- Test " (strip line)).
  - cbn [scan_queries current_query in_test_section].
    assert (Forall is_check (if nonempty current && sect then save_query current queries
                             else queries)
            ∧ (length (if nonempty current && sect then save_query current queries
                       else queries) ≤ n)%nat) as [Hq1 Hn1].
    { destruct (nonempty current); destruct sect; cbn [andb];
        (split; [assumption|lia]). }
    destruct (String.prefix section_rule (strip line) && nonempty _ && true);
      cbn [scan_queries in_test_section].
    + split; [apply save_query_checks, Hq1|].
      pose proof (save_query_length ([] ++ [line])%list
                    (if nonempty current && sect then save_query current queries
                     else queries)). lia.
    + split; [exact Hq1|lia].
  - destruct sect; cbn [scan_queries current_query in_test_section].
    + destruct (String.prefix section_rule (strip line) && nonempty _ && true);
        cbn [scan_queries in_test_section].
      * split; [apply save_query_checks, Hq|].
        pose proof (save_query_length (current ++ [line])%list queries). lia.
      * split; [exact Hq|lia].
    + rewrite andb_false_r. cbn [scan_queries in_test_section]. split; [exact Hq|lia].
Qed.

Lemma scan_lines_invariant lines st n :
  Forall is_check (scan_queries st) →
  (length (scan_queries st) + (if in_test_section st then 1 else 0) ≤ n)%nat →
  Forall is_check (scan_queries (foldl scan_line st lines))
  ∧ (length (scan_queries (foldl scan_line st lines))
     + (if in_test_section (foldl scan_line st lines) then 1 else 0)
     ≤ n + length (filter (fun l => test_header l = true) lines))%nat.
Proof.
  revert st n. induction lines as [|line lines IH]; intros st n Hq Hn.
  - simpl. split; [exact Hq|lia].
  - cbn [foldl]. destruct (scan_line_invariant st line n Hq Hn) as [Hq1 Hn1].
    destruct (IH _ _ Hq1 Hn1) as [Hq2 Hn2]. split; [exact Hq2|].
    rewrite filter_cons. destruct (test_header line); simpl in *; lia.
Qed.

Lemma parse_line_invariant (st : list (string * string) * option (string * string))
    line n :
  length (fst st) + match snd st with Some _ => 1 | None => 0 end = n →
  length (fst (parse_line st line)) + match snd (parse_line st line) with Some _ => 1 | None => 0 end
  = n + (if test_header line then 1 else 0).
Proof.
  destruct st as [info [[name desc]|]]; unfold parse_line, test_header; cbv zeta;
    cbn [fst snd]; intros Hn.
  - destruct (String.prefix "-- Test " (strip line)); cbn [fst snd].
    + rewrite length_app. simpl. lia.
    + destruct (String.prefix "--" (strip line) && String.eqb desc ""); cbn [fst snd];
        [|lia].
      destruct (negb _ && negb _); cbn [fst snd]; lia.
  - destruct (String.prefix "-- Test " (strip line)); cbn [fst snd]; lia.
Qed.

Lemma parse_lines_invariant lines
    (st : list (string * string) * option (string * string)) n :
  length (fst st) + match snd st with Some _ => 1 | None => 0 end = n →
  length (fst (foldl parse_line st lines))
  + match snd (foldl parse_line st lines) with Some _ => 1 | None => 0 end
  = n + length (filter (fun l => test_header l = true) lines).
Proof.
  revert st n. induction lines as [|line lines IH]; intros st n Hn.
  - simpl. lia.
  - cbn [foldl]. rewrite (IH _ _ (parse_line_invariant st line n Hn)).
    rewrite filter_cons. destruct (test_header line); simpl; lia.
Qed.

Lemma loaded_checks content :
  Forall is_check (load_sql_file content)
  ∧ (length (load_sql_file content) ≤ length (parse_test_info content))%nat.
Proof.
  destruct content as [text|]; [|split; [constructor|reflexivity]].
  unfold load_sql_file, parse_test_info. cbv zeta.
  destruct (scan_lines_invariant (split_lines text) (mkscan [] [] false) 0)
    as [Hq Hn]; [constructor|simpl; lia|].
  pose proof (parse_lines_invariant (split_lines text) ([], None) 0 eq_refl) as Hp.
  destruct (foldl parse_line ([], None) (split_lines text)) as [info cur].
  cbn [fst snd] in Hp.
  assert (length (match cur with Some t => (info ++ [t])%list | None => info end)
          = length (filter (fun l => test_header l = true) (split_lines text))) as ->.
  { destruct cur; [rewrite length_app; simpl|]; lia. }
  destruct (foldl scan_line (mkscan [] [] false) (split_lines text))
    as [queries current sect]. cbn [scan_queries current_query in_test_section] in *.
  destruct (nonempty current && sect) eqn:Hb.
  - split; [apply save_query_checks, Hq|].
    pose proof (save_query_length current queries).
    apply andb_true_iff in Hb as [_ ->]. lia.
  - split; [exact Hq|]. lia.
Qed.

Lemma checks_all queries : Forall is_check queries → checks queries = queries.
Proof.
  unfold checks. induction 1 as [|q qs [Hb _] _ IH]; [reflexivity|].
  rewrite filter_cons, decide_True; [|exact Hb]. rewrite IH. reflexivity.
Qed.

(** X19 — what [_load_sql_file] returns.  Every query it returns holds a
    [SELECT] and is not blank, so the runner skips none of them; and there
    are never more queries than test headers found by [_parse_test_info] in
    the same file. *)
Theorem loaded_queries_are_named_checks (content : option string) :
  Forall (fun q => Quality.blank q = false ∧ contains "SELECT" q = true)
         (load_sql_file content)
  ∧ (length (load_sql_file content) ≤ length (parse_test_info content))%nat
  ∧ checks (load_sql_file content) = load_sql_file content.
Proof.
  destruct (loaded_checks content) as [Hq Hn].
  split; [exact Hq|]. split; [exact Hn|]. apply checks_all, Hq.
Qed.

Section NameFacts.
Import Quality.
Variable conn : Type.
Variable run_query : conn → string → conn * answer.
Variable continue_on_failure : bool.

Lemma record_answer_name r a :
  test_name (record_answer r a) = test_name r
  ∧ description (record_answer r a) = description r.
Proof. unfold record_answer. destruct (snd a) as [msg|[count samples]]; split; reflexivity. Qed.

Lemma run_queries_names cat info c i queries :
  Forall is_check queries →
  (i + length queries ≤ length info)%nat →
  ∀ j r,
    snd (run_queries conn run_query continue_on_failure cat info c i queries) !! j = Some r →
    info !! (i + j)%nat = Some (test_name r, description r).
Proof.
  intros Hq. revert c i. induction Hq as [|q queries [Hb _] _ IH]; intros c i Hlen j r;
    cbn [run_queries]; [discriminate|].
  rewrite Hb. unfold describe.
  destruct (info !! i) as [[name desc]|] eqn:Hi.
  2:{ apply lookup_ge_None in Hi. simpl in Hlen. lia. }
  destruct (run_query c q) as [c1 a].
  destruct (record_answer_name (fresh name cat desc) a) as [Hname Hdesc].
  simpl in Hname, Hdesc, Hlen.
  destruct (negb (passed _) && negb continue_on_failure).
  - destruct j as [|j]; [|discriminate]. intros [= <-].
    rewrite Nat.add_0_r, Hname, Hdesc. exact Hi.
  - specialize (IH c1 (S i)).
    destruct (run_queries conn run_query continue_on_failure cat info c1 (S i) queries)
      as [c2 results].
    destruct j as [|j]; simpl.
    + intros [= <-]. rewrite Nat.add_0_r, Hname, Hdesc. exact Hi.
    + intros Hj. replace (i + S j)%nat with (S i + j)%nat by lia.
      apply IH; [lia|exact Hj].
Qed.

(** X20 — the names of the checks.  When the queries and the test
    information come from the same file, the [j]-th result of a category
    carries the name and the description of the [j]-th test header of the
    file, never the default name; a header without a query therefore lends
    its name to the query of the next one. *)
Theorem checks_are_named_in_file_order (cat : string) (c : conn)
    (content : option string) :
  let results :=
    snd (run_test_category conn run_query continue_on_failure c cat
           (load_sql_file content, parse_test_info content)) in
  (length results ≤ length (load_sql_file content))%nat
  ∧ ∀ j r, results !! j = Some r →
           parse_test_info content !! j = Some (test_name r, description r).
Proof.
  cbv zeta. unfold run_test_category. cbn [fst snd].
  destruct (loaded_checks content) as [Hq Hn]. split.
  - destruct continue_on_failure.
    + rewrite run_queries_continue, (checks_all _ Hq). reflexivity.
    + destruct (run_queries_stop conn run_query cat (parse_test_info content) c 0
                  (load_sql_file content)) as (Hle & _).
      rewrite (checks_all _ Hq) in Hle. exact Hle.
  - intros j r Hj.
    apply (run_queries_names cat (parse_test_info content) c 0 (load_sql_file content)
             Hq Hn j r Hj).
Qed.

End NameFacts.

Lemma category_run_coverage_witness :
  (length demo_stopped < length (checks (load_sql_file (Some demo_sql))))%nat
  ∧ ∃ r, last demo_stopped = Some r ∧ Quality.passed r = false.
Proof.
  assert (H1 : (length demo_stopped < length (checks (load_sql_file (Some demo_sql))))%nat)
    by (vm_compute; lia).
  split; [exact H1|].
  exact (proj2 (proj2 (proj1 (proj2
           (category_run_coverage unit Quality.broken_query "Data Validity"
              (parse_test_info (Some demo_sql)) tt (load_sql_file (Some demo_sql)))))) H1).
Defined.

Lemma checks_are_named_in_file_order_witness :
  demo_checks !! 1%nat = Some demo_second
  ∧ parse_test_info (Some demo_sql) !! 1%nat
    = Some (Quality.test_name demo_second, Quality.description demo_second).
Proof.
  assert (H1 : demo_checks !! 1%nat = Some demo_second) by (vm_compute; reflexivity).
  split; [exact H1|].
  exact (proj2 (checks_are_named_in_file_order unit Quality.broken_query true
                  "Data Validity" tt (Some demo_sql)) 1%nat demo_second H1).
Defined.

(* ================================================================== *)
(** * Further properties of the normaliser *)


Lemma py_lt_num a b x y :
  py_num a = Some x → py_num b = Some y → py_lt a b = Some (negb (Qle_bool y x)).
Proof.
  destruct a; try discriminate; destruct b; try discriminate;
    simpl; intros [= <-] [= <-]; reflexivity.
Qed.

(** Numbers can always be compared. *)
Lemma comparable_num keys :
  Forall (fun k => is_Some (py_num k)) keys → comparable keys = true.
Proof.
  induction 1 as [|k keys [x Hx] Hall IH]; [reflexivity|].
  cbn [comparable]. rewrite IH, andb_true_r. apply forallb_forall.
  intros k' Hin. apply list_elem_of_In in Hin.
  destruct (proj1 (Forall_forall _ _) Hall k' Hin) as [y Hy].
  rewrite (py_lt_num _ _ _ _ Hx Hy), (py_lt_num _ _ _ _ Hy Hx). reflexivity.
Qed.




















Lemma remove_all_go_absent old s :
  contains old s = false → remove_all_go old 0 s = s.
Proof.
  induction s as [|c s IH]; [reflexivity|].
  cbn [contains remove_all_go]. intros [Hp Hc]%orb_false_iff.
  rewrite Hp, (IH Hc). reflexivity.
Qed.

Lemma remove_all_go_skip old pre rest :
  remove_all_go old (String.length pre) (pre +:+ rest) = remove_all_go old 0 rest.
Proof.
  induction pre as [|c pre IH]; [reflexivity|].
  rewrite append_cons. cbn [String.length remove_all_go]. exact IH.
Qed.

Lemma prefix_append old rest : String.prefix old (old +:+ rest) = true.
Proof.
  induction old as [|a old IH]; [destruct rest; reflexivity|].
  rewrite append_cons. cbn [String.prefix].
  destruct (ascii_dec a a); [exact IH|contradiction].
Qed.

Lemma remove_all_prefixed a old rest :
  contains (String a old) rest = false →
  remove_all (String a old) (String a old +:+ rest) = rest.
Proof.
  intros Hc. unfold remove_all.
  pose proof (prefix_append (String a old) rest) as Hp.
  rewrite append_cons in *. cbn [remove_all_go]. rewrite Hp.
  cbn [String.length].
  replace (S (String.length old) - 1) with (String.length old) by lia.
  rewrite remove_all_go_skip. apply remove_all_go_absent, Hc.
Qed.

Lemma transform_paper_data_doi E paper row :
  transform_paper_data E paper = Some row →
  ∃ doi0,
    py_get_or paper "doi" (PStr "") = Some doi0
    ∧ ((truthy doi0 = false ∧ row_get row "doi" = Some PNone)
       ∨ ∃ s, doi0 = PStr s ∧ s ≠ ""
              ∧ row_get row "doi"
                = Some (py_or (if String.prefix doi_resolver s
                               then PStr (remove_all doi_resolver s) else PStr s) PNone)).
Proof.
  unfold transform_paper_data. intros H.
  destruct (transform_paper_body E paper) as [r|] eqn:Hb; [|discriminate]. subst r.
  unfold transform_paper_body in Hb. cbv zeta in Hb.
  open_chain Hb; try discriminate.
  all: injection Hb as <-;
    match goal with
    | Hd : py_get_or _ "doi" (PStr "") = Some ?doi0 |- _ => exists doi0; split; [exact Hd|]
    end.
  all: match goal with
       | Hm : (if truthy ?doi0 then _ else _) = Some ?doi |- _ =>
           destruct (truthy doi0) eqn:Ht;
           [ right; destruct doi0; try discriminate; injection Hm as <-;
             eexists; split; [reflexivity|]; split;
             [intros ->; discriminate|reflexivity]
           | left; injection Hm as <-; split; [reflexivity|];
             cbn [row_get dict_get String.eqb Ascii.eqb Bool.eqb]; unfold py_or;
             rewrite Ht; reflexivity ]
       end.
Qed.

(** X22 — the DOI column.  The row of an accepted record never holds
    the empty string as DOI: an empty or missing DOI is null.  A DOI given
    with the resolver prefix is stored without it, and a DOI given without
    the prefix is stored as it is. *)
Theorem doi_is_stored_without_resolver (E : Env) (paper : pyval) (row : pyrow) :
  transform_paper_data E paper = Some row →
  (∃ v, row_get row "doi" = Some v ∧ v ≠ PStr "")
  ∧ (∀ x, py_get_or paper "doi" (PStr "") = Some (PStr (doi_resolver +:+ x)) →
          contains doi_resolver x = false →
          row_get row "doi" = Some (if String.eqb x "" then PNone else PStr x))
  ∧ (∀ s, py_get_or paper "doi" (PStr "") = Some (PStr s) →
          String.prefix doi_resolver s = false →
          row_get row "doi" = Some (if String.eqb s "" then PNone else PStr s)).
Proof.
  intros (doi0 & Hd & Hrow)%transform_paper_data_doi. split; [|split].
  - destruct Hrow as [[_ ->]|(s & -> & Hne & ->)]; [eexists; split; [reflexivity|discriminate]|].
    eexists. split; [reflexivity|].
    destruct (String.prefix doi_resolver s); unfold py_or; cbn [truthy].
    + destruct (String.eqb_spec (remove_all doi_resolver s) ""); cbn [negb];
        [discriminate|congruence].
    + destruct (String.eqb_spec s ""); cbn [negb]; [discriminate|congruence].
  - intros x Hx Hc. rewrite Hd in Hx. injection Hx as ->.
    destruct Hrow as [[Ht _]|(s & [= <-] & _ & ->)]; [discriminate|].
    rewrite prefix_append. unfold doi_resolver at 1 2.
    rewrite remove_all_prefixed by exact Hc.
    unfold py_or. cbn [truthy]. destruct (String.eqb x ""); reflexivity.
  - intros s Hs Hp. rewrite Hd in Hs. injection Hs as ->.
    destruct Hrow as [[Ht ->]|(s' & [= <-] & Hne & ->)].
    + cbn [truthy] in Ht. apply negb_false_iff in Ht. rewrite Ht. reflexivity.
    + rewrite Hp. unfold py_or. cbn [truthy]. destruct (String.eqb s ""); reflexivity.
Qed.

Lemma doi_is_stored_without_resolver_witness :
  transform_paper_data permissive ranked_concepts = Some demo_ranked_row
  ∧ py_get_or ranked_concepts "doi" (PStr "") = Some (PStr (doi_resolver +:+ "10.1000/xyz"))
  ∧ contains doi_resolver "10.1000/xyz" = false
  ∧ row_get demo_ranked_row "doi" = Some (PStr "10.1000/xyz").
Proof.
  assert (H1 : transform_paper_data permissive ranked_concepts = Some demo_ranked_row)
    by (vm_compute; reflexivity).
  assert (H2 : py_get_or ranked_concepts "doi" (PStr "")
               = Some (PStr (doi_resolver +:+ "10.1000/xyz"))) by reflexivity.
  assert (H3 : contains doi_resolver "10.1000/xyz" = false) by reflexivity.
  split; [exact H1|]. split; [exact H2|]. split; [exact H3|].
  exact (proj1 (proj2 (doi_is_stored_without_resolver permissive _ _ H1)) _ H2 H3).
Defined.

(* ================================================================== *)
(** * Further properties of the execution of a check *)

Lemma prefix_weaken n x y : String.prefix n x = true → String.prefix n (x +:+ y) = true.
Proof.
  revert x. induction n as [|a n IH]; intros x H; [destruct (x +:+ y); reflexivity|].
  destruct x as [|c x]; [discriminate|]. rewrite append_cons. cbn [String.prefix] in *.
  destruct (ascii_dec a c); [apply IH, H|discriminate].
Qed.

Lemma break_at_spec n s a b :
  n ≠ "" → break_at n s = Some (a, b) →
  s = a +:+ b ∧ String.prefix n b = true ∧ contains n a = false.
Proof.
  intros Hn. revert a b. induction s as [|c s IH]; intros a b.
  - cbn [break_at]. destruct (String.prefix n "") eqn:Hp.
    + destruct n; [contradiction|discriminate].
    + discriminate.
  - cbn [break_at]. destruct (String.prefix n (String c s)) eqn:Hp.
    + intros [= <- <-]. split; [reflexivity|]. split; [exact Hp|].
      destruct n; [contradiction|reflexivity].
    + intros ([a' b'] & Hb & [= -> ->])%fmap_Some. cbn [fst snd].
      destruct (IH a' b' Hb) as (-> & Hpb & Hc). split; [reflexivity|]. split; [exact Hpb|].
      cbn [contains]. rewrite Hc, orb_false_r.
      destruct (String.prefix n (String c a')) eqn:Hpa; [|reflexivity].
      apply (prefix_weaken _ _ b') in Hpa. rewrite append_cons in Hpa. congruence.
Qed.

(** X24 — the count query ends at the second [SELECT].  When a test is
    run as two statements, the query is cut at its first two [SELECT]s: the
    count statement is the text from the first one up to the second, which
    holds no further [SELECT], and the sample statement is the rest; each
    is stripped and loses one final semicolon.  A count query with a
    sub-select is therefore cut inside itself. *)
Theorem count_query_stops_at_second_select (query count_query sample_query : string) :
  split_query query = Some (count_query, sample_query) →
  ∃ before c inner rest,
    query = before +:+ String c (inner +:+ rest)
    ∧ contains "SELECT" before = false
    ∧ String.prefix "SELECT" (String c (inner +:+ rest)) = true
    ∧ contains "SELECT" inner = false
    ∧ String.prefix "SELECT" rest = true
    ∧ count_query = chop_semicolon (strip (String c inner))
    ∧ sample_query = chop_semicolon (strip rest).
Proof.
  unfold split_query.
  destruct (Nat.ltb (S (occurrences "SELECT" query)) 3); [discriminate|].
  intros ([before rest1] & H1 & H)%bind_Some. cbn [snd] in H.
  destruct rest1 as [|c after]; [discriminate|].
  apply bind_Some in H as ([inner rest] & H2 & [= <- <-]). cbn [fst snd].
  apply break_at_spec in H1 as (-> & Hp1 & Hc1); [|discriminate].
  apply break_at_spec in H2 as (-> & Hp2 & Hc2); [|discriminate].
  exists before, c, inner, rest. repeat split; assumption.
Qed.

Section CursorFacts.
Variable conn : Type.
Variable execute : conn → string → conn * option (list string * list (list pyval)).
Variable max_sample_records : nat.


End CursorFacts.


Lemma count_query_stops_at_second_select_witness :
  split_query nested_check
  = Some ("SELECT COUNT(*) FROM (",
          "SELECT doi FROM papers GROUP BY doi HAVING COUNT(*) > 1) d")
  ∧ ∃ before c inner rest,
      nested_check = before +:+ String c (inner +:+ rest)
      ∧ contains "SELECT" before = false
      ∧ String.prefix "SELECT" (String c (inner +:+ rest)) = true
      ∧ contains "SELECT" inner = false
      ∧ String.prefix "SELECT" rest = true
      ∧ "SELECT COUNT(*) FROM (" = chop_semicolon (strip (String c inner))
      ∧ "SELECT doi FROM papers GROUP BY doi HAVING COUNT(*) > 1) d"
        = chop_semicolon (strip rest).
Proof.
  assert (H1 : split_query nested_check
               = Some ("SELECT COUNT(*) FROM (",
                       "SELECT doi FROM papers GROUP BY doi HAVING COUNT(*) > 1) d"))
    by (vm_compute; reflexivity).
  split; [exact H1|].
  exact (count_query_stops_at_second_select _ _ _ H1).
Defined.
